(** * A shallow embedding of the DataJoint tutorial pipelines

    The calcium-imaging pipeline (Mouse, Session, Scan, AverageFrame,
    SegmentationParam, Segmentation with its part table Roi, Fluorescence
    with its part table Trace) and the electrophysiology pipeline (Mouse,
    Session, Neuron) of the tutorial notebooks, with the [make] methods of
    the notebooks translated cell by cell.

    Floating-point arrays are modelled with rationals [Q]; NumPy arrays as
    nested lists (row-major). Table contents are lists of rows in insertion
    order. *)

From Stdlib Require Import String ZArith QArith Bool Lia List.
From Stdlib Require Import Sorting.Sorted Permutation Numbers.DecimalString.
Import ListNotations.

Open Scope Z_scope.

(** ** Errors raised by the library calls the notebooks make *)

Inductive error : Type :=
| NotImplementedError              (** the base-class [make] *)
| FileNotFoundError (path : string) (** [io.imread] / [np.load] *)
| IndexError                       (** NumPy fancy / boolean indexing *)
| ValueError                       (** [np.reshape] to a shape of another size *)
| TypeError                        (** iteration over a 0-d array *)
| FetchError                       (** [fetch1] on a result that is not one row *)
| IntegrityError                   (** foreign key: referenced row missing *)
| DuplicateError                   (** primary key already present *)
| DataError.                       (** varchar value too long *)

Inductive outcome (A : Type) : Type :=
| Ok (a : A)
| Err (e : error).
Arguments Ok {A} a.
Arguments Err {A} e.

(** ** Keys of the calcium-imaging pipeline *)

Record SessionKey := mkSessionKey { mouse_id : Z; session_date : string }.
Record ScanKey := mkScanKey { sc_session : SessionKey; scan_idx : Z }.
Record SegKey := mkSegKey { sg_scan : ScanKey; seg_param_id : Z }.
Record RoiKey := mkRoiKey { ro_seg : SegKey; roi_idx : Z }.

Definition SessionKey_eqb (a b : SessionKey) : bool :=
  Z.eqb (mouse_id a) (mouse_id b) && String.eqb (session_date a) (session_date b).
Definition ScanKey_eqb (a b : ScanKey) : bool :=
  SessionKey_eqb (sc_session a) (sc_session b) && Z.eqb (scan_idx a) (scan_idx b).
Definition SegKey_eqb (a b : SegKey) : bool :=
  ScanKey_eqb (sg_scan a) (sg_scan b) && Z.eqb (seg_param_id a) (seg_param_id b).
Definition RoiKey_eqb (a b : RoiKey) : bool :=
  SegKey_eqb (ro_seg a) (ro_seg b) && Z.eqb (roi_idx a) (roi_idx b).

(** Messages printed by the [make] methods. *)
Inductive msg : Type :=
| MsgKeyIs (k : ScanKey)                       (** print('key is', key) *)
| MsgPopulatedScan (k : ScanKey)
| MsgPopulatingSeg (k : SegKey)
| MsgDetected (n : nat)                        (** 'Detected {} ROIs!' *)
| MsgPopulatingFl (k : SegKey)
| MsgPopulatedNeuron (neuron_id : Z) (k : SessionKey).

(** ** A state, error and trace monad

    A computation runs on a database state [S]; it records every state it
    writes ([Step]), every file it opens ([Read]) and every line it prints
    ([Out]). *)

Inductive event (S : Type) : Type :=
| Step (s : S)
| Read (path : string)
| Out (m : msg).
Arguments Step {S} s.
Arguments Read {S} path.
Arguments Out {S} m.

Definition M (S A : Type) : Type := S -> list (event S) * outcome (A * S).

Definition ret {S A} (a : A) : M S A := fun s => ([], Ok (a, s)).

Definition bind {S A B} (m : M S A) (f : A -> M S B) : M S B :=
  fun s =>
    match m s with
    | (l1, Ok (a, s1)) => let (l2, r) := f a s1 in (l1 ++ l2, r)
    | (l1, Err e) => (l1, Err e)
    end.

Notation "x <- m ;; k" := (bind m (fun x => k))
  (at level 61, m at next level, right associativity).
Notation "m ;;; k" := (bind m (fun _ : unit => k))
  (at level 61, right associativity).

Definition gets {S A} (f : S -> A) : M S A := fun s => ([], Ok (f s, s)).

Definition raise {S A} (e : error) : M S A := fun _ => ([], Err e).

(** A single write: [f] either rejects the state or returns the new one. *)
Definition update {S} (f : S -> outcome S) : M S unit :=
  fun s => match f s with
           | Ok s' => ([Step s'], Ok (tt, s'))
           | Err e => ([], Err e)
           end.

Definition print {S} (m : msg) : M S unit := fun s => ([Out m], Ok (tt, s)).

(** Opening a file: [fs] is the file system. *)
Definition load {S X} (fs : string -> option X) (p : string) : M S X :=
  fun s => ([Read p], match fs p with
                      | Some x => Ok (x, s)
                      | None => Err (FileNotFoundError p)
                      end).

Fixpoint mapM {S A B} (f : A -> M S B) (l : list A) : M S (list B) :=
  match l with
  | [] => ret []
  | x :: l' => y <- f x ;; ys <- mapM f l' ;; ret (y :: ys)
  end.

Fixpoint mapM_ {S A} (f : A -> M S unit) (l : list A) : M S unit :=
  match l with
  | [] => ret tt
  | x :: l' => f x ;;; mapM_ f l'
  end.

Definition reads {S} (l : list (event S)) : list string :=
  flat_map (fun e => match e with Read p => [p] | _ => [] end) l.

Definition steps {S} (l : list (event S)) : list S :=
  flat_map (fun e => match e with Step s => [s] | _ => [] end) l.

(** [fetch1]: the restriction must hold exactly one row. *)
Definition fetch1 {S R} (tbl : S -> list R) (p : R -> bool) : M S R :=
  fun s => match filter p (tbl s) with
           | [r] => ([], Ok (r, s))
           | _ => ([], Err FetchError)
           end.

(** [fetch]: all rows of the restriction. *)
Definition fetch {S R} (tbl : S -> list R) (p : R -> bool) : M S (list R) :=
  gets (fun s => filter p (tbl s)).

(** ** Rows and tables of the calcium-imaging pipeline *)

Definition Img := list (list Q).        (** a 2-D float array *)
Definition LabelImg := list (list Z).   (** a 2-D integer array *)
Definition BoolImg := list (list bool). (** a 2-D boolean array *)

(** Modelled from the spec: [Mouse] and [Session] are defined in the
    module [pipeline.mouse], which is not part of the sources; the rows keep
    the primary key and the one attribute the notebooks read from them,
    [data_path]. *)
Record SessionRow := mkSessionRow { se_key : SessionKey; data_path : string }.

(** [Scan(dj.Manual)]: [-> Session, scan_idx : int] --- [depth, wavelength,
    laser_power, fps : float, file_name : varchar(128)]. *)
Record ScanRow := mkScanRow {
  sc_key : ScanKey; depth : Q; wavelength : Q; laser_power : Q; fps : Q;
  file_name : string }.

(** [AverageFrame(dj.Imported)]: [-> Scan] --- [average_frame : longblob]. *)
Record AverageFrameRow := mkAverageFrameRow { af_key : ScanKey; average_frame : Img }.

(** [SegmentationParam(dj.Lookup)]: [seg_param_id : int] ---
    [threshold, size_cutoff : float]. *)
Record SegmentationParamRow := mkSegmentationParamRow {
  sp_id : Z; threshold : Q; size_cutoff : Q }.

(** [Segmentation(dj.Computed)]: [-> AverageFrame, -> SegmentationParam] ---
    [segmented_masks : longblob]. *)
Record SegmentationRow := mkSegmentationRow { sg_key : SegKey; segmented_masks : LabelImg }.

(** [Segmentation.Roi(dj.Part)]: [-> master, roi_idx : int] --- [mask : longblob]. *)
Record RoiRow := mkRoiRow { ro_key : RoiKey; mask : BoolImg }.

(** [Fluorescence(dj.Imported)]: [-> Segmentation] --- [time : longblob]. *)
Record FluorescenceRow := mkFluorescenceRow { fl_key : SegKey; time : list Q }.

(** [Fluorescence.Trace(dj.Part)]: [-> master, -> Segmentation.Roi] ---
    [trace : longblob]. The two references share the [Segmentation] attributes,
    so the key is that of [Segmentation.Roi]. *)
Record TraceRow := mkTraceRow { tr_key : RoiKey; trace : list Q }.

Record db := mkdb {
  Mouse : list Z;
  Session : list SessionRow;
  Scan : list ScanRow;
  AverageFrame : list AverageFrameRow;
  SegmentationParam : list SegmentationParamRow;
  Segmentation : list SegmentationRow;
  Roi : list RoiRow;
  Fluorescence : list FluorescenceRow;
  Trace : list TraceRow }.

Definition set_Mouse d x := mkdb x (Session d) (Scan d) (AverageFrame d)
  (SegmentationParam d) (Segmentation d) (Roi d) (Fluorescence d) (Trace d).
Definition set_Session d x := mkdb (Mouse d) x (Scan d) (AverageFrame d)
  (SegmentationParam d) (Segmentation d) (Roi d) (Fluorescence d) (Trace d).
Definition set_Scan d x := mkdb (Mouse d) (Session d) x (AverageFrame d)
  (SegmentationParam d) (Segmentation d) (Roi d) (Fluorescence d) (Trace d).
Definition set_AverageFrame d x := mkdb (Mouse d) (Session d) (Scan d) x
  (SegmentationParam d) (Segmentation d) (Roi d) (Fluorescence d) (Trace d).
Definition set_SegmentationParam d x := mkdb (Mouse d) (Session d) (Scan d)
  (AverageFrame d) x (Segmentation d) (Roi d) (Fluorescence d) (Trace d).
Definition set_Segmentation d x := mkdb (Mouse d) (Session d) (Scan d)
  (AverageFrame d) (SegmentationParam d) x (Roi d) (Fluorescence d) (Trace d).
Definition set_Roi d x := mkdb (Mouse d) (Session d) (Scan d) (AverageFrame d)
  (SegmentationParam d) (Segmentation d) x (Fluorescence d) (Trace d).
Definition set_Fluorescence d x := mkdb (Mouse d) (Session d) (Scan d)
  (AverageFrame d) (SegmentationParam d) (Segmentation d) (Roi d) x (Trace d).
Definition set_Trace d x := mkdb (Mouse d) (Session d) (Scan d) (AverageFrame d)
  (SegmentationParam d) (Segmentation d) (Roi d) (Fluorescence d) x.

(** Key lookups: does the table hold a row with this primary key? *)
Definition has_Mouse d (k : Z) := existsb (Z.eqb k) (Mouse d).
Definition has_Session d k := existsb (fun r => SessionKey_eqb (se_key r) k) (Session d).
Definition has_Scan d k := existsb (fun r => ScanKey_eqb (sc_key r) k) (Scan d).
Definition has_AverageFrame d k := existsb (fun r => ScanKey_eqb (af_key r) k) (AverageFrame d).
Definition has_SegmentationParam d k := existsb (fun r => Z.eqb (sp_id r) k) (SegmentationParam d).
Definition has_Segmentation d k := existsb (fun r => SegKey_eqb (sg_key r) k) (Segmentation d).
Definition has_Roi d k := existsb (fun r => RoiKey_eqb (ro_key r) k) (Roi d).
Definition has_Fluorescence d k := existsb (fun r => SegKey_eqb (fl_key r) k) (Fluorescence d).
Definition has_Trace d k := existsb (fun r => RoiKey_eqb (tr_key r) k) (Trace d).

(** ** [insert1]: the primary key must be new and every foreign key must
    reference an existing row (the database's constraints); a
    [varchar(128)] value must fit. *)

Definition guard (b : bool) (e : error) (k : outcome db) : outcome db :=
  if b then k else Err e.

Definition ins_Mouse (k : Z) (d : db) : outcome db :=
  guard (negb (has_Mouse d k)) DuplicateError
    (Ok (set_Mouse d (Mouse d ++ [k]))).

Definition ins_Session (r : SessionRow) (d : db) : outcome db :=
  guard (negb (has_Session d (se_key r))) DuplicateError
  (guard (has_Mouse d (mouse_id (se_key r))) IntegrityError
    (Ok (set_Session d (Session d ++ [r])))).

Definition ins_Scan (r : ScanRow) (d : db) : outcome db :=
  guard (negb (has_Scan d (sc_key r))) DuplicateError
  (guard (has_Session d (sc_session (sc_key r))) IntegrityError
  (guard (Nat.leb (String.length (file_name r)) 128) DataError
    (Ok (set_Scan d (Scan d ++ [r]))))).

Definition ins_AverageFrame (r : AverageFrameRow) (d : db) : outcome db :=
  guard (negb (has_AverageFrame d (af_key r))) DuplicateError
  (guard (has_Scan d (af_key r)) IntegrityError
    (Ok (set_AverageFrame d (AverageFrame d ++ [r])))).

Definition ins_SegmentationParam (r : SegmentationParamRow) (d : db) : outcome db :=
  guard (negb (has_SegmentationParam d (sp_id r))) DuplicateError
    (Ok (set_SegmentationParam d (SegmentationParam d ++ [r]))).

Definition ins_Segmentation (r : SegmentationRow) (d : db) : outcome db :=
  guard (negb (has_Segmentation d (sg_key r))) DuplicateError
  (guard (has_AverageFrame d (sg_scan (sg_key r))
          && has_SegmentationParam d (seg_param_id (sg_key r))) IntegrityError
    (Ok (set_Segmentation d (Segmentation d ++ [r])))).

Definition ins_Roi (r : RoiRow) (d : db) : outcome db :=
  guard (negb (has_Roi d (ro_key r))) DuplicateError
  (guard (has_Segmentation d (ro_seg (ro_key r))) IntegrityError
    (Ok (set_Roi d (Roi d ++ [r])))).

Definition ins_Fluorescence (r : FluorescenceRow) (d : db) : outcome db :=
  guard (negb (has_Fluorescence d (fl_key r))) DuplicateError
  (guard (has_Segmentation d (fl_key r)) IntegrityError
    (Ok (set_Fluorescence d (Fluorescence d ++ [r])))).

Definition ins_Trace (r : TraceRow) (d : db) : outcome db :=
  guard (negb (has_Trace d (tr_key r))) DuplicateError
  (guard (has_Fluorescence d (ro_seg (tr_key r)) && has_Roi d (tr_key r)) IntegrityError
    (Ok (set_Trace d (Trace d ++ [r])))).

(** [insert1(row)]: one statement, one write. *)
Definition insert1 {S R} (ins : R -> S -> outcome S) (r : R) : M S unit :=
  update (ins r).

Fixpoint ins_all {S R} (ins : R -> S -> outcome S) (rs : list R) (d : S) : outcome S :=
  match rs with
  | [] => Ok d
  | r :: rs' => match ins r d with Ok d' => ins_all ins rs' d' | Err e => Err e end
  end.

(** [insert(rows)]: one statement; either every row goes in or none. *)
Definition insert {S R} (ins : R -> S -> outcome S) (rs : list R) : M S unit :=
  update (ins_all ins rs).

(** ** Library functions used by the [make] methods *)

(** [os.path.join(a, b)] (POSIX). *)
Definition path_join (a b : string) : string :=
  if String.prefix "/" b then b
  else if (String.eqb a "" || String.eqb (String.substring (String.length a - 1) 1 a) "/")%bool
  then (a ++ b)%string
  else (a ++ "/" ++ b)%string.

(** [x[i][j]] of a 2-D array; [None] out of range. *)
Definition pxo {A} (img : list (list A)) (i j : nat) : option A :=
  match nth_error img i with Some row => nth_error row j | None => None end.

Definition nrows {A} (img : list (list A)) : nat := length img.
Definition ncols {A} (img : list (list A)) : nat :=
  match img with [] => 0%nat | r :: _ => length r end.

Definition tabulate {A} (h w : nat) (f : nat -> nat -> A) : list (list A) :=
  map (fun i => map (fun j => f i j) (seq 0 w)) (seq 0 h).

Fixpoint zipw {A B C} (f : A -> B -> C) (l1 : list A) (l2 : list B) : list C :=
  match l1, l2 with
  | x :: l1', y :: l2' => f x y :: zipw f l1' l2'
  | _, _ => []
  end.

Fixpoint opt_map {A B} (f : A -> option B) (l : list A) : option (list B) :=
  match l with
  | [] => Some []
  | x :: l' => match f x, opt_map f l' with
               | Some y, Some ys => Some (y :: ys)
               | _, _ => None
               end
  end.

Definition Qlt_bool (a b : Q) : bool := negb (Qle_bool b a).

(** [np.mean(im, axis=0)] of an [n x w x h] stack: the pixelwise sum of the
    frames divided by [n]. (An empty stack, where NumPy returns [nan]s, is
    sent to the empty array.) *)
Definition add_frames (a b : Img) : Img := zipw (zipw Qplus) a b.
Definition np_mean_axis0 (im : list Img) : Img :=
  match im with
  | [] => []
  | f :: fs => map (map (fun v => (v / inject_Z (Z.of_nat (length im)))%Q))
                   (fold_left add_frames fs f)
  end.

(** [avg_image > threshold]. *)
Definition img_gt (img : Img) (t : Q) : BoolImg := map (map (fun v => Qlt_bool t v)) img.

(** [label_im == i]. *)
Definition img_eq (L : LabelImg) (i : Z) : BoolImg := map (map (Z.eqb i)) L.

(** [np.sum(label_im == i)]. *)
Definition np_sum_eq (L : LabelImg) (i : Z) : nat := length (filter (Z.eqb i) (concat L)).

(** [np.unique]: the sorted distinct values. *)
Fixpoint ins_sorted (x : Z) (l : list Z) : list Z :=
  match l with
  | [] => [x]
  | y :: l' => if x <? y then x :: l else if x =? y then l else y :: ins_sorted x l'
  end.
Definition np_unique (L : LabelImg) : list Z := fold_right ins_sorted [] (concat L).

(** [a[v]] for a 1-D array [a] and an integer [v] (negative indices count
    from the end); [None] is an [IndexError]. *)
Definition np_index (a : list bool) (v : Z) : option bool :=
  if v <? 0 then
    if 0 <=? Z.of_nat (length a) + v then nth_error a (Z.to_nat (Z.of_nat (length a) + v))
    else None
  else nth_error a (Z.to_nat v).

(** [a[L]] for an integer array [L] (fancy indexing). *)
Definition fancy_index (a : list bool) (L : LabelImg) : option BoolImg :=
  opt_map (opt_map (np_index a)) L.

(** [L[P] = 0] for a boolean array [P] of the same shape. *)
Definition assign_zero (L : LabelImg) (P : BoolImg) : LabelImg :=
  zipw (zipw (fun (v : Z) (b : bool) => if b then 0 else v)) L P.

(** [scipy.ndimage.label(mask)] with the default (4-connected) structuring
    element: every foreground pixel starts with its own provisional label,
    the smallest provisional label spreads over each connected component,
    and the components are then numbered [1, 2, ...] in the raster order of
    their first pixel; the background is [0]. *)
Definition on_mask (m : BoolImg) (i j : nat) : bool :=
  match pxo m i j with Some true => true | _ => false end.
Definition lbl_at (L : LabelImg) (i j : nat) : Z :=
  match pxo L i j with Some v => v | None => 0 end.
Definition nbrs (i j : nat) : list (nat * nat) :=
  (i, S j) :: (S i, j)
  :: (match i with O => [] | S i' => [(i', j)] end)
  ++ (match j with O => [] | S j' => [(i, j')] end).
Definition min_nonzero (v : Z) (l : list Z) : Z :=
  fold_left (fun acc x => if x =? 0 then acc else Z.min acc x) l v.
Definition label_init (m : BoolImg) : LabelImg :=
  tabulate (nrows m) (ncols m)
    (fun i j => if on_mask m i j then Z.of_nat (i * ncols m + j + 1) else 0).
Definition label_round (m : BoolImg) (L : LabelImg) : LabelImg :=
  tabulate (nrows m) (ncols m)
    (fun i j => if on_mask m i j
                then min_nonzero (lbl_at L i j) (map (fun p => lbl_at L (fst p) (snd p)) (nbrs i j))
                else 0).
Definition first_seen (l : list Z) : list Z :=
  fold_left (fun acc x => if (x =? 0) || existsb (Z.eqb x) acc then acc else acc ++ [x]) l [].
Fixpoint index_of (x : Z) (l : list Z) : nat :=
  match l with [] => 0%nat | y :: l' => if x =? y then 0%nat else S (index_of x l') end.
Definition renumber (L : LabelImg) : LabelImg :=
  let r := first_seen (concat L) in
  map (map (fun v => if v =? 0 then 0 else Z.of_nat (S (index_of v r)))) L.
Definition ndimage_label (m : BoolImg) : LabelImg * nat :=
  let L := Nat.iter (nrows m * ncols m) (label_round m) (label_init m) in
  (renumber L, length (first_seen (concat L))).

(** ** The [make] methods of the calcium-imaging notebooks *)

Definition session_of (k : ScanKey) (r : SessionRow) : bool :=
  SessionKey_eqb (se_key r) (sc_session k).
Definition scan_of (k : ScanKey) (r : ScanRow) : bool := ScanKey_eqb (sc_key r) k.

(** [AverageFrame.make] before it is implemented: [print('key is', key)]. *)
Definition AverageFrame_make_print (key : ScanKey) : M db unit := print (MsgKeyIs key).

(** [AverageFrame.make]: [imread] the scan's tif, [np.mean(im, axis=0)],
    [insert1]. [fs] is the file system seen by [io.imread]. *)
Definition AverageFrame_make (fs : string -> option (list Img)) (key : ScanKey) : M db unit :=
  se <- fetch1 Session (session_of key) ;;
  sc <- fetch1 Scan (scan_of key) ;;
  im <- load fs (path_join (data_path se) (file_name sc)) ;;
  let avg_image := np_mean_axis0 im in
  insert1 ins_AverageFrame (mkAverageFrameRow key avg_image) ;;;
  print (MsgPopulatedScan key).

(** The body of [Segmentation.make] from [mask = avg_image > threshold] to
    the list [rois]; [None] is the [IndexError] of
    [small_size_filter[label_im]]. *)
Definition segment (avg_image : Img) (threshold size_cutoff : Q) : option (LabelImg * list Z) :=
  let mask := img_gt avg_image threshold in
  let label_im := fst (ndimage_label mask) in
  let sizes := map (np_sum_eq label_im) (np_unique label_im) in
  let small_size_filter := map (fun s => Qlt_bool (inject_Z (Z.of_nat s)) size_cutoff) sizes in
  match fancy_index small_size_filter label_im with
  | None => None
  | Some pixel_to_remove =>
      let label_im := assign_zero label_im pixel_to_remove in
      Some (label_im, tl (np_unique label_im))
  end.

Definition Segmentation_make (key : SegKey) : M db unit :=
  print (MsgPopulatingSeg key) ;;;
  af <- fetch1 AverageFrame (fun r => ScanKey_eqb (af_key r) (sg_scan key)) ;;
  sp <- fetch1 SegmentationParam (fun r => Z.eqb (sp_id r) (seg_param_id key)) ;;
  match segment (average_frame af) (threshold sp) (size_cutoff sp) with
  | None => raise IndexError
  | Some (label_im, labels) =>
      let rois := map (fun i => mkRoiRow (mkRoiKey key i) (img_eq label_im i)) labels in
      insert1 ins_Segmentation (mkSegmentationRow key label_im) ;;;
      print (MsgDetected (length rois)) ;;;
      insert ins_Roi rois
  end.

(** [np.mean(im_reshaped[:, mask_reshaped], axis=1)] for one frame row. *)
Definition select {A} (row : list A) (m : list bool) : list A :=
  map fst (filter snd (combine row m)).
Definition q_mean (l : list Q) : Q :=
  (fold_right Qplus 0 l / inject_Z (Z.of_nat (length l)))%Q.

Definition Fluorescence_make (fs : string -> option (list Img)) (key : SegKey) : M db unit :=
  print (MsgPopulatingFl key) ;;;
  se <- fetch1 Session (session_of (sg_scan key)) ;;
  sc <- fetch1 Scan (scan_of (sg_scan key)) ;;
  im <- load fs (path_join (data_path se) (file_name sc)) ;;
  let n := length im in
  let w := nrows (hd [] im) in
  let h := ncols (hd [] im) in
  let im_reshaped := map (@concat Q) im in
  sc' <- fetch1 Scan (scan_of (sg_scan key)) ;;
  let fps := fps sc' in
  insert1 ins_Fluorescence
    (mkFluorescenceRow key (map (fun t => (inject_Z (Z.of_nat t) / fps)%Q) (seq 0 n))) ;;;
  rois <- fetch Roi (fun r => SegKey_eqb (ro_seg (ro_key r)) key) ;;
  traces <- mapM (fun r =>
               let mask_reshaped := concat (mask r) in
               if Nat.eqb (length mask_reshaped) (w * h)
               then ret (mkTraceRow (ro_key r)
                           (map (fun row => q_mean (select row mask_reshaped)) im_reshaped))
               else raise ValueError) rois ;;
  insert ins_Trace traces.

(** ** The [populate] driver

    Modelled from the spec: [populate] belongs to the external DataJoint
    library, which is not part of the sources. Following the glossary, the
    driver enumerates the keys of the key source (the join of the parents'
    primary keys) missing from the table and invokes the user-supplied
    [make] callback on each, in order; each call runs as one transaction,
    so a call that raises leaves no trace and the error ends [populate]
    (the notebooks handle no error). A class without [make] has the base
    method, which raises [NotImplementedError] when invoked. The result is
    the final state, the keys [make] was invoked on, and the error raised. *)
Section Populate.
Context {K : Type}.
Variable key_source : db -> list K.
Variable present : db -> K -> bool.

Fixpoint populate_loop (make : option (K -> M db unit)) (keys : list K) (d : db)
    : db * list K * option error :=
    match keys with
    | [] => (d, [], None)
    | k :: ks =>
        match make with
        | None => (d, [], Some NotImplementedError)
        | Some mk =>
            match snd (mk k d) with
            | Ok (_, d') => let '(d2, cs, e) := populate_loop make ks d' in (d2, k :: cs, e)
            | Err e => (d, [k], Some e)
            end
        end
    end.

Definition missing (d : db) : list K := filter (fun k => negb (present d k)) (key_source d).

Definition populate (make : option (K -> M db unit)) (d : db) : db * list K * option error :=
    populate_loop make (missing d) d.
End Populate.

Definition AverageFrame_key_source (d : db) : list ScanKey := map sc_key (Scan d).
Definition Segmentation_key_source (d : db) : list SegKey :=
  flat_map (fun a => map (fun p => mkSegKey (af_key a) (sp_id p)) (SegmentationParam d))
           (AverageFrame d).
Definition Fluorescence_key_source (d : db) : list SegKey := map sg_key (Segmentation d).

Definition AverageFrame_populate (make : option (ScanKey -> M db unit)) :=
  populate AverageFrame_key_source has_AverageFrame make.
Definition Segmentation_populate (make : option (SegKey -> M db unit)) :=
  populate Segmentation_key_source has_Segmentation make.
Definition Fluorescence_populate (make : option (SegKey -> M db unit)) :=
  populate Fluorescence_key_source has_Fluorescence make.

(** ** Cascading [delete]

    Modelled from the spec: [delete] belongs to the external DataJoint
    library. A delete removes the restricted rows and, in cascade, every
    row of every dependent table that references a removed row; in the
    notebooks' safe mode it first asks for confirmation ("Select 'No' when
    it pops up"), and a refusal deletes nothing. [cascade] removes, table by
    table, the rows whose key satisfies that table's predicate; the part
    tables follow their [Segmentation] key. *)
Definition cascade (PM : Z -> bool) (PSe : SessionKey -> bool) (PSc PA : ScanKey -> bool)
    (PP : Z -> bool) (PG : SegKey -> bool) (d : db) : db :=
  mkdb (filter (fun k => negb (PM k)) (Mouse d))
       (filter (fun r => negb (PSe (se_key r))) (Session d))
       (filter (fun r => negb (PSc (sc_key r))) (Scan d))
       (filter (fun r => negb (PA (af_key r))) (AverageFrame d))
       (filter (fun r => negb (PP (sp_id r))) (SegmentationParam d))
       (filter (fun r => negb (PG (sg_key r))) (Segmentation d))
       (filter (fun r => negb (PG (ro_seg (ro_key r)))) (Roi d))
       (filter (fun r => negb (PG (fl_key r))) (Fluorescence d))
       (filter (fun r => negb (PG (ro_seg (tr_key r)))) (Trace d)).

Definition none {A} (_ : A) : bool := false.

Definition del_Mouse (P : Z -> bool) : db -> db :=
  cascade P (fun k => P (mouse_id k)) (fun k => P (mouse_id (sc_session k)))
    (fun k => P (mouse_id (sc_session k))) none
    (fun k => P (mouse_id (sc_session (sg_scan k)))).
Definition del_Session (P : SessionKey -> bool) : db -> db :=
  cascade none P (fun k => P (sc_session k)) (fun k => P (sc_session k)) none
    (fun k => P (sc_session (sg_scan k))).
Definition del_Scan (P : ScanKey -> bool) : db -> db :=
  cascade none none P P none (fun k => P (sg_scan k)).
Definition del_AverageFrame (P : ScanKey -> bool) : db -> db :=
  cascade none none none P none (fun k => P (sg_scan k)).
Definition del_SegmentationParam (P : Z -> bool) : db -> db :=
  cascade none none none none P (fun k => P (seg_param_id k)).
Definition del_Segmentation (P : SegKey -> bool) : db -> db :=
  cascade none none none none none P.
(** [(Fluorescence & r).delete()]: the master rows and their Trace rows. *)
Definition del_Fluorescence (P : SegKey -> bool) (d : db) : db :=
  set_Trace (set_Fluorescence d (filter (fun r => negb (P (fl_key r))) (Fluorescence d)))
            (filter (fun r => negb (P (ro_seg (tr_key r)))) (Trace d)).
(** A forced delete from a part table: [Segmentation.Roi] rows cascade to
    the Trace rows referencing them; [Fluorescence.Trace] rows have no
    dependents. *)
Definition del_Roi (P : RoiKey -> bool) (d : db) : db :=
  set_Trace (set_Roi d (filter (fun r => negb (P (ro_key r))) (Roi d)))
            (filter (fun r => negb (P (tr_key r))) (Trace d)).
Definition del_Trace (P : RoiKey -> bool) (d : db) : db :=
  set_Trace d (filter (fun r => negb (P (tr_key r))) (Trace d)).

(** [(T & restriction).delete()], answered [confirm] at the prompt. *)
Definition delete (confirm : bool) (del : db -> db) (d : db) : db :=
  if confirm then del d else d.

(** [Part.delete(force)]: without [force] the library refuses to delete
    from a part table directly and nothing is deleted. *)
Definition delete_part (force confirm : bool) (del : db -> db) (d : db) : db :=
  if force then delete confirm del d else d.

(** ** Referential integrity: every foreign key references an existing row *)

Definition fk_Session (d : db) (r : SessionRow) : bool := has_Mouse d (mouse_id (se_key r)).
Definition fk_Scan (d : db) (r : ScanRow) : bool := has_Session d (sc_session (sc_key r)).
Definition fk_AverageFrame (d : db) (r : AverageFrameRow) : bool := has_Scan d (af_key r).
Definition fk_Segmentation (d : db) (r : SegmentationRow) : bool :=
  has_AverageFrame d (sg_scan (sg_key r)) && has_SegmentationParam d (seg_param_id (sg_key r)).
Definition fk_Roi (d : db) (r : RoiRow) : bool := has_Segmentation d (ro_seg (ro_key r)).
Definition fk_Fluorescence (d : db) (r : FluorescenceRow) : bool := has_Segmentation d (fl_key r).
Definition fk_Trace (d : db) (r : TraceRow) : bool :=
  has_Fluorescence d (ro_seg (tr_key r)) && has_Roi d (tr_key r).

Definition integrity_b (d : db) : bool :=
  forallb (fk_Session d) (Session d) && forallb (fk_Scan d) (Scan d)
  && forallb (fk_AverageFrame d) (AverageFrame d)
  && forallb (fk_Segmentation d) (Segmentation d) && forallb (fk_Roi d) (Roi d)
  && forallb (fk_Fluorescence d) (Fluorescence d) && forallb (fk_Trace d) (Trace d).
Definition integrity (d : db) : Prop := integrity_b d = true.

(** Every part-table row has its master row. *)
Definition part_master_b (d : db) : bool :=
  forallb (fk_Roi d) (Roi d)
  && forallb (fun r => has_Fluorescence d (ro_seg (tr_key r))) (Trace d).
Definition part_master (d : db) : Prop := part_master_b d = true.

(** ** The operations of the notebooks on the imaging pipeline *)

Inductive op : Type :=
| InsMouse (rs : list Z)
| InsSession (rs : list SessionRow)
| InsScan (rs : list ScanRow)
| InsAverageFrame (rs : list AverageFrameRow)
| InsSegmentationParam (rs : list SegmentationParamRow)
| InsSegmentation (rs : list SegmentationRow)
| InsRoi (rs : list RoiRow)
| InsFluorescence (rs : list FluorescenceRow)
| InsTrace (rs : list TraceRow)
| PopAverageFrame
| PopSegmentation
| PopFluorescence
| DelMouse (P : Z -> bool) (confirm : bool)
| DelSession (P : SessionKey -> bool) (confirm : bool)
| DelScan (P : ScanKey -> bool) (confirm : bool)
| DelAverageFrame (P : ScanKey -> bool) (confirm : bool)
| DelSegmentationParam (P : Z -> bool) (confirm : bool)
| DelSegmentation (P : SegKey -> bool) (confirm : bool)
| DelFluorescence (P : SegKey -> bool) (confirm : bool)
| DelRoi (P : RoiKey -> bool) (force confirm : bool)
| DelTrace (P : RoiKey -> bool) (force confirm : bool).

(** The state after a statement; a statement that raises leaves the state
    its transaction committed ([insert] is one statement). *)
Definition state_after {S} (m : M S unit) (d : S) : S :=
  match snd (m d) with Ok (_, d') => d' | Err _ => d end.

Definition exec_op (fs : string -> option (list Img)) (o : op) (d : db) : db :=
  match o with
  | InsMouse rs => state_after (insert ins_Mouse rs) d
  | InsSession rs => state_after (insert ins_Session rs) d
  | InsScan rs => state_after (insert ins_Scan rs) d
  | InsAverageFrame rs => state_after (insert ins_AverageFrame rs) d
  | InsSegmentationParam rs => state_after (insert ins_SegmentationParam rs) d
  | InsSegmentation rs => state_after (insert ins_Segmentation rs) d
  | InsRoi rs => state_after (insert ins_Roi rs) d
  | InsFluorescence rs => state_after (insert ins_Fluorescence rs) d
  | InsTrace rs => state_after (insert ins_Trace rs) d
  | PopAverageFrame => fst (fst (AverageFrame_populate (Some (AverageFrame_make fs)) d))
  | PopSegmentation => fst (fst (Segmentation_populate (Some Segmentation_make) d))
  | PopFluorescence => fst (fst (Fluorescence_populate (Some (Fluorescence_make fs)) d))
  | DelMouse P c => delete c (del_Mouse P) d
  | DelSession P c => delete c (del_Session P) d
  | DelScan P c => delete c (del_Scan P) d
  | DelAverageFrame P c => delete c (del_AverageFrame P) d
  | DelSegmentationParam P c => delete c (del_SegmentationParam P) d
  | DelSegmentation P c => delete c (del_Segmentation P) d
  | DelFluorescence P c => delete c (del_Fluorescence P) d
  | DelRoi P f c => delete_part f c (del_Roi P) d
  | DelTrace P f c => delete_part f c (del_Trace P) d
  end.

(** ** The Scan rows the imaging notebook inserts (cells [Scan.insert] and
    [Scan.insert1]) and the file-name convention of its data folder *)

Definition notebook_scans : list ScanRow :=
  [ mkScanRow (mkScanKey (mkSessionKey 0 "2017-05-15") 1) (150#1) (920#1) (26#1) (15#1)
      "example_scan_01.tif";
    mkScanRow (mkScanKey (mkSessionKey 0 "2017-05-15") 2) (200#1) (920#1) (24#1) (15#1)
      "example_scan_02.tif";
    mkScanRow (mkScanKey (mkSessionKey 100 "2017-05-25") 1) (150#1) (920#1) (25#1) (15#1)
      "example_scan_03.tif" ].

Definition is_digit (c : Ascii.ascii) : bool :=
  (Nat.leb 48 (Ascii.nat_of_ascii c) && Nat.leb (Ascii.nat_of_ascii c) 57)%bool.
Definition opt_digit (c : option Ascii.ascii) : bool :=
  match c with Some c => is_digit c | None => false end.

(** [example_scan_NN.tif] with two decimal digits [NN]. *)
Definition is_example_scan_name (s : string) : bool :=
  (Nat.eqb (String.length s) 19 && String.prefix "example_scan_" s
   && opt_digit (String.get 13 s) && opt_digit (String.get 14 s)
   && String.eqb (String.substring 15 4 s) ".tif")%bool.

(** ** The electrophysiology pipeline *)
Module Ephys.

Set Warnings "-register-all".

  (** A NumPy array loaded by [np.load]: a 0-d scalar or an array of
      sub-arrays along its first axis. *)
Inductive ndarray : Type :=
  | Scalar (v : Q)
  | Arr (l : list ndarray).

  (** [data.shape[0]]; a 0-d array has no first axis. *)
Definition shape0 (a : ndarray) : option nat :=
    match a with Scalar _ => None | Arr l => Some (length l) end.

  (** [Neuron(dj.Imported)]: [-> Session, neuron_id : int] ---
      [activity : longblob]. *)
Record NeuronRow := mkNeuronRow { nu_key : SessionKey; neuron_id : Z; activity : ndarray }.

  (** Modelled from the spec: [Session] of [pipeline.mouse] (not in the
      sources), reduced to its primary key. *)
Record edb := mkedb { Session : list SessionKey; Neuron : list NeuronRow }.

Definition has_Session (d : edb) (k : SessionKey) : bool :=
    existsb (SessionKey_eqb k) (Session d).
Definition has_Neuron (d : edb) (k : SessionKey) (i : Z) : bool :=
    existsb (fun r => SessionKey_eqb (nu_key r) k && Z.eqb (neuron_id r) i) (Neuron d).

Definition ins_Neuron (r : NeuronRow) (d : edb) : outcome edb :=
    if has_Neuron d (nu_key r) (neuron_id r) then Err DuplicateError
    else if has_Session d (nu_key r) then Ok (mkedb (Session d) (Neuron d ++ [r]))
    else Err IntegrityError.

  (** [str(i)] for a Python [int]. *)
Definition py_str_int (z : Z) : string := NilZero.string_of_int (Z.to_int z).

  (** [enumerate(data)]. *)
Definition enumerate {A} (l : list A) : list (nat * A) := combine (seq 0 (length l)) l.

  (** [Neuron.make]: [np.load] the session's file, one row per index of its
      first axis. [fs] is the file system seen by [np.load]. *)
Definition Neuron_make (data_dir : string) (fs : string -> option ndarray) (key : SessionKey)
    : M edb unit :=
    let data_file := (data_dir ++ "/data_" ++ py_str_int (mouse_id key) ++ "_"
                      ++ session_date key ++ ".npy")%string in
    data <- load fs data_file ;;
    match data with
    | Scalar _ => raise TypeError
    | Arr l =>
        mapM_ (fun p =>
                 insert1 ins_Neuron (mkNeuronRow key (Z.of_nat (fst p)) (snd p)) ;;;
                 print (MsgPopulatedNeuron (Z.of_nat (fst p)) key))
              (enumerate l)
    end.

End Ephys.

(** ** Concrete inputs for the examples below *)

Definition key_a : ScanKey := mkScanKey (mkSessionKey 0 "2017-05-15") 1.
Definition key_b : ScanKey := mkScanKey (mkSessionKey 0 "2017-05-15") 2.

(** Mouse 0 with one session whose data live in [/data], and the first two
    Scan rows of the notebook. *)
Definition db_scans : db :=
  mkdb [0] [mkSessionRow (mkSessionKey 0 "2017-05-15") "/data"]
       (firstn 2 notebook_scans) [] [] [] [] [] [].

(** A data folder that holds a 2-frame [example_scan_02.tif] only. *)
Definition fs_only_02 (p : string) : option (list Img) :=
  if String.eqb p "/data/example_scan_02.tif"
  then Some [ [[2#1; 4#1]]; [[4#1; 8#1]] ] else None.

(** A data folder that holds both tifs. *)
Definition fs_both (p : string) : option (list Img) :=
  if String.eqb p "/data/example_scan_01.tif" then Some [ [[1#1; 3#1]]; [[3#1; 5#1]] ]
  else fs_only_02 p.

(** The two Scan keys with average frames: [key_a]'s frame is above the
    threshold 50 everywhere, [key_b]'s only at its second pixel. *)
Definition db_frames : db :=
  mkdb [0] [mkSessionRow (mkSessionKey 0 "2017-05-15") "/data"]
       (firstn 2 notebook_scans)
       [mkAverageFrameRow key_a [[100#1]]; mkAverageFrameRow key_b [[0#1; 100#1]]]
       [mkSegmentationParamRow 0 (50#1) (50#1)] [] [] [] [].

(** [key_a] with a 1 x 4 average frame: two components above the
    threshold 50, of 2 and 1 pixels, and the size cutoff 2. *)
Definition db_rois : db :=
  mkdb [0] [mkSessionRow (mkSessionKey 0 "2017-05-15") "/data"]
       (firstn 2 notebook_scans)
       [mkAverageFrameRow key_a [[100#1; 100#1; 0#1; 100#1]]]
       [mkSegmentationParamRow 0 (50#1) (2#1)] [] [] [] [].

(** ** Notions used by the statements below *)

(** The Roi rows [Segmentation.make] builds from the label image [L]. *)
Definition rois_of (key : SegKey) (L : LabelImg) (labels : list Z) : list RoiRow :=
  map (fun i => mkRoiRow (mkRoiKey key i) (img_eq L i)) labels.

(** Every table of [d] is contained in the same table of [d']. *)
Definition db_incl (d d' : db) : Prop :=
  incl (Mouse d) (Mouse d') /\ incl (Session d) (Session d') /\ incl (Scan d) (Scan d')
  /\ incl (AverageFrame d) (AverageFrame d')
  /\ incl (SegmentationParam d) (SegmentationParam d')
  /\ incl (Segmentation d) (Segmentation d') /\ incl (Roi d) (Roi d')
  /\ incl (Fluorescence d) (Fluorescence d') /\ incl (Trace d) (Trace d').

(** The file [data_dir/data_{mouse_id}_{session_date}.npy] of a session. *)
Definition neuron_data_file (data_dir : string) (key : SessionKey) : string :=
  (data_dir ++ "/data_" ++ Ephys.py_str_int (mouse_id key) ++ "_" ++ session_date key
   ++ ".npy")%string.

(** A Scan row of session 0 whose file does not follow the convention. *)
Definition scan_other_name : ScanRow :=
  mkScanRow (mkScanKey (mkSessionKey 0 "2017-05-15") 3) (150#1) (920#1) (26#1) (15#1) "scan.tif".

(** A 2-D array of [w] rows of [h] values, and its value at [(i, j)]. *)
Definition has_shape (w h : nat) (f : Img) : Prop := length f = w /\ Forall (fun r => length r = h) f.
Definition pixel (f : Img) (i j : nat) : Q := nth j (nth i f []) 0%Q.

(** [np.sum(m)]: the number of [True] pixels of a boolean array. *)
Definition np_sum_bool (m : BoolImg) : nat := length (filter (fun b : bool => b) (concat m)).

(** A computation preserves [I]: started in a state satisfying [I], every
    state it writes and its final state satisfy [I]. *)
Definition preserves {S A} (I : S -> Prop) (m : M S A) : Prop :=
  forall s, I s ->
    Forall I (steps (fst (m s)))
    /\ match snd (m s) with Ok (_, s') => I s' | Err _ => True end.

(** [Segmentation.make] above threshold nowhere, a tif matching the frame of
    [db_rois], the state after [Segmentation.make] on [db_rois], and Neuron
    tables with one row of neuron 0 or of neuron 7. *)
Definition db_dark : db :=
  mkdb [0] [mkSessionRow (mkSessionKey 0 "2017-05-15") "/data"]
       (firstn 2 notebook_scans)
       [mkAverageFrameRow key_a [[0#1; 10#1]]]
       [mkSegmentationParamRow 0 (50#1) (2#1)] [] [] [] [].
Definition fs_rois (p : string) : option (list Img) :=
  if String.eqb p "/data/example_scan_01.tif"
  then Some [ [[100#1; 100#1; 0#1; 100#1]]; [[50#1; 150#1; 0#1; 100#1]] ] else None.
Definition db_segmented : db := state_after (Segmentation_make (mkSegKey key_a 0)) db_rois.
Definition db_fluor : db := state_after (Fluorescence_make fs_rois (mkSegKey key_a 0)) db_segmented.
Definition edb_dup : Ephys.edb :=
  Ephys.mkedb [mkSessionKey 0 "2017-05-15"]
              [Ephys.mkNeuronRow (mkSessionKey 0 "2017-05-15") 0 (Ephys.Scalar 0)].
Definition edb_other : Ephys.edb :=
  Ephys.mkedb [mkSessionKey 0 "2017-05-15"]
              [Ephys.mkNeuronRow (mkSessionKey 0 "2017-05-15") 7 (Ephys.Scalar 0)].

(** The database facts [Segmentation.make] relies on: every Roi row has its
    Segmentation row, and the primary keys of AverageFrame and
    SegmentationParam are distinct (as the database enforces). *)
Definition seg_wf (d : db) : Prop :=
  part_master d /\ NoDup (map af_key (AverageFrame d))
  /\ NoDup (map sp_id (SegmentationParam d)).

(** A 2-D array of [w] rows of [h] values of any type. *)
Definition has_dims {A} (w h : nat) (X : list (list A)) : Prop :=
  length X = w /\ Forall (fun r => length r = h) X.

(** The state [s] differs from [d] only by rows appended to the tables a
    [make] method writes. *)
Definition appends_AverageFrame (d s : db) : Prop :=
  exists rs, s = set_AverageFrame d (AverageFrame d ++ rs).
Definition appends_Segmentation (d s : db) : Prop :=
  exists rs qs, s = set_Roi (set_Segmentation d (Segmentation d ++ rs)) (Roi d ++ qs).
Definition appends_Fluorescence (d s : db) : Prop :=
  exists rs qs, s = set_Trace (set_Fluorescence d (Fluorescence d ++ rs)) (Trace d ++ qs).
Definition appends_Neuron (d s : Ephys.edb) : Prop :=
  exists rs, s = Ephys.mkedb (Ephys.Session d) (Ephys.Neuron d ++ rs).

(** The body of the loop of [Neuron.make]: [insert1] the row of index
    [fst p], then print. *)
Definition neuron_step (key : SessionKey) (p : nat * Ephys.ndarray) : M Ephys.edb unit :=
  insert1 Ephys.ins_Neuron (Ephys.mkNeuronRow key (Z.of_nat (fst p)) (snd p)) ;;;
  print (MsgPopulatedNeuron (Z.of_nat (fst p)) key).

(** * Proofs *)

(** ** Key equality *)

Lemma SessionKey_eqb_eq a b : SessionKey_eqb a b = true <-> a = b.
Proof.
  destruct a as [m1 s1], b as [m2 s2]; unfold SessionKey_eqb; cbn.
  rewrite andb_true_iff, Z.eqb_eq, String.eqb_eq.
  split; [intros [-> ->]; reflexivity | intros H; inversion H; auto].
Qed.

Lemma ScanKey_eqb_eq a b : ScanKey_eqb a b = true <-> a = b.
Proof.
  destruct a as [s1 i1], b as [s2 i2]; unfold ScanKey_eqb; cbn.
  rewrite andb_true_iff, SessionKey_eqb_eq, Z.eqb_eq.
  split; [intros [-> ->]; reflexivity | intros H; inversion H; auto].
Qed.

Lemma SegKey_eqb_eq a b : SegKey_eqb a b = true <-> a = b.
Proof.
  destruct a as [s1 i1], b as [s2 i2]; unfold SegKey_eqb; cbn.
  rewrite andb_true_iff, ScanKey_eqb_eq, Z.eqb_eq.
  split; [intros [-> ->]; reflexivity | intros H; inversion H; auto].
Qed.

Lemma RoiKey_eqb_eq a b : RoiKey_eqb a b = true <-> a = b.
Proof.
  destruct a as [s1 i1], b as [s2 i2]; unfold RoiKey_eqb; cbn.
  rewrite andb_true_iff, SegKey_eqb_eq, Z.eqb_eq.
  split; [intros [-> ->]; reflexivity | intros H; inversion H; auto].
Qed.

Lemma SessionKey_eqb_refl a : SessionKey_eqb a a = true.
Proof. apply SessionKey_eqb_eq; reflexivity. Qed.
Lemma ScanKey_eqb_refl a : ScanKey_eqb a a = true.
Proof. apply ScanKey_eqb_eq; reflexivity. Qed.
Lemma SegKey_eqb_refl a : SegKey_eqb a a = true.
Proof. apply SegKey_eqb_eq; reflexivity. Qed.
Lemma RoiKey_eqb_refl a : RoiKey_eqb a a = true.
Proof. apply RoiKey_eqb_eq; reflexivity. Qed.

(** ** Running the monad *)

Lemma snd_bind {S A B} (m : M S A) (f : A -> M S B) s :
  snd (bind m f s) = match snd (m s) with
                     | Ok (a, s1) => snd (f a s1)
                     | Err e => Err e
                     end.
Proof.
  unfold bind; destruct (m s) as [l [[a s1] | e]]; cbn; [destruct (f a s1) |]; reflexivity.
Qed.

Lemma fst_bind {S A B} (m : M S A) (f : A -> M S B) s :
  fst (bind m f s) = fst (m s) ++ match snd (m s) with
                                  | Ok (a, s1) => fst (f a s1)
                                  | Err e => []
                                  end.
Proof.
  unfold bind; destruct (m s) as [l [[a s1] | e]]; cbn; [destruct (f a s1) | rewrite app_nil_r];
    reflexivity.
Qed.

(** Peel one [bind] off a hypothesis [snd (...) = Ok ...]. *)
Ltac run_in H :=
  repeat (rewrite snd_bind in H; cbn beta iota in H;
          lazymatch type of H with
          | context [match snd ?m with _ => _ end] =>
              let E := fresh "E" in
              destruct (snd m) as [[? ?] | ?] eqn:E; [| discriminate H]
          end).

(** ** List facts *)

Lemma filter_all_false {A} (f : A -> bool) l :
  (forall x, In x l -> f x = false) -> filter f l = [].
Proof.
  induction l as [| x l IH]; intro H; cbn; [reflexivity |].
  rewrite (H x (or_introl eq_refl)); apply IH; intros y Hy; apply H; right; exact Hy.
Qed.

Lemma existsb_false_filter {A} (f : A -> bool) l : existsb f l = false -> filter f l = [].
Proof.
  intro H; apply filter_all_false; intros x Hx.
  destruct (f x) eqn:E; [| reflexivity].
  assert (Hc : existsb f l = true) by (apply existsb_exists; exists x; auto); congruence.
Qed.

(** ** The [populate] driver *)

Section PopulateFacts.
Context {K : Type}.
Variable key_source : db -> list K.
Variable present : db -> K -> bool.
Variable mk : K -> M db unit.

Lemma populate_loop_prefix ks d :
    let '(_, cs, e) := populate_loop (Some mk) ks d in
    (exists rest, ks = cs ++ rest) /\ (e = None -> cs = ks).
  Proof.
    revert d; induction ks as [| k ks IH]; intro d; cbn.
    - split; [exists []; reflexivity | reflexivity].
    - destruct (snd (mk k d)) as [[u d'] | e].
      + specialize (IH d'); destruct (populate_loop (Some mk) ks d') as [[d2 cs] e].
        destruct IH as [[rest Hr] He]; split.
        * exists rest; rewrite Hr; reflexivity.
        * intro Hn; rewrite (He Hn); reflexivity.
      + split; [exists ks; reflexivity | discriminate].
  Qed.

  (** A call that raises ends the loop: the calls made are the keys before
      it, run from [d] without error, and the raising one; the final state is
      the one before the raising call (its transaction is rolled back). *)
Lemma populate_loop_error ks d d' cs e :
    populate_loop (Some mk) ks d = (d', cs, Some e) ->
    exists done k rest, ks = done ++ k :: rest /\ cs = done ++ [k]
      /\ populate_loop (Some mk) done d = (d', done, None) /\ snd (mk k d') = Err e.
  Proof.
    revert d cs; induction ks as [| k ks IH]; intros d cs H; cbn in H; [discriminate |].
    destruct (snd (mk k d)) as [[u d1] | e1] eqn:Hk.
    - destruct (populate_loop (Some mk) ks d1) as [[d2 cs2] e2] eqn:Hl.
      injection H as -> <- ->.
      destruct (IH d1 cs2 Hl) as (done & k' & rest & -> & -> & Hd & He).
      exists (k :: done), k', rest; split; [reflexivity |]; split; [reflexivity |].
      split; [cbn; rewrite Hk, Hd; reflexivity | exact He].
    - injection H as -> <- ->.
      exists [], k, ks; split; [reflexivity |]; split; [reflexivity |].
      split; [reflexivity | exact Hk].
  Qed.

  (** An invariant of successful calls holds after a loop without error. *)
Lemma populate_loop_inv (Inv : db -> Prop) :
    (forall k d u d', Inv d -> snd (mk k d) = Ok (u, d') -> Inv d') ->
    forall ks d d' cs, Inv d -> populate_loop (Some mk) ks d = (d', cs, None) -> Inv d'.
  Proof.
    intros Hi ks; induction ks as [| k ks IH]; intros d d' cs Hd H; cbn in H.
    - injection H as <- _; exact Hd.
    - destruct (snd (mk k d)) as [[u d1] | e1] eqn:Hk; [| discriminate].
      destruct (populate_loop (Some mk) ks d1) as [[d2 cs2] e2] eqn:Hl.
      injection H as -> _ ->; exact (IH d1 _ cs2 (Hi _ _ _ _ Hd Hk) Hl).
  Qed.

  (** Keys the loop never passes to [make] keep their presence, when a
      successful call changes the presence of its own key only. *)
Lemma populate_loop_frame :
    (forall k d u d', snd (mk k d) = Ok (u, d') -> forall k', k' <> k -> present d' k' = present d k') ->
    forall ks d d' cs, populate_loop (Some mk) ks d = (d', cs, None) ->
    forall k, ~ In k ks -> present d' k = present d k.
  Proof.
    intros Hf ks; induction ks as [| k ks IH]; intros d d' cs H k' Hn; cbn in H.
    - injection H as <- _; reflexivity.
    - destruct (snd (mk k d)) as [[u d1] | e1] eqn:Hk; [| discriminate].
      destruct (populate_loop (Some mk) ks d1) as [[d2 cs2] e2] eqn:Hl.
      injection H as -> _ ->.
      rewrite (IH d1 _ cs2 Hl k' (fun Hi => Hn (or_intror Hi))).
      apply (Hf _ _ _ _ Hk); intro He; apply Hn; left; symmetry; exact He.
  Qed.

  (** What a successful [make] does to the driver's view of the table. *)
Hypothesis mk_present : forall k d u d', snd (mk k d) = Ok (u, d') -> present d' k = true.
Hypothesis mk_source : forall k d u d', snd (mk k d) = Ok (u, d') -> key_source d' = key_source d.
Hypothesis mk_mono : forall k d u d', snd (mk k d) = Ok (u, d') ->
    forall k', present d k' = true -> present d' k' = true.

Lemma populate_loop_done ks d d' cs :
    populate_loop (Some mk) ks d = (d', cs, None) ->
    key_source d' = key_source d /\ (forall k, In k ks -> present d' k = true)
    /\ (forall k, present d k = true -> present d' k = true).
  Proof.
    revert d cs; induction ks as [| k ks IH]; intros d cs H; cbn in H.
    - inversion H; subst; split; [reflexivity | split; [intros k [] | auto]].
    - destruct (snd (mk k d)) as [[u d1] | e] eqn:Hk; [| discriminate].
      destruct (populate_loop (Some mk) ks d1) as [[d2 cs2] e2] eqn:Hl.
      inversion H; subst.
      destruct (IH d1 cs2 Hl) as (Hs & Hin & Hm).
      split; [rewrite Hs; eapply mk_source; eauto |].
      split.
      + intros k' [<- | Hk']; [apply Hm; eapply mk_present; eauto | auto].
      + intros k' Hp; apply Hm; eapply mk_mono; eauto.
  Qed.

Lemma populate_idempotent d d' cs :
    populate key_source present (Some mk) d = (d', cs, None) ->
    populate key_source present (Some mk) d' = (d', [], None).
  Proof.
    unfold populate; intro H.
    destruct (populate_loop_done _ _ _ _ H) as (Hs & Hin & Hm).
    assert (Hnil : missing key_source present d' = []).
    { unfold missing; rewrite Hs.
      apply filter_all_false; intros k Hk.
      destruct (present d k) eqn:Hp.
      - rewrite (Hm k Hp); reflexivity.
      - rewrite Hin; [reflexivity |]. unfold missing; apply filter_In; rewrite Hp; auto. }
    rewrite Hnil; reflexivity.
  Qed.

Lemma populate_calls d :
    NoDup (key_source d) ->
    let '(d', cs, e) := populate key_source present (Some mk) d in
    NoDup cs
    /\ (forall k, In k cs -> present d k = false)
    /\ (exists rest, missing key_source present d = cs ++ rest)
    /\ (e = None -> cs = missing key_source present d
                   /\ populate key_source present (Some mk) d' = (d', [], None))
    /\ (forall err, e = Some err ->
          exists done k, cs = done ++ [k]
            /\ populate_loop (Some mk) done d = (d', done, None) /\ snd (mk k d') = Err err).
  Proof.
    intro Hnd.
    pose proof (populate_loop_prefix (missing key_source present d) d) as Hp.
    destruct (populate key_source present (Some mk) d) as [[d' cs] e] eqn:Hpop.
    unfold populate in Hpop; rewrite Hpop in Hp.
    destruct Hp as [[rest Hr] He].
    assert (Hndm : NoDup (missing key_source present d)) by (apply NoDup_filter; exact Hnd).
    split; [rewrite Hr in Hndm; eapply NoDup_app_remove_r; exact Hndm |].
    split.
    { intros k Hk. assert (Hm : In k (missing key_source present d))
        by (rewrite Hr; apply in_or_app; left; exact Hk).
      apply filter_In in Hm; destruct Hm as [_ Hm]; destruct (present d k); auto. }
    split; [exists rest; exact Hr |].
    split.
    { intro Hn; subst e; split; [apply He; reflexivity |].
      eapply populate_idempotent; unfold populate; exact Hpop. }
    intros err ->.
    destruct (populate_loop_error _ _ _ _ _ Hpop) as (done & k & rest' & _ & Hc & Hd & Hk).
    exists done, k; auto.
  Qed.
End PopulateFacts.

(** ** [AverageFrame.make] *)

Lemma AverageFrame_make_ok fs key d u d' :
  snd (AverageFrame_make fs key d) = Ok (u, d') ->
  exists se sc im,
    filter (session_of key) (Session d) = [se] /\ filter (scan_of key) (Scan d) = [sc]
    /\ fs (path_join (data_path se) (file_name sc)) = Some im
    /\ has_AverageFrame d key = false /\ has_Scan d key = true
    /\ d' = set_AverageFrame d (AverageFrame d ++ [mkAverageFrameRow key (np_mean_axis0 im)]).
Proof.
  unfold AverageFrame_make, fetch1, load, insert1, update, print, bind; intro H; simpl in H.
  destruct (filter (session_of key) (Session d)) as [| se [| ? ?]] eqn:E1; simpl in H;
    try discriminate.
  destruct (filter (scan_of key) (Scan d)) as [| sc [| ? ?]] eqn:E2; simpl in H; try discriminate.
  destruct (fs _) as [im |] eqn:E3; simpl in H; try discriminate.
  unfold ins_AverageFrame, guard in H; cbn [af_key] in H.
  destruct (has_AverageFrame d key) eqn:E4; simpl in H; try discriminate.
  destruct (has_Scan d key) eqn:E5; simpl in H; try discriminate.
  inversion H; subst. exists se, sc, im; repeat split; auto.
Qed.

Lemma has_AverageFrame_app d rs k :
  has_AverageFrame (set_AverageFrame d (AverageFrame d ++ rs)) k
  = has_AverageFrame d k || existsb (fun r => ScanKey_eqb (af_key r) k) rs.
Proof. unfold has_AverageFrame; cbn; apply existsb_app. Qed.

Lemma AverageFrame_make_present fs k d u d' :
  snd (AverageFrame_make fs k d) = Ok (u, d') -> has_AverageFrame d' k = true.
Proof.
  intro H; destruct (AverageFrame_make_ok _ _ _ _ _ H) as (se & sc & im & _ & _ & _ & _ & _ & ->).
  rewrite has_AverageFrame_app; cbn; rewrite ScanKey_eqb_refl, orb_true_r; reflexivity.
Qed.

Lemma AverageFrame_make_source fs k d u d' :
  snd (AverageFrame_make fs k d) = Ok (u, d') -> AverageFrame_key_source d' = AverageFrame_key_source d.
Proof.
  intro H; destruct (AverageFrame_make_ok _ _ _ _ _ H) as (se & sc & im & _ & _ & _ & _ & _ & ->).
  reflexivity.
Qed.

Lemma AverageFrame_make_mono fs k d u d' :
  snd (AverageFrame_make fs k d) = Ok (u, d') ->
  forall k', has_AverageFrame d k' = true -> has_AverageFrame d' k' = true.
Proof.
  intro H; destruct (AverageFrame_make_ok _ _ _ _ _ H) as (se & sc & im & _ & _ & _ & _ & _ & ->).
  intros k' Hk; rewrite has_AverageFrame_app, Hk; reflexivity.
Qed.

(** C1 (amended). [AverageFrame.populate] invokes [make] on the keys of
    [Scan] missing from [AverageFrame], in order, at most once each and
    never on a key already present, until a call raises: the calls made are
    a prefix of the missing keys, and they are all of them when no call
    raised. When a call raises, it is the last call; the final state is the
    state reached by the calls before it (the raising call is rolled back),
    and [make] raises that error from it. After a populate that raised
    nothing, a second [populate] invokes [make] zero times and changes
    nothing. *)
Theorem AverageFrame_populate_calls fs d :
  NoDup (AverageFrame_key_source d) ->
  let '(d', calls, err) := AverageFrame_populate (Some (AverageFrame_make fs)) d in
  NoDup calls
  /\ (forall k, In k calls -> has_AverageFrame d k = false)
  /\ (exists rest, missing AverageFrame_key_source has_AverageFrame d = calls ++ rest)
  /\ (err = None ->
      calls = missing AverageFrame_key_source has_AverageFrame d
      /\ AverageFrame_populate (Some (AverageFrame_make fs)) d' = (d', [], None))
  /\ (forall e, err = Some e ->
      exists done k, calls = done ++ [k]
        /\ populate_loop (Some (AverageFrame_make fs)) done d = (d', done, None)
        /\ snd (AverageFrame_make fs k d') = Err e).
Proof.
  apply populate_calls.
  - apply AverageFrame_make_present.
  - apply AverageFrame_make_source.
  - apply AverageFrame_make_mono.
Qed.

(** C1 counterexample: with [example_scan_01.tif] missing from the data
    folder, [make] raises on the first Scan key and [populate] stops there;
    the second missing key is never passed to [make]. *)
Lemma AverageFrame_populate_stops_at_error :
  In key_b (missing AverageFrame_key_source has_AverageFrame db_scans)
  /\ ~ In key_b (snd (fst (AverageFrame_populate (Some (AverageFrame_make fs_only_02)) db_scans))).
Proof.
  vm_compute. split; [right; left; reflexivity |].
  intros [H | []]; discriminate H.
Qed.

(** Witness of C1: with [example_scan_01.tif] missing, [populate] raises on
    the first Scan key and returns the state it started from. *)
Lemma AverageFrame_populate_calls_witness :
  NoDup (AverageFrame_key_source db_scans)
  /\ AverageFrame_populate (Some (AverageFrame_make fs_only_02)) db_scans
     = (db_scans, [key_a], Some (FileNotFoundError "/data/example_scan_01.tif"))
  /\ (let '(d', calls, err) := AverageFrame_populate (Some (AverageFrame_make fs_only_02)) db_scans in
      NoDup calls
      /\ (forall k, In k calls -> has_AverageFrame db_scans k = false)
      /\ (exists rest, missing AverageFrame_key_source has_AverageFrame db_scans = calls ++ rest)
      /\ (err = None ->
          calls = missing AverageFrame_key_source has_AverageFrame db_scans
          /\ AverageFrame_populate (Some (AverageFrame_make fs_only_02)) d' = (d', [], None))
      /\ (forall e, err = Some e ->
          exists done k, calls = done ++ [k]
            /\ populate_loop (Some (AverageFrame_make fs_only_02)) done db_scans = (d', done, None)
            /\ snd (AverageFrame_make fs_only_02 k d') = Err e)).
Proof.
  assert (H : NoDup (AverageFrame_key_source db_scans)).
  { vm_compute. constructor; [intros [H | []]; discriminate H | constructor; [intros [] | constructor]]. }
  split; [exact H |]; split; [vm_compute; reflexivity |].
  exact (AverageFrame_populate_calls fs_only_02 db_scans H).
Defined.

(** ** [Segmentation.make] *)

Lemma Segmentation_make_ok key d u d' :
  snd (Segmentation_make key d) = Ok (u, d') ->
  exists af sp L labels d1,
    filter (fun r => ScanKey_eqb (af_key r) (sg_scan key)) (AverageFrame d) = [af]
    /\ filter (fun r => Z.eqb (sp_id r) (seg_param_id key)) (SegmentationParam d) = [sp]
    /\ segment (average_frame af) (threshold sp) (size_cutoff sp) = Some (L, labels)
    /\ ins_Segmentation (mkSegmentationRow key L) d = Ok d1
    /\ ins_all ins_Roi (rois_of key L labels) d1 = Ok d'.
Proof.
  unfold Segmentation_make, fetch1, insert1, insert, update, print, raise, bind; intro H;
    simpl in H.
  destruct (filter _ (AverageFrame d)) as [| af [| ? ?]] eqn:E1; simpl in H; try discriminate.
  destruct (filter _ (SegmentationParam d)) as [| sp [| ? ?]] eqn:E2; simpl in H;
    try discriminate.
  destruct (segment (average_frame af) (threshold sp) (size_cutoff sp)) as [[L labels] |] eqn:E3;
    simpl in H; try discriminate.
  destruct (ins_Segmentation _ d) as [d1 |] eqn:E4; simpl in H; try discriminate.
  destruct (ins_all ins_Roi _ d1) as [d2 |] eqn:E5; simpl in H; try discriminate.
  inversion H; subst; exists af, sp, L, labels, d1; repeat split; auto.
Qed.

Lemma ins_Segmentation_ok r d d' :
  ins_Segmentation r d = Ok d' ->
  has_Segmentation d (sg_key r) = false
  /\ has_AverageFrame d (sg_scan (sg_key r)) = true
  /\ has_SegmentationParam d (seg_param_id (sg_key r)) = true
  /\ d' = set_Segmentation d (Segmentation d ++ [r]).
Proof.
  unfold ins_Segmentation, guard.
  destruct (has_Segmentation d (sg_key r)); cbn; [discriminate |].
  destruct (has_AverageFrame d _), (has_SegmentationParam d _); cbn; try discriminate.
  intro H; inversion H; auto.
Qed.

Lemma ins_Roi_ok r d d' :
  ins_Roi r d = Ok d' ->
  has_Roi d (ro_key r) = false /\ has_Segmentation d (ro_seg (ro_key r)) = true
  /\ d' = set_Roi d (Roi d ++ [r]).
Proof.
  unfold ins_Roi, guard.
  destruct (has_Roi d (ro_key r)); cbn; [discriminate |].
  destruct (has_Segmentation d _); cbn; try discriminate.
  intro H; inversion H; auto.
Qed.

Lemma ins_all_Roi_ok rs d d' :
  ins_all ins_Roi rs d = Ok d' -> d' = set_Roi d (Roi d ++ rs).
Proof.
  revert d; induction rs as [| r rs IH]; intros d H; cbn in H.
  - injection H as <-; destruct d; cbn; rewrite app_nil_r; reflexivity.
  - destruct (ins_Roi r d) as [d1 |] eqn:E; [| discriminate].
    apply ins_Roi_ok in E; destruct E as (_ & _ & ->).
    rewrite (IH _ H); cbn; rewrite <- app_assoc; reflexivity.
Qed.

Lemma Segmentation_make_state key d u d' :
  snd (Segmentation_make key d) = Ok (u, d') ->
  exists L rs,
    d' = set_Roi (set_Segmentation d (Segmentation d ++ [mkSegmentationRow key L])) (Roi d ++ rs).
Proof.
  intro H; destruct (Segmentation_make_ok _ _ _ _ H) as (af & sp & L & labels & d1 & _ & _ & _ & H4 & H5).
  apply ins_Segmentation_ok in H4; destruct H4 as (_ & _ & _ & ->).
  apply ins_all_Roi_ok in H5; subst d'.
  exists L, (rois_of key L labels); reflexivity.
Qed.

Lemma Segmentation_make_present k d u d' :
  snd (Segmentation_make k d) = Ok (u, d') -> has_Segmentation d' k = true.
Proof.
  intro H; destruct (Segmentation_make_state _ _ _ _ H) as (L & rs & ->).
  unfold has_Segmentation; cbn; rewrite existsb_app; cbn.
  rewrite SegKey_eqb_refl, orb_true_r; reflexivity.
Qed.

Lemma Segmentation_make_source k d u d' :
  snd (Segmentation_make k d) = Ok (u, d') ->
  Segmentation_key_source d' = Segmentation_key_source d.
Proof. intro H; destruct (Segmentation_make_state _ _ _ _ H) as (L & rs & ->); reflexivity. Qed.

Lemma Segmentation_make_mono k d u d' :
  snd (Segmentation_make k d) = Ok (u, d') ->
  forall k', has_Segmentation d k' = true -> has_Segmentation d' k' = true.
Proof.
  intro H; destruct (Segmentation_make_state _ _ _ _ H) as (L & rs & ->).
  intros k' Hk; unfold has_Segmentation in *; cbn; rewrite existsb_app, Hk; reflexivity.
Qed.

(** ** [populate] without [make] *)

Lemma populate_loop_print ks d :
  populate_loop (Some AverageFrame_make_print) ks d = (d, ks, None).
Proof.
  induction ks as [| k ks IH]; cbn; [reflexivity | rewrite IH; reflexivity].
Qed.

(** C3 (amended). On a table whose class defines no [make], [populate]
    leaves every table unchanged; it raises [NotImplementedError] exactly
    when some key of the parent is missing from the table, and otherwise
    invokes nothing and succeeds. With the notebook's first [make] (which
    only prints its key), the same call invokes [make] on every missing key,
    raises nothing and changes no table. *)
Theorem AverageFrame_populate_without_make d :
  AverageFrame_populate None d
  = (d, [], match missing AverageFrame_key_source has_AverageFrame d with
            | [] => None
            | _ :: _ => Some NotImplementedError
            end)
  /\ AverageFrame_populate (Some AverageFrame_make_print) d
     = (d, missing AverageFrame_key_source has_AverageFrame d, None).
Proof.
  unfold AverageFrame_populate, populate; split.
  - destruct (missing AverageFrame_key_source has_AverageFrame d); reflexivity.
  - apply populate_loop_print.
Qed.

(** C3 counterexample: with no Scan rows there is nothing to populate, and
    [populate] without [make] succeeds. *)
Lemma AverageFrame_populate_without_make_succeeds :
  snd (AverageFrame_populate None (mkdb [] [] [] [] [] [] [] [] [])) = None.
Proof. reflexivity. Qed.

(** ** Key lookups under deletion and growth *)

Section KeyLookup.
Context {R K : Type} (eqb : K -> K -> bool) (key : R -> K).
Hypothesis eqb_eq : forall a b, eqb a b = true <-> a = b.

Lemma existsb_key_filter (P : K -> bool) l k :
    existsb (fun r => eqb (key r) k) (filter (fun r => negb (P (key r))) l)
    = existsb (fun r => eqb (key r) k) l && negb (P k).
  Proof.
    induction l as [| r l IH]; cbn; [reflexivity |].
    destruct (eqb (key r) k) eqn:E.
    - apply eqb_eq in E; rewrite E; destruct (P k); cbn; [rewrite IH; apply andb_false_r | rewrite E, (proj2 (eqb_eq k k) eq_refl); reflexivity].
    - destruct (P (key r)); cbn; [exact IH | rewrite E; exact IH].
  Qed.
End KeyLookup.

Lemma existsb_incl {A} (f : A -> bool) l l' :
  incl l l' -> existsb f l = true -> existsb f l' = true.
Proof.
  intros Hi H; apply existsb_exists in H; destruct H as (x & Hx & Hf).
  apply existsb_exists; exists x; split; [apply Hi; exact Hx | exact Hf].
Qed.

Lemma Z_existsb_filter (P : Z -> bool) l k :
  existsb (Z.eqb k) (filter (fun x => negb (P x)) l) = existsb (Z.eqb k) l && negb (P k).
Proof.
  induction l as [| x l IH]; cbn; [reflexivity |].
  destruct (Z.eqb k x) eqn:E.
  - apply Z.eqb_eq in E; subst x; destruct (P k); cbn; [rewrite IH; apply andb_false_r | rewrite Z.eqb_refl; reflexivity].
  - destruct (P x); cbn; [exact IH | rewrite E; exact IH].
Qed.

Section CascadeLookup.
Variables (PM : Z -> bool) (PSe : SessionKey -> bool) (PSc PA : ScanKey -> bool)
            (PP : Z -> bool) (PG : SegKey -> bool) (d : db).
Let d' := cascade PM PSe PSc PA PP PG d.

Lemma has_Mouse_cascade k : has_Mouse d' k = has_Mouse d k && negb (PM k).
  Proof. apply Z_existsb_filter. Qed.
Lemma has_Session_cascade k : has_Session d' k = has_Session d k && negb (PSe k).
  Proof. exact (existsb_key_filter _ se_key SessionKey_eqb_eq PSe _ k). Qed.
Lemma has_Scan_cascade k : has_Scan d' k = has_Scan d k && negb (PSc k).
  Proof. exact (existsb_key_filter _ sc_key ScanKey_eqb_eq PSc _ k). Qed.
Lemma has_AverageFrame_cascade k : has_AverageFrame d' k = has_AverageFrame d k && negb (PA k).
  Proof. exact (existsb_key_filter _ af_key ScanKey_eqb_eq PA _ k). Qed.
Lemma has_SegmentationParam_cascade k :
    has_SegmentationParam d' k = has_SegmentationParam d k && negb (PP k).
  Proof. exact (existsb_key_filter _ sp_id Z.eqb_eq PP _ k). Qed.
Lemma has_Segmentation_cascade k :
    has_Segmentation d' k = has_Segmentation d k && negb (PG k).
  Proof. exact (existsb_key_filter _ sg_key SegKey_eqb_eq PG _ k). Qed.
Lemma has_Roi_cascade k : has_Roi d' k = has_Roi d k && negb (PG (ro_seg k)).
  Proof. exact (existsb_key_filter _ ro_key RoiKey_eqb_eq (fun k => PG (ro_seg k)) _ k). Qed.
Lemma has_Fluorescence_cascade k :
    has_Fluorescence d' k = has_Fluorescence d k && negb (PG k).
  Proof. exact (existsb_key_filter _ fl_key SegKey_eqb_eq PG _ k). Qed.
End CascadeLookup.

Ltac split_integrity H :=
  unfold integrity, integrity_b in H; repeat rewrite andb_true_iff in H;
  let H1 := fresh "H" in let H2 := fresh "H" in let H3 := fresh "H" in
  let H4 := fresh "H" in let H5 := fresh "H" in let H6 := fresh "H" in
  let H7 := fresh "H" in
  destruct H as ((((((H1 & H2) & H3) & H4) & H5) & H6) & H7);
  rewrite forallb_forall in H1, H2, H3, H4, H5, H6, H7.

Lemma negb_false_contra (b c : bool) : (b = true -> c = true) -> negb c = true -> negb b = true.
Proof. destruct b, c; cbn; auto. Qed.

Lemma integrity_cascade PM PSe PSc PA PP PG d :
  (forall k, PM (mouse_id k) = true -> PSe k = true) ->
  (forall k, PSe (sc_session k) = true -> PSc k = true) ->
  (forall k, PSc k = true -> PA k = true) ->
  (forall k, PA (sg_scan k) = true -> PG k = true) ->
  (forall k, PP (seg_param_id k) = true -> PG k = true) ->
  integrity d -> integrity (cascade PM PSe PSc PA PP PG d).
Proof.
  intros c1 c2 c3 c4 c5 H; split_integrity H.
  unfold integrity, integrity_b; repeat rewrite andb_true_iff; repeat split;
    apply forallb_forall; intros r Hr; cbn [Session Scan AverageFrame Segmentation Roi
    Fluorescence Trace cascade] in Hr; apply filter_In in Hr; destruct Hr as [Hr HP];
    unfold fk_Session, fk_Scan, fk_AverageFrame, fk_Segmentation, fk_Roi, fk_Fluorescence,
      fk_Trace in *.
  - rewrite has_Mouse_cascade, (H0 r Hr); cbn.
    exact (negb_false_contra _ _ (c1 _) HP).
  - rewrite has_Session_cascade, (H1 r Hr); cbn.
    exact (negb_false_contra _ _ (c2 _) HP).
  - rewrite has_Scan_cascade, (H2 r Hr); cbn.
    exact (negb_false_contra _ _ (c3 _) HP).
  - specialize (H3 r Hr); apply andb_true_iff in H3.
    rewrite has_AverageFrame_cascade, has_SegmentationParam_cascade, (proj1 H3), (proj2 H3);
      cbn.
    rewrite (negb_false_contra _ _ (c4 _) HP), (negb_false_contra _ _ (c5 _) HP); reflexivity.
  - rewrite has_Segmentation_cascade, (H4 r Hr); exact HP.
  - rewrite has_Segmentation_cascade, (H5 r Hr); exact HP.
  - specialize (H6 r Hr); apply andb_true_iff in H6.
    rewrite has_Fluorescence_cascade, has_Roi_cascade, (proj1 H6), (proj2 H6); cbn.
    rewrite HP; reflexivity.
Qed.

(** ** Growth: inserting rows keeps every reference valid *)

Ltac db_incl_parts H :=
  let a := fresh in let b := fresh in let c := fresh in let e := fresh in
  let f := fresh in let g := fresh in let h := fresh in let i := fresh in
  let j := fresh in destruct H as (a & b & c & e & f & g & h & i & j).

Lemma fk_mono d d' :
  db_incl d d' ->
  (forall r, fk_Session d r = true -> fk_Session d' r = true)
  /\ (forall r, fk_Scan d r = true -> fk_Scan d' r = true)
  /\ (forall r, fk_AverageFrame d r = true -> fk_AverageFrame d' r = true)
  /\ (forall r, fk_Segmentation d r = true -> fk_Segmentation d' r = true)
  /\ (forall r, fk_Roi d r = true -> fk_Roi d' r = true)
  /\ (forall r, fk_Fluorescence d r = true -> fk_Fluorescence d' r = true)
  /\ (forall r, fk_Trace d r = true -> fk_Trace d' r = true).
Proof.
  intros (Hm & Hse & Hsc & Ha & Hp & Hg & Hr & Hf & Ht).
  unfold fk_Session, fk_Scan, fk_AverageFrame, fk_Segmentation, fk_Roi, fk_Fluorescence,
    fk_Trace, has_Mouse, has_Session, has_Scan, has_AverageFrame, has_SegmentationParam,
    has_Segmentation, has_Roi, has_Fluorescence.
  repeat split; intro r; repeat rewrite andb_true_iff;
    first [ intros [H1 H2]; split; eapply existsb_incl; eauto
          | intro H; eapply existsb_incl; eauto ].
Qed.

Lemma integrity_grow d d' :
  integrity d -> db_incl d d' ->
  (forall r, In r (Session d') -> In r (Session d) \/ fk_Session d r = true) ->
  (forall r, In r (Scan d') -> In r (Scan d) \/ fk_Scan d r = true) ->
  (forall r, In r (AverageFrame d') -> In r (AverageFrame d) \/ fk_AverageFrame d r = true) ->
  (forall r, In r (Segmentation d') -> In r (Segmentation d) \/ fk_Segmentation d r = true) ->
  (forall r, In r (Roi d') -> In r (Roi d) \/ fk_Roi d r = true) ->
  (forall r, In r (Fluorescence d') -> In r (Fluorescence d) \/ fk_Fluorescence d r = true) ->
  (forall r, In r (Trace d') -> In r (Trace d) \/ fk_Trace d r = true) ->
  integrity d'.
Proof.
  intros H Hi e1 e2 e3 e4 e5 e6 e7; split_integrity H.
  destruct (fk_mono d d' Hi) as (m1 & m2 & m3 & m4 & m5 & m6 & m7).
  unfold integrity, integrity_b; repeat rewrite andb_true_iff; repeat split;
    apply forallb_forall; intros r Hr.
  - destruct (e1 r Hr); auto.
  - destruct (e2 r Hr); auto.
  - destruct (e3 r Hr); auto.
  - destruct (e4 r Hr); auto.
  - destruct (e5 r Hr); auto.
  - destruct (e6 r Hr); auto.
  - destruct (e7 r Hr); auto.
Qed.

Lemma in_snoc {A} (x r : A) l : In x (l ++ [r]) -> In x l \/ x = r.
Proof. intro H; apply in_app_or in H; destruct H as [H | [H | []]]; auto. Qed.

Ltac grow_tac :=
  match goal with
  | [ Hd : integrity ?d |- integrity _ ] =>
      apply (integrity_grow d); [exact Hd | repeat split; cbn; auto using incl_refl, incl_appl |..];
      cbn; intros ?x ?Hx; auto;
      try (apply in_snoc in Hx; destruct Hx as [?Hx | ?Hx]; [left; exact Hx | subst; right])
  end.

Lemma ins_integrity :
  (forall r d d', integrity d -> ins_Mouse r d = Ok d' -> integrity d')
  /\ (forall r d d', integrity d -> ins_Session r d = Ok d' -> integrity d')
  /\ (forall r d d', integrity d -> ins_Scan r d = Ok d' -> integrity d')
  /\ (forall r d d', integrity d -> ins_AverageFrame r d = Ok d' -> integrity d')
  /\ (forall r d d', integrity d -> ins_SegmentationParam r d = Ok d' -> integrity d')
  /\ (forall r d d', integrity d -> ins_Segmentation r d = Ok d' -> integrity d')
  /\ (forall r d d', integrity d -> ins_Roi r d = Ok d' -> integrity d')
  /\ (forall r d d', integrity d -> ins_Fluorescence r d = Ok d' -> integrity d')
  /\ (forall r d d', integrity d -> ins_Trace r d = Ok d' -> integrity d').
Proof.
  unfold ins_Mouse, ins_Session, ins_Scan, ins_AverageFrame, ins_SegmentationParam,
    ins_Segmentation, ins_Roi, ins_Fluorescence, ins_Trace, guard.
  repeat split; intros r d d' Hd H;
    repeat match type of H with
           | context [if ?b then _ else _] => destruct b eqn:?; try discriminate H
           end;
    injection H as <-; grow_tac;
    unfold fk_Session, fk_Scan, fk_AverageFrame, fk_Segmentation, fk_Roi, fk_Fluorescence,
      fk_Trace; auto; try (apply andb_true_iff; split; assumption).
Qed.

(** ** Invariants of computations *)

Section Preserves.
Context {S : Type} (I : S -> Prop).

Lemma steps_app (l1 l2 : list (event S)) : steps (l1 ++ l2) = steps l1 ++ steps l2.
  Proof. unfold steps; apply flat_map_app. Qed.

Lemma pres_ret {A} (a : A) : preserves I (ret a).
  Proof. intros s Hs; cbn; auto. Qed.
Lemma pres_gets {A} (f : S -> A) : preserves I (gets f).
  Proof. intros s Hs; cbn; auto. Qed.
Lemma pres_raise {A} e : preserves I (@raise S A e).
  Proof. intros s Hs; cbn; auto. Qed.
Lemma pres_print m : preserves I (@print S m).
  Proof. intros s Hs; cbn; auto. Qed.
Lemma pres_load {X} (fs : string -> option X) p : preserves I (load fs p).
  Proof. intros s Hs; cbn; split; [constructor | destruct (fs p); auto]. Qed.
Lemma pres_fetch1 {R} (tbl : S -> list R) p : preserves I (fetch1 tbl p).
  Proof. intros s Hs; unfold fetch1; destruct (filter p (tbl s)) as [| ? [|]]; cbn; auto. Qed.
Lemma pres_fetch {R} (tbl : S -> list R) p : preserves I (fetch tbl p).
  Proof. apply pres_gets. Qed.

Lemma pres_update (f : S -> outcome S) :
    (forall s s', I s -> f s = Ok s' -> I s') -> preserves I (update f).
  Proof.
    intros Hf s Hs; unfold update; destruct (f s) eqn:E; cbn; auto.
    split; [constructor; [eapply Hf; eauto | constructor] | eapply Hf; eauto].
  Qed.

Lemma pres_bind {A B} (m : M S A) (f : A -> M S B) :
    preserves I m -> (forall a, preserves I (f a)) -> preserves I (bind m f).
  Proof.
    intros Hm Hf s Hs; unfold bind.
    destruct (Hm s Hs) as [H1 H2].
    destruct (m s) as [l1 [[a s1] | e]]; cbn [fst snd] in *; [| auto].
    destruct (Hf a s1 H2) as [H3 H4].
    destruct (f a s1) as [l2 r]; cbn [fst snd] in *.
    rewrite steps_app; split; [apply Forall_app; auto | exact H4].
  Qed.

Lemma pres_mapM {A B} (f : A -> M S B) l :
    (forall x, In x l -> preserves I (f x)) -> preserves I (mapM f l).
  Proof.
    induction l as [| x l IH]; intro Hf; cbn; [apply pres_ret |].
    apply pres_bind; [apply Hf; left; reflexivity | intro y].
    apply pres_bind; [apply IH; intros; apply Hf; right; assumption | intro; apply pres_ret].
  Qed.

Lemma pres_mapM_ {A} (f : A -> M S unit) l :
    (forall x, In x l -> preserves I (f x)) -> preserves I (mapM_ f l).
  Proof.
    induction l as [| x l IH]; intro Hf; cbn; [apply pres_ret |].
    apply pres_bind; [apply Hf; left; reflexivity | intro; apply IH; intros; apply Hf; right; auto].
  Qed.

Lemma ins_all_pres {R} (ins : R -> S -> outcome S) :
    (forall r s s', I s -> ins r s = Ok s' -> I s') ->
    forall rs s s', I s -> ins_all ins rs s = Ok s' -> I s'.
  Proof.
    intros Hins rs; induction rs as [| r rs IH]; intros s s' Hs H; cbn in H.
    - injection H as <-; exact Hs.
    - destruct (ins r s) eqn:E; [eapply IH; [eapply Hins; eauto | exact H] | discriminate].
  Qed.

Lemma pres_insert1 {R} (ins : R -> S -> outcome S) r :
    (forall s s', I s -> ins r s = Ok s' -> I s') -> preserves I (insert1 ins r).
  Proof. intro H; apply pres_update; exact H. Qed.

Lemma pres_insert {R} (ins : R -> S -> outcome S) rs :
    (forall r s s', I s -> ins r s = Ok s' -> I s') -> preserves I (insert ins rs).
  Proof. intro H; apply pres_update; intros; eapply ins_all_pres; eauto. Qed.

Lemma state_after_pres (m : M S unit) s :
    preserves I m -> I s -> I (state_after m s).
  Proof.
    intros Hm Hs; unfold state_after; destruct (Hm s Hs) as [_ H].
    destruct (snd (m s)) as [[[] s'] |]; auto.
  Qed.
End Preserves.

Create HintDb pres.
#[export] Hint Resolve pres_ret pres_gets pres_raise pres_print pres_load pres_fetch1
  pres_fetch : pres.

Ltac pres_tac :=
  repeat first
    [ apply pres_bind; [| intro]
    | apply pres_mapM; intros
    | apply pres_mapM_; intros
    | progress eauto with pres
    | match goal with |- preserves _ (match ?x with _ => _ end) => destruct x end
    | match goal with |- preserves _ (if ?x then _ else _) => destruct x end ].

Section MakePreserves.
Variable I : db -> Prop.
Hypothesis I_AverageFrame : forall r d d', I d -> ins_AverageFrame r d = Ok d' -> I d'.
Hypothesis I_Segmentation : forall r d d', I d -> ins_Segmentation r d = Ok d' -> I d'.
Hypothesis I_Roi : forall r d d', I d -> ins_Roi r d = Ok d' -> I d'.
Hypothesis I_Fluorescence : forall r d d', I d -> ins_Fluorescence r d = Ok d' -> I d'.
Hypothesis I_Trace : forall r d d', I d -> ins_Trace r d = Ok d' -> I d'.

Lemma AverageFrame_make_pres fs k : preserves I (AverageFrame_make fs k).
  Proof. unfold AverageFrame_make; pres_tac; apply pres_insert1; eauto. Qed.

Lemma Segmentation_make_pres k : preserves I (Segmentation_make k).
  Proof.
    unfold Segmentation_make; pres_tac; [apply pres_insert1 | apply pres_insert]; eauto.
  Qed.

Lemma Fluorescence_make_pres fs k : preserves I (Fluorescence_make fs k).
  Proof.
    unfold Fluorescence_make; pres_tac; [apply pres_insert1 | apply pres_insert]; eauto.
  Qed.
End MakePreserves.

Lemma populate_loop_pres {K} (I : db -> Prop) (mk : option (K -> M db unit)) :
  (forall mk' k, mk = Some mk' -> preserves I (mk' k)) ->
  forall ks d, I d -> I (fst (fst (populate_loop mk ks d))).
Proof.
  intros Hmk ks; induction ks as [| k ks IH]; intros d Hd; cbn; [exact Hd |].
  destruct mk as [mk' |]; [| exact Hd].
  destruct (Hmk mk' k eq_refl d Hd) as [_ H].
  destruct (snd (mk' k d)) as [[u d'] | e]; [| exact Hd].
  specialize (IH d' H); destruct (populate_loop _ ks d') as [[d2 cs] e]; exact IH.
Qed.

Lemma part_master_grow d d' :
  part_master d -> db_incl d d' ->
  (forall r, In r (Roi d') -> In r (Roi d) \/ fk_Roi d r = true) ->
  (forall r, In r (Trace d') -> In r (Trace d) \/ has_Fluorescence d (ro_seg (tr_key r)) = true) ->
  part_master d'.
Proof.
  intros H Hi e1 e2; unfold part_master, part_master_b in *; apply andb_true_iff in H.
  destruct H as [H1 H2]; rewrite forallb_forall in H1, H2.
  destruct (fk_mono d d' Hi) as (_ & _ & _ & _ & m5 & _).
  destruct Hi as (_ & _ & _ & _ & _ & _ & _ & Hf & _).
  apply andb_true_iff; split; apply forallb_forall; intros r Hr.
  - destruct (e1 r Hr); auto.
  - destruct (e2 r Hr) as [Hr' | Hr']; [specialize (H2 r Hr') |];
      unfold has_Fluorescence in *; eapply existsb_incl; eauto.
Qed.

Lemma ins_part_master :
  (forall r d d', part_master d -> ins_AverageFrame r d = Ok d' -> part_master d')
  /\ (forall r d d', part_master d -> ins_Segmentation r d = Ok d' -> part_master d')
  /\ (forall r d d', part_master d -> ins_Roi r d = Ok d' -> part_master d')
  /\ (forall r d d', part_master d -> ins_Fluorescence r d = Ok d' -> part_master d')
  /\ (forall r d d', part_master d -> ins_Trace r d = Ok d' -> part_master d').
Proof.
  unfold ins_AverageFrame, ins_Segmentation, ins_Roi, ins_Fluorescence, ins_Trace, guard.
  repeat split; intros r d d' Hd H;
    repeat match type of H with
           | context [if ?b then _ else _] => destruct b eqn:?; try discriminate H
           end;
    injection H as <-; apply (part_master_grow d); auto;
    try (repeat split; cbn; auto using incl_refl, incl_appl; fail);
    cbn; intros x Hx; auto;
    apply in_snoc in Hx; destruct Hx as [Hx | Hx]; auto; subst; right; auto.
  apply andb_true_iff in Heqb0; apply Heqb0.
Qed.

Lemma del_integrity d :
  integrity d ->
  (forall P, integrity (del_Mouse P d)) /\ (forall P, integrity (del_Session P d))
  /\ (forall P, integrity (del_Scan P d)) /\ (forall P, integrity (del_AverageFrame P d))
  /\ (forall P, integrity (del_SegmentationParam P d))
  /\ (forall P, integrity (del_Segmentation P d)).
Proof.
  intro H; repeat split; intro P; apply integrity_cascade; auto; discriminate.
Qed.

Lemma del_part_integrity d :
  integrity d ->
  (forall P, integrity (del_Fluorescence P d)) /\ (forall P, integrity (del_Roi P d))
  /\ (forall P, integrity (del_Trace P d)).
Proof.
  intro H; split_integrity H.
  repeat split; intro P;
    unfold integrity, integrity_b; repeat rewrite andb_true_iff; repeat split;
    apply forallb_forall; intros r Hr;
    cbn [del_Fluorescence del_Roi del_Trace set_Trace set_Fluorescence set_Roi Session Scan
      AverageFrame Segmentation Roi Fluorescence Trace] in Hr |- *;
    try (apply filter_In in Hr; destruct Hr as [Hr HP]);
    unfold fk_Session, fk_Scan, fk_AverageFrame, fk_Segmentation, fk_Roi, fk_Fluorescence,
      fk_Trace in *;
    unfold has_Mouse, has_Session, has_Scan, has_AverageFrame, has_SegmentationParam,
      has_Segmentation, has_Roi, has_Fluorescence in *;
    cbn [del_Fluorescence del_Roi del_Trace set_Trace set_Fluorescence set_Roi Mouse Session
      Scan AverageFrame SegmentationParam Segmentation Roi Fluorescence Trace]; auto.
  - specialize (H6 r Hr); apply andb_true_iff in H6; destruct H6 as [H6a H6b].
    rewrite (existsb_key_filter _ fl_key SegKey_eqb_eq P _ _), H6a, H6b, HP; reflexivity.
  - specialize (H6 r Hr); apply andb_true_iff in H6; destruct H6 as [H6a H6b].
    rewrite (existsb_key_filter _ ro_key RoiKey_eqb_eq P _ _), H6a, H6b, HP; reflexivity.
Qed.

Lemma filter_neq0 {R} (f : R -> Z) l r :
  In r (filter (fun x => negb (f x =? 0)) l) <-> In r l /\ f r <> 0.
Proof. rewrite filter_In, negb_true_iff, Z.eqb_neq; reflexivity. Qed.

(** C4. Modelled from the spec: [delete] belongs to the external DataJoint
    library. Once the prompt of [(SegmentationParam & 'seg_param_id = 0').delete()]
    is confirmed, the rows left in SegmentationParam, Segmentation,
    Segmentation.Roi, Fluorescence and Fluorescence.Trace are exactly the
    former rows whose [seg_param_id] is not 0; and every operation of the
    pipeline (an insert, a populate of AverageFrame, Segmentation or
    Fluorescence, a delete from any master table, confirmed or declined,
    and a delete from a part table, forced or refused) maps a state
    satisfying referential integrity to one satisfying it. *)
Theorem SegmentationParam_delete_cascade (fs : string -> option (list Img)) (d : db) :
  let d' := delete true (del_SegmentationParam (fun i => i =? 0)) d in
  (forall r, In r (SegmentationParam d') <-> In r (SegmentationParam d) /\ sp_id r <> 0)
  /\ (forall r, In r (Segmentation d') <->
                In r (Segmentation d) /\ seg_param_id (sg_key r) <> 0)
  /\ (forall r, In r (Roi d') <-> In r (Roi d) /\ seg_param_id (ro_seg (ro_key r)) <> 0)
  /\ (forall r, In r (Fluorescence d') <->
                In r (Fluorescence d) /\ seg_param_id (fl_key r) <> 0)
  /\ (forall r, In r (Trace d') <-> In r (Trace d) /\ seg_param_id (ro_seg (tr_key r)) <> 0)
  /\ (forall o, integrity d -> integrity (exec_op fs o d)).
Proof.
  cbn zeta; do 5 (split; [intro r; cbn [delete del_SegmentationParam cascade
    SegmentationParam Segmentation Roi Fluorescence Trace];
    first [ apply (filter_neq0 sp_id) | apply (filter_neq0 (fun x => seg_param_id (sg_key x)))
          | apply (filter_neq0 (fun x => seg_param_id (ro_seg (ro_key x))))
          | apply (filter_neq0 (fun x => seg_param_id (fl_key x)))
          | apply (filter_neq0 (fun x => seg_param_id (ro_seg (tr_key x)))) ] |]).
  intros o Hd.
  destruct (ins_integrity) as (i1 & i2 & i3 & i4 & i5 & i6 & i7 & i8 & i9).
  destruct (del_integrity d Hd) as (d1 & d2 & d3 & d4 & d5 & d6).
  destruct (del_part_integrity d Hd) as (d7 & d8 & d9).
  destruct o; cbn [exec_op];
    try (apply state_after_pres; [apply pres_insert; eauto | exact Hd]);
    try (destruct confirm; cbn; auto; fail);
    try (destruct force, confirm; cbn; auto; fail);
    unfold AverageFrame_populate, Segmentation_populate, Fluorescence_populate, populate;
    (apply populate_loop_pres; [intros mk k Hmk; injection Hmk as <- | exact Hd]);
    first [ apply AverageFrame_make_pres | apply Segmentation_make_pres
          | apply Fluorescence_make_pres ]; eauto.
Qed.

(** Witness of C4: after [Segmentation.make] and [Fluorescence.make] for
    [key_a] and parameter set 0, the example database holds one Roi and one
    Trace row of parameter set 0 and satisfies referential integrity; the
    confirmed delete of parameter set 0 removes them, and the state after
    it, and after a delete from Fluorescence, still satisfies integrity. *)
Lemma SegmentationParam_delete_cascade_witness :
  integrity db_fluor
  /\ length (Roi db_fluor) = 1%nat /\ length (Trace db_fluor) = 1%nat
  /\ Roi (delete true (del_SegmentationParam (fun i => i =? 0)) db_fluor) = []
  /\ Trace (delete true (del_SegmentationParam (fun i => i =? 0)) db_fluor) = []
  /\ integrity (exec_op fs_rois (DelSegmentationParam (fun i => i =? 0) true) db_fluor)
  /\ integrity (exec_op fs_rois (DelFluorescence (fun k => seg_param_id k =? 0) true) db_fluor).
Proof.
  assert (H : integrity db_fluor) by (vm_compute; reflexivity).
  destruct (SegmentationParam_delete_cascade fs_rois db_fluor) as (_ & _ & _ & _ & _ & Hi).
  split; [exact H |]; split; [vm_compute; reflexivity |]; split; [vm_compute; reflexivity |].
  split; [vm_compute; reflexivity |]; split; [vm_compute; reflexivity |].
  split; apply Hi; exact H.
Defined.

(** ** The order of the writes of [Segmentation.make] and [Fluorescence.make] *)

Lemma Segmentation_make_steps key d u d' :
  snd (Segmentation_make key d) = Ok (u, d') ->
  exists L d1, steps (fst (Segmentation_make key d)) = [d1; d']
               /\ ins_Segmentation (mkSegmentationRow key L) d = Ok d1.
Proof.
  unfold Segmentation_make, fetch1, insert1, insert, update, print, raise, bind; intro H;
    simpl in H |- *.
  destruct (filter _ (AverageFrame d)) as [| af [| ? ?]] eqn:E1; simpl in H |- *;
    try discriminate.
  destruct (filter _ (SegmentationParam d)) as [| sp [| ? ?]] eqn:E2; simpl in H |- *;
    try discriminate.
  destruct (segment (average_frame af) (threshold sp) (size_cutoff sp)) as [[L labels] |] eqn:E3;
    simpl in H |- *; try discriminate.
  destruct (ins_Segmentation _ d) as [d1 |] eqn:E4; simpl in H |- *; try discriminate.
  destruct (ins_all ins_Roi _ d1) as [d2 |] eqn:E5; simpl in H |- *; try discriminate.
  injection H as <- <-; exists L, d1; split; [reflexivity | exact E4].
Qed.

Lemma mapM_ret_raise {S A B} (c : A -> bool) (g : A -> B) (e : error) l (s : S) :
  mapM (fun x => if c x then ret (g x) else raise e) l s
  = ([], if forallb c l then Ok (map g l, s) else Err e).
Proof.
  induction l as [| x l IH]; [reflexivity |]; cbn [mapM forallb map].
  unfold bind at 1; destruct (c x); cbn; [| reflexivity].
  unfold bind; rewrite IH; destruct (forallb c l); reflexivity.
Qed.

Lemma Fluorescence_make_steps fs key d u d' :
  snd (Fluorescence_make fs key d) = Ok (u, d') ->
  exists t d1, steps (fst (Fluorescence_make fs key d)) = [d1; d']
               /\ ins_Fluorescence (mkFluorescenceRow key t) d = Ok d1.
Proof.
  unfold Fluorescence_make, fetch1, fetch, gets, load, insert1, insert, update, print, bind;
    intro H; simpl in H |- *.
  destruct (filter (session_of (sg_scan key)) (Session d)) as [| se [| ? ?]] eqn:E1;
    simpl in H |- *; try discriminate.
  destruct (filter (scan_of (sg_scan key)) (Scan d)) as [| sc [| ? ?]] eqn:E2;
    simpl in H |- *; try discriminate.
  destruct (fs _) as [im |] eqn:E3; simpl in H |- *; try discriminate.
  rewrite E2 in H |- *; simpl in H |- *.
  match type of H with context [ins_Fluorescence ?r d] =>
    destruct (ins_Fluorescence r d) as [d1 |] eqn:E4 end; simpl in H |- *; try discriminate.
  rewrite mapM_ret_raise in H |- *.
  match type of H with context [forallb ?c ?l] => destruct (forallb c l) end;
    simpl in H |- *; try discriminate.
  match type of H with context [ins_all ins_Trace ?ts d1] =>
    destruct (ins_all ins_Trace ts d1) as [d2 |] eqn:E6 end; simpl in H |- *; try discriminate.
  injection H as <- <-; eexists; exists d1; split; [reflexivity | exact E4].
Qed.

Lemma ins_Fluorescence_ok r d d' :
  ins_Fluorescence r d = Ok d' ->
  has_Fluorescence d (fl_key r) = false /\ has_Segmentation d (fl_key r) = true
  /\ d' = set_Fluorescence d (Fluorescence d ++ [r]).
Proof.
  unfold ins_Fluorescence, guard.
  destruct (has_Fluorescence d (fl_key r)); cbn; [discriminate |].
  destruct (has_Segmentation d (fl_key r)); cbn; [| discriminate].
  intro H; injection H as <-; auto.
Qed.

(** C8. In [Segmentation.make] and [Fluorescence.make], started from a state
    where every Roi and Trace row has its master row, every state the call
    writes still has this property; and a successful call writes exactly two
    states, the first of which holds the new master row ([Segmentation] or
    [Fluorescence] for the key) while its part table (Roi or Trace) is still
    the one before the call. *)
Theorem master_before_part fs (k : SegKey) d :
  part_master d ->
  Forall part_master (steps (fst (Segmentation_make k d)))
  /\ Forall part_master (steps (fst (Fluorescence_make fs k d)))
  /\ (forall u d', snd (Segmentation_make k d) = Ok (u, d') ->
        exists d1, steps (fst (Segmentation_make k d)) = [d1; d']
                   /\ has_Segmentation d1 k = true /\ Roi d1 = Roi d)
  /\ (forall u d', snd (Fluorescence_make fs k d) = Ok (u, d') ->
        exists d1, steps (fst (Fluorescence_make fs k d)) = [d1; d']
                   /\ has_Fluorescence d1 k = true /\ Trace d1 = Trace d).
Proof.
  intro Hd; destruct ins_part_master as (p1 & p2 & p3 & p4 & p5).
  repeat split.
  - assert (P : preserves part_master (Segmentation_make k))
      by (apply Segmentation_make_pres; auto).
    exact (proj1 (P d Hd)).
  - assert (P : preserves part_master (Fluorescence_make fs k))
      by (apply Fluorescence_make_pres; auto).
    exact (proj1 (P d Hd)).
  - intros u d' H; destruct (Segmentation_make_steps _ _ _ _ H) as (L & d1 & Hs & Hi).
    exists d1; split; [exact Hs |].
    apply ins_Segmentation_ok in Hi; destruct Hi as (_ & _ & _ & ->); split; [| reflexivity].
    unfold has_Segmentation; cbn; rewrite existsb_app; cbn; rewrite SegKey_eqb_refl.
    apply orb_true_r.
  - intros u d' H; destruct (Fluorescence_make_steps _ _ _ _ _ H) as (t & d1 & Hs & Hi).
    exists d1; split; [exact Hs |].
    apply ins_Fluorescence_ok in Hi; destruct Hi as (_ & _ & ->); split; [| reflexivity].
    unfold has_Fluorescence; cbn; rewrite existsb_app; cbn; rewrite SegKey_eqb_refl.
    apply orb_true_r.
Qed.

(** Witness of C8: [Segmentation.make] for [key_a] and parameter set 0 on
    [db_rois] keeps one of two components and writes one Roi row after its
    Segmentation row; [Fluorescence.make] for the same key on the state it
    leaves writes one Trace row after its Fluorescence row. Every state
    written keeps every part row with its master. *)
Lemma master_before_part_witness :
  part_master db_rois
  /\ Forall part_master (steps (fst (Segmentation_make (mkSegKey key_a 0) db_rois)))
  /\ (exists u d', snd (Segmentation_make (mkSegKey key_a 0) db_rois) = Ok (u, d')
      /\ length (Roi d') = 1%nat
      /\ exists d1, steps (fst (Segmentation_make (mkSegKey key_a 0) db_rois)) = [d1; d']
                    /\ has_Segmentation d1 (mkSegKey key_a 0) = true /\ Roi d1 = Roi db_rois)
  /\ part_master db_segmented
  /\ Forall part_master (steps (fst (Fluorescence_make fs_rois (mkSegKey key_a 0) db_segmented)))
  /\ (exists u d', snd (Fluorescence_make fs_rois (mkSegKey key_a 0) db_segmented) = Ok (u, d')
      /\ length (Trace d') = 1%nat
      /\ exists d1, steps (fst (Fluorescence_make fs_rois (mkSegKey key_a 0) db_segmented)) = [d1; d']
                    /\ has_Fluorescence d1 (mkSegKey key_a 0) = true
                    /\ Trace d1 = Trace db_segmented).
Proof.
  assert (H : part_master db_rois) by (vm_compute; reflexivity).
  assert (H' : part_master db_segmented) by (vm_compute; reflexivity).
  destruct (master_before_part fs_rois (mkSegKey key_a 0) db_rois H) as (H1 & _ & H3 & _).
  destruct (master_before_part fs_rois (mkSegKey key_a 0) db_segmented H') as (_ & H2 & _ & H4).
  split; [exact H |]; split; [exact H1 |]; split.
  { eexists; eexists; split; [vm_compute; reflexivity |].
    split; [vm_compute; reflexivity |]; eapply H3; vm_compute; reflexivity. }
  split; [exact H' |]; split; [exact H2 |].
  eexists; eexists; split; [vm_compute; reflexivity |].
  split; [vm_compute; reflexivity |]; eapply H4; vm_compute; reflexivity.
Defined.

(** ** [np.unique], fancy indexing and the size filter *)

Lemma ins_sorted_In x l y : In y (ins_sorted x l) <-> x = y \/ In y l.
Proof.
  induction l as [| z l IH]; cbn; [tauto |].
  destruct (x <? z) eqn:E1; cbn; [tauto |].
  destruct (x =? z) eqn:E2; cbn.
  - apply Z.eqb_eq in E2; subst; tauto.
  - rewrite IH; tauto.
Qed.

Lemma ins_sorted_sorted x l : StronglySorted Z.lt l -> StronglySorted Z.lt (ins_sorted x l).
Proof.
  induction l as [| z l IH]; intro H; cbn.
  - repeat constructor.
  - inversion H as [| ? ? Hl Hz]; subst.
    destruct (x <? z) eqn:E1.
    + apply Z.ltb_lt in E1; constructor; [exact H |]; constructor; [exact E1 |].
      eapply Forall_impl; [| exact Hz]; intros; lia.
    + destruct (x =? z) eqn:E2; [exact H |].
      apply Z.ltb_ge in E1; apply Z.eqb_neq in E2.
      constructor; [apply IH; exact Hl |].
      apply Forall_forall; intros y Hy; apply ins_sorted_In in Hy.
      destruct Hy as [<- | Hy]; [lia |].
      rewrite Forall_forall in Hz; apply Hz; exact Hy.
Qed.

Lemma uniq_In xs y : In y (fold_right ins_sorted [] xs) <-> In y xs.
Proof. induction xs as [| x xs IH]; cbn; [tauto | rewrite ins_sorted_In, IH; tauto]. Qed.

Lemma uniq_sorted xs : StronglySorted Z.lt (fold_right ins_sorted [] xs).
Proof. induction xs; cbn; [constructor | apply ins_sorted_sorted; auto]. Qed.

Lemma sorted_NoDup l : StronglySorted Z.lt l -> NoDup l.
Proof.
  induction l as [| x l IH]; intro H; constructor; inversion H as [| ? ? Hl Hx]; subst;
    [| auto].
  rewrite Forall_forall in Hx; intro Hin; specialize (Hx x Hin); lia.
Qed.

Lemma sorted_lower l a : StronglySorted Z.lt l -> (forall y, In y l -> a <= y) ->
  forall k, (k < length l)%nat -> a + Z.of_nat k <= nth k l 0.
Proof.
  revert a; induction l as [| x l IH]; intros a Hs Ha k Hk; cbn in Hk; [lia |].
  inversion Hs as [| ? ? Hl Hx]; subst; rewrite Forall_forall in Hx.
  specialize (Ha x (or_introl eq_refl)).
  destruct k as [| k]; cbn; [lia |].
  assert (Hb : forall y, In y l -> a + 1 <= y) by (intros y Hy; specialize (Hx y Hy); lia).
  specialize (IH (a + 1) Hl Hb k ltac:(lia)); lia.
Qed.

(** A strictly increasing list of [n] integers in [[a, a + n)] is
    [a, a + 1, ..., a + n - 1]. *)
Lemma sorted_range l a : StronglySorted Z.lt l ->
  (forall y, In y l -> a <= y < a + Z.of_nat (length l)) ->
  forall k, (k < length l)%nat -> nth k l 0 = a + Z.of_nat k.
Proof.
  revert a; induction l as [| x l IH]; intros a Hs Ha k Hk; cbn [length] in Hk; [lia |].
  assert (Hx : x = a).
  { assert (Hlo : forall y, In y (x :: l) -> x <= y).
    { inversion Hs as [| ? ? Hl Hx]; subst; rewrite Forall_forall in Hx.
      intros y [<- | Hy]; [lia | specialize (Hx y Hy); lia]. }
    pose proof (sorted_lower (x :: l) x Hs Hlo (length l) ltac:(cbn; lia)) as H1.
    pose proof (Ha _ (nth_In (x :: l) 0 (ltac:(cbn; lia) : (length l < length (x :: l))%nat)))
      as H2.
    pose proof (Ha x (or_introl eq_refl)) as H3.
    cbn [length] in H2; lia. }
  subst x; destruct k as [| k]; cbn [nth]; [lia |].
  inversion Hs as [| ? ? Hl Hx]; subst; rewrite Forall_forall in Hx.
  rewrite (IH (a + 1) Hl); [lia | | lia].
  intros y Hy; specialize (Hx y Hy); specialize (Ha y (or_intror Hy)); cbn [length] in Ha; lia.
Qed.

Lemma opt_map_eq {A B} (f : A -> option B) (dflt : B) l l' :
  opt_map f l = Some l' ->
  l' = map (fun x => match f x with Some y => y | None => dflt end) l
  /\ (forall x, In x l -> f x <> None).
Proof.
  revert l'; induction l as [| a l IH]; intros l' H; cbn in H.
  - injection H as <-; split; [reflexivity | intros x []].
  - destruct (f a) eqn:E1, (opt_map f l) eqn:E2; try discriminate.
    injection H as <-; destruct (IH _ eq_refl) as [-> H2]; cbn; rewrite E1; split;
      [reflexivity |].
    intros x [<- | Hx]; [rewrite E1; discriminate | auto].
Qed.

Lemma concat_map_map {A B} (f : A -> B) (L : list (list A)) :
  concat (map (map f) L) = map f (concat L).
Proof. induction L as [| r L IH]; cbn; [reflexivity | rewrite map_app, IH; reflexivity]. Qed.

Lemma zipw_map {A B C} (f : A -> B -> C) (g : A -> B) l : zipw f l (map g l) = map (fun x => f x (g x)) l.
Proof. induction l as [| x l IH]; cbn; [reflexivity | rewrite IH; reflexivity]. Qed.

Definition index_or_false (a : list bool) (v : Z) : bool :=
  match np_index a v with Some b => b | None => false end.

Lemma fancy_index_eq a L P :
  fancy_index a L = Some P ->
  P = map (map (index_or_false a)) L /\ (forall v, In v (concat L) -> np_index a v <> None).
Proof.
  unfold fancy_index; intro H; destruct (opt_map_eq _ [] _ _ H) as [-> H2]; split.
  - apply map_ext_in; intros row Hrow.
    destruct (opt_map (np_index a) row) as [y |] eqn:E; [| exfalso; exact (H2 row Hrow E)].
    destruct (opt_map_eq _ false _ _ E) as [-> _]; reflexivity.
  - intros v Hv; apply in_concat in Hv; destruct Hv as (row & Hrow & Hv).
    destruct (opt_map (np_index a) row) as [y |] eqn:E; [| exfalso; exact (H2 row Hrow E)].
    exact (proj2 (opt_map_eq _ false _ _ E) v Hv).
Qed.

Lemma assign_zero_eq L (g : Z -> bool) :
  assign_zero L (map (map g) L) = map (map (fun v => if g v then 0 else v)) L.
Proof.
  unfold assign_zero; rewrite zipw_map; apply map_ext; intro row; apply zipw_map.
Qed.

Lemma label_nonneg m v : In v (concat (fst (ndimage_label m))) -> 0 <= v.
Proof.
  unfold ndimage_label, renumber; cbn [fst]; rewrite concat_map_map; intro H.
  apply in_map_iff in H; destruct H as (x & <- & _); destruct (x =? 0); lia.
Qed.

Lemma count_map (z : Z -> Z) i xs :
  (forall x, In x xs -> (i =? z x) = (i =? x)) ->
  length (filter (Z.eqb i) (map z xs)) = length (filter (Z.eqb i) xs).
Proof.
  induction xs as [| x xs IH]; intro H; cbn; [reflexivity |].
  rewrite (H x (or_introl eq_refl)); destruct (i =? x); cbn; rewrite IH; auto;
    intros; apply H; right; assumption.
Qed.

Lemma filter_id_map (f : Z -> bool) l :
  length (filter (fun b : bool => b) (map f l)) = length (filter f l).
Proof. induction l as [| x l IH]; cbn; [reflexivity | destruct (f x); cbn; auto]. Qed.

Lemma Qlt_bool_false a b : Qlt_bool a b = false -> (b <= a)%Q.
Proof. unfold Qlt_bool; intro H; apply negb_false_iff, Qle_bool_iff in H; exact H. Qed.

(** What [segment] returns when it succeeds: the labels it reports are the
    distinct nonzero values of the filtered label image, each covering at
    least [size_cutoff] pixels. The size table is indexed by label value,
    which matches [np.unique]'s order because the labels are [0, 1, ..., n]. *)
Lemma segment_spec avg thr cut L' labels :
  segment avg thr cut = Some (L', labels) ->
  (forall i, In i labels <-> i <> 0 /\ In i (concat L'))
  /\ NoDup labels
  /\ (forall i, In i labels -> (cut <= inject_Z (Z.of_nat (np_sum_eq L' i)))%Q)
  /\ (forall v, In v (concat L') -> v <> 0 -> In v (concat (fst (ndimage_label (img_gt avg thr))))).
Proof.
  unfold segment.
  set (label_im := fst (ndimage_label (img_gt avg thr))).
  set (U := np_unique label_im).
  set (filt := map (fun s => Qlt_bool (inject_Z (Z.of_nat s)) cut) (map (np_sum_eq label_im) U)).
  destruct (fancy_index filt label_im) as [P |] eqn:E; [| discriminate].
  intro H; injection H as HL Hlab.
  destruct (fancy_index_eq _ _ _ E) as [HP Hidx]; subst P.
  rewrite HL in Hlab; rewrite assign_zero_eq in HL.
  set (xs := concat label_im) in *.
  assert (Hnn : forall v, In v xs -> 0 <= v) by (intros v Hv; exact (label_nonneg _ v Hv)).
  assert (HU : forall y, In y U <-> In y xs) by (intro y; apply uniq_In).
  assert (HlenF : length filt = length U) by (unfold filt; rewrite !length_map; reflexivity).
  (* every label indexes the size table *)
  assert (Hrange : forall v, In v xs -> (Z.to_nat v < length U)%nat).
  { intros v Hv; specialize (Hidx v Hv); specialize (Hnn v Hv); unfold np_index in Hidx.
    destruct (v <? 0) eqn:Ev; [apply Z.ltb_lt in Ev; lia |].
    rewrite <- HlenF; apply nth_error_Some; exact Hidx. }
  assert (Hnth : forall k, (k < length U)%nat -> nth k U 0 = Z.of_nat k).
  { intros k Hk; rewrite (sorted_range U 0 (uniq_sorted xs)); [lia | | exact Hk].
    intros y Hy; apply HU in Hy; specialize (Hrange y Hy); specialize (Hnn y Hy); lia. }
  (* the size filter at a label is its pixel count compared with the cutoff *)
  assert (Hg : forall v, In v xs ->
            index_or_false filt v = Qlt_bool (inject_Z (Z.of_nat (np_sum_eq label_im v))) cut).
  { intros v Hv; unfold index_or_false, np_index.
    assert (Hv0 := Hnn v Hv); destruct (v <? 0) eqn:Ev; [apply Z.ltb_lt in Ev; lia |].
    unfold filt; rewrite !nth_error_map.
    rewrite (nth_error_nth' U 0 (Hrange v Hv)), Hnth by exact (Hrange v Hv); cbn.
    rewrite Z2Nat.id by exact Hv0; reflexivity. }
  set (z := fun v => if index_or_false filt v then 0 else v) in *.
  assert (Hxs' : concat L' = map z xs) by (rewrite <- HL; apply concat_map_map).
  assert (Hnn' : forall v, In v (concat L') -> 0 <= v).
  { intros v Hv; rewrite Hxs' in Hv; apply in_map_iff in Hv; destruct Hv as (x & <- & Hx).
    unfold z; destruct (index_or_false filt x); [lia | exact (Hnn x Hx)]. }
  assert (Hz0 : forall v, In v (concat L') -> v <> 0 -> In v xs /\ index_or_false filt v = false).
  { intros v Hv Hv0; rewrite Hxs' in Hv; apply in_map_iff in Hv; destruct Hv as (x & <- & Hx).
    unfold z in *; destruct (index_or_false filt x) eqn:Ex; [lia | rewrite Ex; auto]. }
  (* the label list: [np.unique] of the filtered image without its first value, 0 *)
  assert (Hlabels : forall i, In i labels <-> i <> 0 /\ In i (concat L')).
  { subst labels; unfold np_unique.
    assert (HS := uniq_sorted (concat L')).
    destruct (fold_right ins_sorted [] (concat L')) as [| h rest] eqn:EU; cbn [tl].
    - intro i; cbn [In]; split; [intros [] | intros [_ Hi]].
      apply (uniq_In (concat L')) in Hi; rewrite EU in Hi; destruct Hi.
    - assert (Hne : xs <> []).
      { intro Hx; rewrite Hx in Hxs'; cbn in Hxs'.
        assert (Hh : In h (concat L')) by (apply (uniq_In (concat L')); rewrite EU; left; reflexivity).
        rewrite Hxs' in Hh; destruct Hh. }
      assert (H0 : In 0 xs).
      { destruct xs as [| x0 xs0] eqn:Ex; [congruence |].
        assert (Hk : (0 < length U)%nat).
        { assert (Hx0 : In x0 U) by (apply HU; left; reflexivity).
          destruct U; [destruct Hx0 | cbn; lia]. }
        assert (Hn := nth_In U 0 Hk); rewrite (Hnth 0%nat Hk) in Hn.
        apply HU in Hn; exact Hn. }
      assert (H0' : In 0 (concat L')).
      { rewrite Hxs'; apply in_map_iff; exists 0; split; [unfold z; destruct (index_or_false filt 0); reflexivity | exact H0]. }
      assert (Hh : h = 0).
      { assert (Hin : In 0 (h :: rest)) by (rewrite <- EU; apply uniq_In; exact H0').
        assert (Hhn : 0 <= h) by (apply Hnn'; apply (uniq_In (concat L')); rewrite EU; left; reflexivity).
        destruct (StronglySorted_inv HS) as [_ Hr]; rewrite Forall_forall in Hr.
        destruct Hin as [Hin | Hin]; [lia | specialize (Hr 0 Hin); lia]. }
      subst h; destruct (StronglySorted_inv HS) as [_ Hr]; rewrite Forall_forall in Hr.
      intro i; split.
      + intro Hi; split; [specialize (Hr i Hi); lia |].
        apply (uniq_In (concat L')); rewrite EU; right; exact Hi.
      + intros [Hi0 Hi]; apply (uniq_In (concat L')) in Hi; rewrite EU in Hi.
        destruct Hi as [Hi | Hi]; [congruence | exact Hi]. }
  split; [exact Hlabels |].
  split; [subst labels; unfold np_unique; pose proof (uniq_sorted (concat L')) as HS;
          destruct (fold_right ins_sorted [] (concat L')) as [| h rest]; cbn [tl];
          [constructor | exact (sorted_NoDup rest (proj1 (StronglySorted_inv HS)))] |].
  split.
  - intros i Hi; apply Hlabels in Hi; destruct Hi as [Hi0 Hi].
    destruct (Hz0 i Hi Hi0) as [Hx Hf].
    unfold np_sum_eq; rewrite Hxs'.
    rewrite count_map.
    + rewrite Hg in Hf by exact Hx; apply Qlt_bool_false in Hf; exact Hf.
    + intros x Hx'; unfold z; destruct (index_or_false filt x) eqn:Ex.
      * destruct (i =? x) eqn:Ei; [apply Z.eqb_eq in Ei; subst x; congruence |].
        apply Z.eqb_neq; exact Hi0.
      * reflexivity.
  - intros v Hv Hv0; exact (proj1 (Hz0 v Hv Hv0)).
Qed.

(** ** A successful run of [Segmentation.make] *)

Lemma Segmentation_make_run key d u d' :
  snd (Segmentation_make key d) = Ok (u, d') ->
  exists af sp L labels d1,
    filter (fun r => ScanKey_eqb (af_key r) (sg_scan key)) (AverageFrame d) = [af]
    /\ filter (fun r => Z.eqb (sp_id r) (seg_param_id key)) (SegmentationParam d) = [sp]
    /\ segment (average_frame af) (threshold sp) (size_cutoff sp) = Some (L, labels)
    /\ ins_Segmentation (mkSegmentationRow key L) d = Ok d1
    /\ ins_all ins_Roi (rois_of key L labels) d1 = Ok d'
    /\ fst (Segmentation_make key d)
       = [Out (MsgPopulatingSeg key); Step d1; Out (MsgDetected (length (rois_of key L labels)));
          Step d'].
Proof.
  unfold Segmentation_make, fetch1, insert1, insert, update, print, raise, bind; intro H;
    simpl in H |- *.
  destruct (filter _ (AverageFrame d)) as [| af [| ? ?]] eqn:E1; simpl in H |- *;
    try discriminate.
  destruct (filter _ (SegmentationParam d)) as [| sp [| ? ?]] eqn:E2; simpl in H |- *;
    try discriminate.
  destruct (segment (average_frame af) (threshold sp) (size_cutoff sp)) as [[L labels] |] eqn:E3;
    simpl in H |- *; try discriminate.
  destruct (ins_Segmentation _ d) as [d1 |] eqn:E4; simpl in H |- *; try discriminate.
  destruct (ins_all ins_Roi _ d1) as [d2 |] eqn:E5; simpl in H |- *; try discriminate.
  injection H as <- <-; exists af, sp, L, labels, d1; repeat split; auto.
Qed.

Lemma np_sum_bool_img_eq L i : np_sum_bool (img_eq L i) = np_sum_eq L i.
Proof. unfold np_sum_bool, img_eq, np_sum_eq; rewrite concat_map_map; apply filter_id_map. Qed.

Lemma in_filter_single {A} (f : A -> bool) l x : filter f l = [x] -> In x l /\ f x = true.
Proof. intro H; apply filter_In; rewrite H; left; reflexivity. Qed.

(** C9. When [Segmentation.make] succeeds, it adds one Segmentation row with
    the filtered label image [L] and the Roi rows [rois]; every Roi row
    belongs to the key, its [roi_idx] is a nonzero value of [L] and its mask
    has at least [size_cutoff] pixels (the cutoff of the key's parameter
    set); the [roi_idx] values are distinct and are exactly the nonzero values
    of [L]; and the number printed ([Detected n ROIs]) is the number of Roi
    rows inserted. *)
Theorem Segmentation_make_rois key d u d' :
  snd (Segmentation_make key d) = Ok (u, d') ->
  exists L rois,
    Segmentation d' = Segmentation d ++ [mkSegmentationRow key L]
    /\ Roi d' = Roi d ++ rois
    /\ (exists sp, In sp (SegmentationParam d) /\ sp_id sp = seg_param_id key
        /\ forall r, In r rois -> (size_cutoff sp <= inject_Z (Z.of_nat (np_sum_bool (mask r))))%Q)
    /\ (forall r, In r rois ->
          ro_seg (ro_key r) = key /\ roi_idx (ro_key r) <> 0 /\ In (roi_idx (ro_key r)) (concat L))
    /\ (forall i, In i (map (fun r => roi_idx (ro_key r)) rois) <-> i <> 0 /\ In i (concat L))
    /\ NoDup (map (fun r => roi_idx (ro_key r)) rois)
    /\ exists d1, fst (Segmentation_make key d)
                  = [Out (MsgPopulatingSeg key); Step d1; Out (MsgDetected (length rois)); Step d'].
Proof.
  intro H; destruct (Segmentation_make_run _ _ _ _ H)
    as (af & sp & L & labels & d1 & E1 & E2 & E3 & E4 & E5 & E6).
  destruct (segment_spec _ _ _ _ _ E3) as (S1 & S2 & S3 & _).
  apply ins_Segmentation_ok in E4; destruct E4 as (_ & _ & _ & ->).
  apply ins_all_Roi_ok in E5; subst d'.
  assert (Hidx : map (fun r => roi_idx (ro_key r)) (rois_of key L labels) = labels).
  { unfold rois_of; rewrite map_map; cbn; apply map_id. }
  exists L, (rois_of key L labels).
  split; [reflexivity |]; split; [reflexivity |]; split.
  { exists sp; destruct (in_filter_single _ _ _ E2) as [Hsp Hid]; apply Z.eqb_eq in Hid.
    split; [exact Hsp | split; [exact Hid |]].
    intros r Hr; unfold rois_of in Hr; apply in_map_iff in Hr; destruct Hr as (i & <- & Hi).
    cbn [mask]; rewrite np_sum_bool_img_eq; exact (S3 i Hi). }
  split.
  { intros r Hr; unfold rois_of in Hr; apply in_map_iff in Hr.
    destruct Hr as (i & <- & Hi); cbn; exact (conj eq_refl (proj1 (S1 i) Hi)). }
  split; [rewrite Hidx; exact S1 |]; split; [rewrite Hidx; exact S2 |].
  eexists; exact E6.
Qed.

(** Witness of C9: on [db_rois], [Segmentation.make] keeps the 2-pixel
    component as ROI 1 and removes the 1-pixel one. *)
Lemma Segmentation_make_rois_witness :
  exists u d', snd (Segmentation_make (mkSegKey key_a 0) db_rois) = Ok (u, d')
  /\ exists L rois,
    Segmentation d' = Segmentation db_rois ++ [mkSegmentationRow (mkSegKey key_a 0) L]
    /\ Roi d' = Roi db_rois ++ rois
    /\ (exists sp, In sp (SegmentationParam db_rois) /\ sp_id sp = seg_param_id (mkSegKey key_a 0)
        /\ forall r, In r rois -> (size_cutoff sp <= inject_Z (Z.of_nat (np_sum_bool (mask r))))%Q)
    /\ (forall r, In r rois -> ro_seg (ro_key r) = mkSegKey key_a 0 /\ roi_idx (ro_key r) <> 0
                               /\ In (roi_idx (ro_key r)) (concat L))
    /\ (forall i, In i (map (fun r => roi_idx (ro_key r)) rois) <-> i <> 0 /\ In i (concat L))
    /\ NoDup (map (fun r => roi_idx (ro_key r)) rois)
    /\ exists d1, fst (Segmentation_make (mkSegKey key_a 0) db_rois)
                  = [Out (MsgPopulatingSeg (mkSegKey key_a 0)); Step d1;
                     Out (MsgDetected (length rois)); Step d'].
Proof.
  eexists; eexists; split; [reflexivity |].
  eapply Segmentation_make_rois; reflexivity.
Defined.

(** ** The pixels of the filtered label image *)

Lemma pxo_map {A B} (f : A -> B) X i j : pxo (map (map f) X) i j = option_map f (pxo X i j).
Proof.
  unfold pxo; rewrite nth_error_map; destruct (nth_error X i); cbn; [apply nth_error_map |].
  reflexivity.
Qed.

Lemma nth_error_seq_gen s n i k : nth_error (seq s n) i = Some k -> k = (s + i)%nat.
Proof.
  revert s i; induction n as [| n IH]; intros s i H; [destruct i; discriminate |].
  destruct i as [| i]; cbn in H; [injection H as <-; lia |].
  apply IH in H; lia.
Qed.

Lemma pxo_tabulate {A} h w (g : nat -> nat -> A) i j v :
  pxo (tabulate h w g) i j = Some v -> v = g i j.
Proof.
  unfold pxo, tabulate; rewrite nth_error_map.
  destruct (nth_error (seq 0 h) i) as [i' |] eqn:E1; cbn; [| discriminate].
  rewrite nth_error_map; destruct (nth_error (seq 0 w) j) as [j' |] eqn:E2; cbn;
    [| discriminate].
  intro H; injection H as <-.
  apply nth_error_seq_gen in E1, E2; cbn in E1, E2; subst; reflexivity.
Qed.

Lemma label_iter_shape m n :
  exists g, Nat.iter n (label_round m) (label_init m)
            = tabulate (nrows m) (ncols m) (fun i j => if on_mask m i j then g i j else 0).
Proof.
  destruct n as [| n]; cbn [Nat.iter].
  - exists (fun i j => Z.of_nat (i * ncols m + j + 1)); reflexivity.
  - unfold label_round at 1; eexists; reflexivity.
Qed.

Lemma segment_pixels avg thr cut L' labels :
  segment avg thr cut = Some (L', labels) ->
  forall i j v, pxo L' i j = Some v -> v <> 0 ->
    exists a, pxo avg i j = Some a /\ (thr < a)%Q.
Proof.
  unfold segment.
  set (label_im := fst (ndimage_label (img_gt avg thr))).
  set (filt := map _ (map (np_sum_eq label_im) (np_unique label_im))).
  destruct (fancy_index filt label_im) as [P |] eqn:E; [| discriminate].
  intro H; injection H as HL _.
  destruct (fancy_index_eq _ _ _ E) as [HP _]; subst P.
  rewrite assign_zero_eq in HL; subst L'.
  intros i j v Hv Hv0; rewrite pxo_map in Hv.
  destruct (pxo label_im i j) as [w |] eqn:E1; cbn in Hv; [injection Hv as Hv | discriminate].
  assert (Hw : w <> 0) by (intro; subst w; apply Hv0; rewrite <- Hv; destruct (index_or_false _ _); reflexivity).
  unfold label_im, ndimage_label, renumber in E1; cbn [fst] in E1; rewrite pxo_map in E1.
  destruct (label_iter_shape (img_gt avg thr) (nrows (img_gt avg thr) * ncols (img_gt avg thr)))
    as [g Hg].
  rewrite Hg in E1.
  destruct (pxo (tabulate _ _ _) i j) as [w0 |] eqn:E2; cbn in E1; [injection E1 as E1 | discriminate].
  apply pxo_tabulate in E2.
  destruct (on_mask (img_gt avg thr) i j) eqn:Em; [| subst w0; cbn in E1; congruence].
  unfold on_mask in Em; unfold img_gt in Em; rewrite pxo_map in Em.
  destruct (pxo avg i j) as [a |]; cbn in Em; [| discriminate].
  exists a; split; [reflexivity |].
  destruct (Qlt_bool thr a) eqn:Ea; [| discriminate].
  unfold Qlt_bool in Ea; apply negb_true_iff in Ea.
  apply Qnot_le_lt; intro Hle; apply Qle_bool_iff in Hle; congruence.
Qed.

(** C7. When [Segmentation.make] returns, it fetched the key's average frame
    [af] and parameter set [sp], stored one Segmentation row whose
    [segmented_masks] is the filtered label image [L], and one Roi row per
    nonzero value [i] of [L] with mask [L == i]; a pixel of [L] is nonzero
    only where the average frame exceeds the threshold. But on an average
    frame above the threshold at every pixel (the mask has no background,
    so label 0 is absent and [small_size_filter] is one entry short),
    [small_size_filter[label_im]] raises [IndexError]: for the frame
    [[100]] of [db_frames] with threshold 50 the call fails and stores
    nothing, where the steps of the claim would keep or drop its single
    component. *)
Theorem Segmentation_make_result :
  (forall key d u d',
     snd (Segmentation_make key d) = Ok (u, d') ->
     exists af sp L labels,
       In af (AverageFrame d) /\ af_key af = sg_scan key
       /\ In sp (SegmentationParam d) /\ sp_id sp = seg_param_id key
       /\ Segmentation d' = Segmentation d ++ [mkSegmentationRow key L]
       /\ Roi d' = Roi d ++ map (fun i => mkRoiRow (mkRoiKey key i) (img_eq L i)) labels
       /\ (forall i, In i labels <-> i <> 0 /\ In i (concat L))
       /\ (forall i j v, pxo L i j = Some v -> v <> 0 ->
             exists a, pxo (average_frame af) i j = Some a /\ (threshold sp < a)%Q))
  /\ img_gt [[100#1]] (50#1) = [[true]]
  /\ segment [[100#1]] (50#1) (50#1) = None
  /\ snd (Segmentation_make (mkSegKey key_a 0) db_frames) = Err IndexError.
Proof.
  split; [| split; [reflexivity | split; reflexivity]].
  intros key d u d' H; destruct (Segmentation_make_run _ _ _ _ H)
    as (af & sp & L & labels & d1 & E1 & E2 & E3 & E4 & E5 & _).
  destruct (segment_spec _ _ _ _ _ E3) as (S1 & _).
  pose proof (segment_pixels _ _ _ _ _ E3) as S4.
  apply ins_Segmentation_ok in E4; destruct E4 as (_ & _ & _ & ->).
  apply ins_all_Roi_ok in E5; subst d'.
  destruct (in_filter_single _ _ _ E1) as [Haf Hk]; apply ScanKey_eqb_eq in Hk.
  destruct (in_filter_single _ _ _ E2) as [Hsp Hid]; apply Z.eqb_eq in Hid.
  exists af, sp, L, labels.
  split; [exact Haf |]; split; [exact Hk |]; split; [exact Hsp |]; split; [exact Hid |].
  split; [reflexivity |]; split; [reflexivity |]; split; [exact S1 | exact S4].
Qed.

(** Witness of C7: its first part applied to the run on [db_rois]. *)
Lemma Segmentation_make_result_witness :
  exists u d', snd (Segmentation_make (mkSegKey key_a 0) db_rois) = Ok (u, d')
  /\ exists af sp L labels,
       In af (AverageFrame db_rois) /\ af_key af = sg_scan (mkSegKey key_a 0)
       /\ In sp (SegmentationParam db_rois) /\ sp_id sp = seg_param_id (mkSegKey key_a 0)
       /\ Segmentation d' = Segmentation db_rois ++ [mkSegmentationRow (mkSegKey key_a 0) L]
       /\ Roi d' = Roi db_rois
                   ++ map (fun i => mkRoiRow (mkRoiKey (mkSegKey key_a 0) i) (img_eq L i)) labels
       /\ (forall i, In i labels <-> i <> 0 /\ In i (concat L))
       /\ (forall i j v, pxo L i j = Some v -> v <> 0 ->
             exists a, pxo (average_frame af) i j = Some a /\ (threshold sp < a)%Q).
Proof.
  eexists; eexists; split; [reflexivity |].
  eapply (proj1 Segmentation_make_result); reflexivity.
Defined.

(** ** [np.mean(im, axis=0)] *)

Lemma nth_error_zipw {A B C} (g : A -> B -> C) a b k :
  nth_error (zipw g a b) k
  = match nth_error a k, nth_error b k with Some x, Some y => Some (g x y) | _, _ => None end.
Proof.
  revert b k; induction a as [| x a IH]; intros b k; [destruct k; reflexivity |].
  destruct b as [| y b]; [destruct k; cbn; [reflexivity | destruct (nth_error a k); reflexivity] |].
  destruct k; cbn; [reflexivity | apply IH].
Qed.

Lemma pxo_add_frames a b i j :
  pxo (add_frames a b) i j
  = match pxo a i j, pxo b i j with Some x, Some y => Some (x + y)%Q | _, _ => None end.
Proof.
  unfold pxo, add_frames; rewrite nth_error_zipw.
  destruct (nth_error a i), (nth_error b i); cbn; try reflexivity.
  - rewrite nth_error_zipw; reflexivity.
  - destruct (nth_error l j); reflexivity.
Qed.

Lemma length_zipw {A B C} (g : A -> B -> C) a b : length (zipw g a b) = Nat.min (length a) (length b).
Proof.
  revert b; induction a as [| x a IH]; intro b; [reflexivity |].
  destruct b as [| y b]; cbn; [reflexivity | rewrite IH; reflexivity].
Qed.

Lemma in_zipw {A B C} (g : A -> B -> C) a b z :
  In z (zipw g a b) -> exists x y, In x a /\ In y b /\ z = g x y.
Proof.
  revert b; induction a as [| x a IH]; intros b H; [destruct H |].
  destruct b as [| y b]; [destruct H |]; destruct H as [<- | H].
  - exists x, y; repeat split; try left; reflexivity.
  - destruct (IH b H) as (x' & y' & H1 & H2 & ->); exists x', y'; repeat split; try right; auto.
Qed.

Lemma add_frames_shape w h a b : has_shape w h a -> has_shape w h b -> has_shape w h (add_frames a b).
Proof.
  intros [Ha Ra] [Hb Rb]; unfold add_frames; split.
  - rewrite length_zipw, Ha, Hb; apply Nat.min_id.
  - apply Forall_forall; intros r Hr; apply in_zipw in Hr; destruct Hr as (x & y & Hx & Hy & ->).
    rewrite Forall_forall in Ra, Rb; rewrite length_zipw, (Ra x Hx), (Rb y Hy); apply Nat.min_id.
Qed.

Lemma pxo_shape w h f i j : has_shape w h f -> (i < w)%nat -> (j < h)%nat ->
  pxo f i j = Some (pixel f i j).
Proof.
  intros [Hl Hr] Hi Hj; unfold pxo, pixel.
  rewrite (nth_error_nth' f [] (ltac:(lia) : (i < length f)%nat)).
  apply nth_error_nth'; rewrite Forall_forall in Hr; rewrite Hr; [exact Hj | apply nth_In; lia].
Qed.

Lemma fold_add_frames w h fs f :
  has_shape w h f -> Forall (has_shape w h) fs ->
  has_shape w h (fold_left add_frames fs f)
  /\ forall i j, (i < w)%nat -> (j < h)%nat ->
       exists a, pxo (fold_left add_frames fs f) i j = Some a
                 /\ (a == pixel f i j + fold_right Qplus 0 (map (fun g => pixel g i j) fs))%Q.
Proof.
  revert f; induction fs as [| g fs IH]; intros f Hf Hfs; cbn [fold_left].
  - split; [exact Hf |]; intros i j Hi Hj; exists (pixel f i j).
    split; [exact (pxo_shape w h f i j Hf Hi Hj) | cbn; ring].
  - inversion Hfs as [| ? ? Hg Hfs']; subst.
    destruct (IH (add_frames f g) (add_frames_shape w h f g Hf Hg) Hfs') as [S1 S2].
    split; [exact S1 |]; intros i j Hi Hj; destruct (S2 i j Hi Hj) as (a & Ha & Hq).
    exists a; split; [exact Ha |].
    rewrite Hq; cbn [map fold_right].
    assert (E : pxo (add_frames f g) i j = Some (pixel f i j + pixel g i j)%Q).
    { rewrite pxo_add_frames, (pxo_shape w h f i j Hf Hi Hj), (pxo_shape w h g i j Hg Hi Hj).
      reflexivity. }
    assert (Hs := add_frames_shape w h f g Hf Hg).
    rewrite (pxo_shape w h _ i j Hs Hi Hj) in E; injection E as ->; ring.
Qed.

Lemma np_mean_axis0_spec w h im :
  im <> [] -> Forall (has_shape w h) im ->
  has_shape w h (np_mean_axis0 im)
  /\ forall i j, (i < w)%nat -> (j < h)%nat ->
       exists a, pxo (np_mean_axis0 im) i j = Some a
                 /\ (a == fold_right Qplus 0 (map (fun g => pixel g i j) im)
                         / inject_Z (Z.of_nat (length im)))%Q.
Proof.
  destruct im as [| f fs]; intros Hne Him; [congruence |].
  inversion Him as [| ? ? Hf Hfs]; subst.
  destruct (fold_add_frames w h fs f Hf Hfs) as [[S1 S2] S3].
  unfold np_mean_axis0; split; [split |].
  - rewrite length_map; exact S1.
  - apply Forall_forall; intros r Hr; apply in_map_iff in Hr; destruct Hr as (r0 & <- & Hr0).
    rewrite length_map; rewrite Forall_forall in S2; exact (S2 r0 Hr0).
  - intros i j Hi Hj; destruct (S3 i j Hi Hj) as (a & Ha & Hq).
    rewrite pxo_map, Ha; cbn [option_map]; eexists; split; [reflexivity |].
    rewrite Hq; reflexivity.
Qed.

(** C6. For a Scan key with its Session and Scan rows, whose tif holds a
    non-empty stack of [n] frames of [w] rows and [h] columns, and with no
    AverageFrame row yet, [AverageFrame.make] inserts exactly one row, for
    the key, and changes nothing else; its [average_frame] has [w] rows of
    [h] values, and the value at [(i, j)] is the sum of the frames' values
    at [(i, j)] divided by [n]. (Floats are modelled as rationals, so the
    mean is exact; equality of values is [==] on [Q].) *)
Theorem AverageFrame_make_mean fs key d se sc im w h :
  filter (session_of key) (Session d) = [se] ->
  filter (scan_of key) (Scan d) = [sc] ->
  fs (path_join (data_path se) (file_name sc)) = Some im ->
  has_AverageFrame d key = false ->
  im <> [] -> Forall (has_shape w h) im ->
  exists avg,
    snd (AverageFrame_make fs key d)
      = Ok (tt, set_AverageFrame d (AverageFrame d ++ [mkAverageFrameRow key avg]))
    /\ has_shape w h avg
    /\ forall i j, (i < w)%nat -> (j < h)%nat ->
         exists a, pxo avg i j = Some a
                   /\ (a == fold_right Qplus 0 (map (fun g => pixel g i j) im)
                           / inject_Z (Z.of_nat (length im)))%Q.
Proof.
  intros E1 E2 E3 E4 Hne Him.
  assert (E5 : has_Scan d key = true).
  { destruct (in_filter_single _ _ _ E2) as [Hsc Hk]; unfold has_Scan.
    apply existsb_exists; exists sc; split; [exact Hsc | exact Hk]. }
  exists (np_mean_axis0 im); split; [| exact (np_mean_axis0_spec w h im Hne Him)].
  unfold AverageFrame_make, fetch1, load, insert1, update, print, bind; simpl.
  rewrite E1, E2; simpl; rewrite E3; simpl.
  unfold ins_AverageFrame, guard; cbn [af_key]; rewrite E4, E5; reflexivity.
Qed.

(** Witness of C6: [key_b] on [db_scans], whose tif holds two 1 x 2 frames. *)
Lemma AverageFrame_make_mean_witness :
  exists avg,
    snd (AverageFrame_make fs_only_02 key_b db_scans)
      = Ok (tt, set_AverageFrame db_scans (AverageFrame db_scans ++ [mkAverageFrameRow key_b avg]))
    /\ has_shape 1 2 avg
    /\ forall i j, (i < 1)%nat -> (j < 2)%nat ->
         exists a, pxo avg i j = Some a
                   /\ (a == fold_right Qplus 0
                             (map (fun g => pixel g i j) [ [[2#1; 4#1]]; [[4#1; 8#1]] ])
                           / inject_Z (Z.of_nat 2))%Q.
Proof.
  eapply (AverageFrame_make_mean fs_only_02 key_b db_scans _ _ [ [[2#1; 4#1]]; [[4#1; 8#1]] ] 1 2);
    [reflexivity | reflexivity | reflexivity | reflexivity | discriminate |].
  repeat constructor.
Defined.

(** ** [Neuron.make] *)

Definition neuron_rows (key : SessionKey) (ps : list (nat * Ephys.ndarray)) : list Ephys.NeuronRow :=
  map (fun p => Ephys.mkNeuronRow key (Z.of_nat (fst p)) (snd p)) ps.

Lemma Neuron_insert_loop key l s d :
  Ephys.has_Session d key = true ->
  (forall r, In r (Ephys.Neuron d) -> Ephys.nu_key r = key -> Ephys.neuron_id r < Z.of_nat s) ->
  snd (mapM_ (fun p => insert1 Ephys.ins_Neuron
                        (Ephys.mkNeuronRow key (Z.of_nat (fst p)) (snd p)) ;;;
                      print (MsgPopulatedNeuron (Z.of_nat (fst p)) key))
             (combine (seq s (length l)) l) d)
  = Ok (tt, Ephys.mkedb (Ephys.Session d)
                        (Ephys.Neuron d ++ neuron_rows key (combine (seq s (length l)) l))).
Proof.
  revert s d; induction l as [| x l IH]; intros s d Hs Hn.
  - cbn; rewrite app_nil_r; destruct d; reflexivity.
  - cbn [length seq combine mapM_]; rewrite snd_bind, snd_bind.
    assert (Hnd : Ephys.has_Neuron d key (Z.of_nat s) = false).
    { unfold Ephys.has_Neuron; apply Bool.not_true_iff_false; intro H.
      apply existsb_exists in H; destruct H as (r & Hr & Hk).
      apply andb_true_iff in Hk; destruct Hk as [Hk Hi].
      apply SessionKey_eqb_eq in Hk; apply Z.eqb_eq in Hi.
      specialize (Hn r Hr Hk); lia. }
    unfold insert1, update, Ephys.ins_Neuron; cbn [fst snd Ephys.nu_key Ephys.neuron_id].
    rewrite Hnd, Hs; cbn [snd print].
    rewrite IH.
    + unfold neuron_rows; cbn; rewrite <- app_assoc; reflexivity.
    + exact Hs.
    + intros r Hr Hk; cbn [Ephys.Neuron] in Hr; apply in_snoc in Hr; destruct Hr as [Hr | ->].
      * specialize (Hn r Hr Hk); lia.
      * cbn; lia.
Qed.

Lemma nth_error_enumerate {A} (l : list A) s idx :
  nth_error (combine (seq s (length l)) l) idx
  = option_map (fun x => ((s + idx)%nat, x)) (nth_error l idx).
Proof.
  revert s idx; induction l as [| x l IH]; intros s idx; [destruct idx; reflexivity |].
  destruct idx as [| idx]; cbn [length seq combine nth_error].
  - cbn; rewrite Nat.add_0_r; reflexivity.
  - rewrite IH; destruct (nth_error l idx); cbn; [rewrite Nat.add_succ_r |]; reflexivity.
Qed.

(** C10. For a Session key with no Neuron rows yet, whose file
    [data_dir/data_{mouse_id}_{session_date}.npy] holds an array [data] with
    a first axis, [Neuron.make] inserts exactly [data.shape[0]] rows: the row
    at position [idx] has the key, [neuron_id = idx] and the [idx]-th slice
    of [data] as [activity]. *)
Theorem Neuron_make_rows data_dir fs key d l :
  Ephys.has_Session d key = true ->
  (forall r, In r (Ephys.Neuron d) -> Ephys.nu_key r <> key) ->
  fs (neuron_data_file data_dir key) = Some (Ephys.Arr l) ->
  exists rows,
    snd (Ephys.Neuron_make data_dir fs key d)
      = Ok (tt, Ephys.mkedb (Ephys.Session d) (Ephys.Neuron d ++ rows))
    /\ Ephys.shape0 (Ephys.Arr l) = Some (length rows)
    /\ forall idx x, nth_error l idx = Some x ->
         nth_error rows idx = Some (Ephys.mkNeuronRow key (Z.of_nat idx) x).
Proof.
  intros Hs Hn Hf.
  exists (neuron_rows key (combine (seq 0 (length l)) l)); split; [| split].
  - unfold Ephys.Neuron_make; rewrite snd_bind; unfold load.
    unfold neuron_data_file in Hf; cbn [snd]; rewrite Hf.
    unfold Ephys.enumerate; apply Neuron_insert_loop; [exact Hs |].
    intros r Hr Hk; exfalso; exact (Hn r Hr Hk).
  - unfold neuron_rows; cbn [Ephys.shape0]; rewrite length_map, length_combine, length_seq.
    rewrite Nat.min_id; reflexivity.
  - intros idx x Hx; unfold neuron_rows; rewrite nth_error_map, nth_error_enumerate, Hx.
    reflexivity.
Qed.

(** A session of mouse 0 with no Neuron rows, and a data folder holding a
    1 x 1000 array for it. *)
Definition edb_one : Ephys.edb := Ephys.mkedb [mkSessionKey 0 "2017-05-15"] [].
Definition fs_1x1000 (p : string) : option Ephys.ndarray :=
  if String.eqb p "/data/data_0_2017-05-15.npy"
  then Some (Ephys.Arr [Ephys.Arr (repeat (Ephys.Scalar 0) 1000)]) else None.

(** Witness of C10: the 1 x 1000 file yields exactly one row, with
    [neuron_id = 0]. *)
Lemma Neuron_make_rows_witness :
  exists rows,
    snd (Ephys.Neuron_make "/data" fs_1x1000 (mkSessionKey 0 "2017-05-15") edb_one)
      = Ok (tt, Ephys.mkedb (Ephys.Session edb_one) (Ephys.Neuron edb_one ++ rows))
    /\ Ephys.shape0 (Ephys.Arr [Ephys.Arr (repeat (Ephys.Scalar 0) 1000)]) = Some (length rows)
    /\ forall idx x, nth_error [Ephys.Arr (repeat (Ephys.Scalar 0) 1000)] idx = Some x ->
         nth_error rows idx = Some (Ephys.mkNeuronRow (mkSessionKey 0 "2017-05-15") (Z.of_nat idx) x).
Proof.
  apply Neuron_make_rows; [reflexivity | intros r [] | reflexivity].
Defined.

(** ** The files the [make] methods open *)

Definition noread {S A} (m : M S A) : Prop := forall s, reads (fst (m s)) = [].

Lemma reads_app {S} (l1 l2 : list (event S)) : reads (l1 ++ l2) = reads l1 ++ reads l2.
Proof. unfold reads; apply flat_map_app. Qed.

Lemma noread_bind {S A B} (m : M S A) (f : A -> M S B) :
  noread m -> (forall a, noread (f a)) -> noread (bind m f).
Proof.
  intros Hm Hf s; rewrite fst_bind, reads_app, Hm; cbn.
  destruct (snd (m s)) as [[a s1] |]; [apply Hf | reflexivity].
Qed.

Lemma noread_mapM_ {S A} (f : A -> M S unit) l : (forall x, noread (f x)) -> noread (mapM_ f l).
Proof.
  intro Hf; induction l as [| x l IH]; cbn; [intro; reflexivity |].
  apply noread_bind; [apply Hf | intro; exact IH].
Qed.

Lemma noread_update {S} (f : S -> outcome S) : noread (update f).
Proof. intro s; unfold update; destruct (f s); reflexivity. Qed.

Lemma noread_print {S} m : noread (@print S m).
Proof. intro; reflexivity. Qed.

Lemma AverageFrame_make_reads fsA k d :
  reads (fst (AverageFrame_make fsA k d))
  = match filter (session_of k) (Session d), filter (scan_of k) (Scan d) with
    | [se], [sc] => [path_join (data_path se) (file_name sc)]
    | _, _ => []
    end.
Proof.
  unfold AverageFrame_make, fetch1, load, insert1, update, print, bind; simpl.
  destruct (filter (session_of k) (Session d)) as [| se [| ? ?]]; simpl; try reflexivity;
    destruct (filter (scan_of k) (Scan d)) as [| sc [| ? ?]]; simpl; try reflexivity.
  destruct (fsA _); simpl; [destruct (ins_AverageFrame _ _); simpl |]; reflexivity.
Qed.

(** C5. [Neuron.make] opens exactly one file,
    [data_dir/data_{mouse_id}_{session_date}.npy] of its key;
    [AverageFrame.make] opens exactly [os.path.join(data_path, file_name)] of
    the key's Session and Scan rows, and nothing when one of them is not
    found; the three Scan rows the notebook inserts are named
    [example_scan_NN.tif]. Yet [file_name] is a plain [varchar(128)]: a Scan
    row with a new key, an existing session and any name of at most 128
    characters is accepted, and [AverageFrame.make] for its key then opens
    that name. *)
Theorem file_paths data_dir fsN key dE fsA k d :
  reads (fst (Ephys.Neuron_make data_dir fsN key dE)) = [neuron_data_file data_dir key]
  /\ reads (fst (AverageFrame_make fsA k d))
     = match filter (session_of k) (Session d), filter (scan_of k) (Scan d) with
       | [se], [sc] => [path_join (data_path se) (file_name sc)]
       | _, _ => []
       end
  /\ forallb is_example_scan_name (map file_name notebook_scans) = true
  /\ (forall r se, has_Scan d (sc_key r) = false ->
        filter (session_of (sc_key r)) (Session d) = [se] ->
        (String.length (file_name r) <= 128)%nat ->
        ins_Scan r d = Ok (set_Scan d (Scan d ++ [r]))
        /\ reads (fst (AverageFrame_make fsA (sc_key r) (set_Scan d (Scan d ++ [r]))))
           = [path_join (data_path se) (file_name r)]).
Proof.
  split; [| split; [apply AverageFrame_make_reads | split; [reflexivity |]]].
  - unfold Ephys.Neuron_make; rewrite fst_bind, reads_app; unfold load; cbn [fst snd].
    destruct (fsN _) as [[v | l] |]; cbn; [reflexivity | | reflexivity].
    f_equal; apply noread_mapM_; intro x; apply noread_bind;
      [apply noread_update | intro; apply noread_print].
  - intros r se Hn Hse Hl.
    assert (Hs : has_Session d (sc_session (sc_key r)) = true).
    { destruct (in_filter_single _ _ _ Hse) as [H1 H2].
      apply existsb_exists; exists se; split; [exact H1 | exact H2]. }
    assert (Hsc : filter (scan_of (sc_key r)) (Scan d ++ [r]) = [r]).
    { assert (H0 : filter (scan_of (sc_key r)) (Scan d) = [])
        by (apply existsb_false_filter; exact Hn).
      rewrite filter_app, H0; cbn [app filter]; unfold scan_of; rewrite ScanKey_eqb_refl.
      reflexivity. }
    split.
    + unfold ins_Scan, guard; rewrite Hn, Hs; cbn [negb].
      apply Nat.leb_le in Hl; rewrite Hl; reflexivity.
    + rewrite AverageFrame_make_reads; cbn [Session Scan set_Scan]; rewrite Hse, Hsc.
      reflexivity.
Qed.

(** Counterexample to C5: [Scan.insert1] accepts the row [scan_other_name],
    and [AverageFrame.make] for its key then opens [/data/scan.tif]. *)
Lemma Scan_accepts_other_name :
  exists d', ins_Scan scan_other_name db_scans = Ok d'
  /\ In scan_other_name (Scan d')
  /\ is_example_scan_name (file_name scan_other_name) = false
  /\ reads (fst (AverageFrame_make fs_both (sc_key scan_other_name) d')) = ["/data/scan.tif"%string].
Proof. eexists; split; [reflexivity |]; vm_compute; split; [auto 10 | split; reflexivity]. Qed.

(** Witness of C5: the mouse-0 session opens [/data/data_0_2017-05-15.npy];
    the average frame of [key_a] opens [/data/example_scan_01.tif]; and the
    row [scan_other_name] is accepted, after which its average frame opens
    [/data/scan.tif]. *)
Lemma file_paths_witness :
  reads (fst (Ephys.Neuron_make "/data" fs_1x1000 (mkSessionKey 0 "2017-05-15") edb_one))
    = ["/data/data_0_2017-05-15.npy"%string]
  /\ reads (fst (AverageFrame_make fs_both key_a db_scans)) = ["/data/example_scan_01.tif"%string]
  /\ ins_Scan scan_other_name db_scans = Ok (set_Scan db_scans (Scan db_scans ++ [scan_other_name]))
  /\ reads (fst (AverageFrame_make fs_both (sc_key scan_other_name)
                   (set_Scan db_scans (Scan db_scans ++ [scan_other_name]))))
     = ["/data/scan.tif"%string].
Proof.
  destruct (file_paths "/data" fs_1x1000 (mkSessionKey 0 "2017-05-15") edb_one fs_both key_a db_scans)
    as (H1 & H2 & _ & H4).
  destruct (H4 scan_other_name (mkSessionRow (mkSessionKey 0 "2017-05-15") "/data"))
    as [H5 H6]; [vm_compute; reflexivity | vm_compute; reflexivity | apply Nat.leb_le; reflexivity |].
  split; [rewrite H1; vm_compute; reflexivity |].
  split; [rewrite H2; vm_compute; reflexivity |].
  split; [exact H5 | rewrite H6; vm_compute; reflexivity].
Defined.

(** * Further properties of the [make] methods *)

(** ** Arrays built by [tabulate] *)

Lemma pxo_tabulate_range {A} h w (g : nat -> nat -> A) i j v :
  pxo (tabulate h w g) i j = Some v -> (i < h)%nat /\ (j < w)%nat.
Proof.
  unfold pxo, tabulate; rewrite nth_error_map.
  destruct (nth_error (seq 0 h) i) eqn:E1; cbn; [| discriminate].
  rewrite nth_error_map; destruct (nth_error (seq 0 w) j) eqn:E2; cbn; [| discriminate].
  intros _; split.
  - rewrite <- (length_seq h 0); apply nth_error_Some; congruence.
  - rewrite <- (length_seq w 0); apply nth_error_Some; congruence.
Qed.

Lemma nth_error_seq_lt s n i : (i < n)%nat -> nth_error (seq s n) i = Some (s + i)%nat.
Proof.
  intro H; rewrite (nth_error_nth' _ 0%nat) by (rewrite length_seq; exact H).
  rewrite seq_nth by exact H; reflexivity.
Qed.

Lemma pxo_tabulate_in {A} h w (g : nat -> nat -> A) i j :
  (i < h)%nat -> (j < w)%nat -> pxo (tabulate h w g) i j = Some (g i j).
Proof.
  intros Hi Hj; unfold pxo, tabulate; rewrite nth_error_map, nth_error_seq_lt by exact Hi.
  cbn; rewrite nth_error_map, nth_error_seq_lt by exact Hj; reflexivity.
Qed.

Lemma in_concat_pxo {A} (X : list (list A)) v :
  In v (concat X) <-> exists i j, pxo X i j = Some v.
Proof.
  rewrite in_concat; unfold pxo; split.
  - intros (row & Hr & Hv); apply In_nth_error in Hr, Hv.
    destruct Hr as [i Hi], Hv as [j Hj]; exists i, j; rewrite Hi; exact Hj.
  - intros (i & j & H); destruct (nth_error X i) as [row |] eqn:E; [| discriminate].
    exists row; split; [exact (nth_error_In _ _ E) | exact (nth_error_In _ _ H)].
Qed.

Lemma in_concat_tabulate {A} h w (g : nat -> nat -> A) v :
  In v (concat (tabulate h w g)) <-> exists i j, (i < h)%nat /\ (j < w)%nat /\ v = g i j.
Proof.
  rewrite in_concat_pxo; split.
  - intros (i & j & H); destruct (pxo_tabulate_range _ _ _ _ _ _ H) as [Hi Hj].
    rewrite pxo_tabulate_in in H by assumption; injection H as <-; eauto.
  - intros (i & j & Hi & Hj & ->); exists i, j; apply pxo_tabulate_in; assumption.
Qed.

(** ** The labels of [ndimage_label] *)

Lemma min_nonzero_pos v l : 0 < v -> (forall x, In x l -> 0 <= x) -> 0 < min_nonzero v l.
Proof.
  unfold min_nonzero; revert v; induction l as [| x l IH]; intros v Hv Hl; cbn; [exact Hv |].
  apply IH; [| intros y Hy; apply Hl; right; exact Hy].
  destruct (x =? 0) eqn:Ex; [exact Hv |].
  apply Z.eqb_neq in Ex; assert (0 <= x) by (apply Hl; left; reflexivity); lia.
Qed.

(** After any number of rounds, a pixel of the mask holds a positive
    provisional label and a background pixel holds 0. *)
Lemma label_iter_pos m n i j v :
  pxo (Nat.iter n (label_round m) (label_init m)) i j = Some v ->
  if on_mask m i j then 0 < v else v = 0.
Proof.
  revert i j v; induction n as [| n IH]; intros i j v H.
  - cbn [Nat.iter] in H; unfold label_init in H; apply pxo_tabulate in H; subst v.
    destruct (on_mask m i j); [lia | reflexivity].
  - rewrite Nat.iter_succ in H; unfold label_round at 1 in H.
    destruct (pxo_tabulate_range _ _ _ _ _ _ H) as [Hi Hj].
    apply pxo_tabulate in H; subst v.
    destruct (on_mask m i j) eqn:Em; [| reflexivity].
    destruct (label_iter_shape m n) as [g Hg]; rewrite Hg in IH |- *.
    apply min_nonzero_pos.
    + unfold lbl_at; rewrite pxo_tabulate_in by assumption.
      assert (Hp := IH i j (if on_mask m i j then g i j else 0)).
      rewrite pxo_tabulate_in in Hp by assumption.
      specialize (Hp eq_refl); rewrite Em in Hp |- *; exact Hp.
    + intros x Hx; apply in_map_iff in Hx; destruct Hx as (p & <- & _).
      unfold lbl_at; destruct (pxo _ (fst p) (snd p)) as [y |] eqn:Ey; [| lia].
      specialize (IH _ _ _ Ey); destruct (on_mask m (fst p) (snd p)); lia.
Qed.

(** [first_seen]: the distinct nonzero values, without repetition. *)
Lemma first_seen_gen l acc :
  (NoDup acc ->
   NoDup (fold_left (fun acc x => if (x =? 0) || existsb (Z.eqb x) acc then acc else acc ++ [x])
                    l acc))
  /\ (forall y, In y (fold_left (fun acc x => if (x =? 0) || existsb (Z.eqb x) acc
                                               then acc else acc ++ [x]) l acc)
                <-> In y acc \/ (In y l /\ y <> 0)).
Proof.
  revert acc; induction l as [| x l IH]; intro acc; cbn [fold_left].
  - split; [auto | intro y; split; [auto | intros [H | [[] _]]; exact H]].
  - destruct ((x =? 0) || existsb (Z.eqb x) acc) eqn:Ex.
    + destruct (IH acc) as [H1 H2]; split; [exact H1 |].
      intro y; rewrite H2; cbn [In]; split; [intros [H | [H Hy]]; auto |].
      intros [H | [[<- | H] Hy]]; auto.
      apply orb_true_iff in Ex; destruct Ex as [Ex | Ex]; [apply Z.eqb_eq in Ex; congruence |].
      apply existsb_exists in Ex; destruct Ex as (z & Hz & Ez); apply Z.eqb_eq in Ez; subst z.
      left; exact Hz.
    + apply orb_false_iff in Ex; destruct Ex as [Ex0 Ex1].
      destruct (IH (acc ++ [x])) as [H1 H2]; split.
      * intro Hnd; apply H1.
        apply (Permutation_NoDup (Permutation_cons_append acc x)).
        constructor; [| exact Hnd].
        intro Hin; assert (existsb (Z.eqb x) acc = true)
          by (apply existsb_exists; exists x; split; [exact Hin | apply Z.eqb_refl]).
        congruence.
      * intro y; rewrite H2, in_app_iff; cbn [In]; apply Z.eqb_neq in Ex0.
        split; [intros [[H | [<- | []]] | [H Hy]]; auto |].
        intros [H | [[<- | H] Hy]]; auto.
Qed.

Lemma first_seen_NoDup l : NoDup (first_seen l).
Proof. apply (proj1 (first_seen_gen l [])); constructor. Qed.

Lemma first_seen_In l y : In y (first_seen l) <-> In y l /\ y <> 0.
Proof.
  unfold first_seen; rewrite (proj2 (first_seen_gen l [])); cbn [In].
  split; [intros [[] | H]; exact H | auto].
Qed.

Lemma index_of_lt x l : In x l -> (index_of x l < length l)%nat.
Proof.
  induction l as [| y l IH]; intro Hin; [destruct Hin |]; destruct Hin as [<- | H]; cbn.
  - rewrite Z.eqb_refl; lia.
  - destruct (x =? y); [lia | specialize (IH H); lia].
Qed.

Lemma nth_index_of x l : In x l -> nth (index_of x l) l 0 = x.
Proof.
  induction l as [| y l IH]; intro Hin; [destruct Hin |]; destruct Hin as [<- | H]; cbn.
  - rewrite Z.eqb_refl; reflexivity.
  - destruct (x =? y) eqn:E; [apply Z.eqb_eq in E; congruence | exact (IH H)].
Qed.

Lemma index_of_nth l k : NoDup l -> (k < length l)%nat -> index_of (nth k l 0) l = k.
Proof.
  revert k; induction l as [| y l IH]; intros k Hnd Hk; [cbn in Hk; lia |].
  apply NoDup_cons_iff in Hnd; destruct Hnd as [Hy Hnd].
  destruct k as [| k]; cbn; [rewrite Z.eqb_refl; reflexivity |].
  cbn in Hk; destruct (nth k l 0 =? y) eqn:E.
  - apply Z.eqb_eq in E; exfalso; apply Hy; rewrite <- E; apply nth_In; lia.
  - rewrite IH by (auto; lia); reflexivity.
Qed.

(** The values of [renumber L]: 0 where [L] has 0, and exactly
    [1, ..., n] for the [n] distinct nonzero values of [L]. *)
Lemma renumber_values L v :
  In v (concat (renumber L))
  <-> (v = 0 /\ In 0 (concat L))
      \/ (1 <= v <= Z.of_nat (length (first_seen (concat L)))).
Proof.
  unfold renumber; rewrite concat_map_map, in_map_iff.
  set (r := first_seen (concat L)); split.
  - intros (x & <- & Hx); destruct (x =? 0) eqn:E.
    + apply Z.eqb_eq in E; subst x; left; auto.
    + right; apply Z.eqb_neq in E.
      assert (Hr : In x r) by (apply first_seen_In; auto).
      apply index_of_lt in Hr; lia.
  - intros [[-> H0] | Hv].
    + exists 0; split; [reflexivity | exact H0].
    + set (k := (Z.to_nat v - 1)%nat).
      assert (Hk : (k < length r)%nat) by (unfold k; lia).
      exists (nth k r 0).
      assert (Hin : In (nth k r 0) r) by (apply nth_In; exact Hk).
      apply first_seen_In in Hin as Hin'; destruct Hin' as [Hx Hx0].
      split; [| exact Hx].
      apply Z.eqb_neq in Hx0; rewrite Hx0.
      rewrite index_of_nth by first [apply first_seen_NoDup | exact Hk]; unfold k; lia.
Qed.

Lemma renumber_nil L : concat (renumber L) = [] <-> concat L = [].
Proof.
  unfold renumber; rewrite concat_map_map; split; [| intros ->; reflexivity].
  destruct (concat L); [reflexivity | discriminate].
Qed.

(** ** When the size filter raises *)

Lemma opt_map_None {A B} (f : A -> option B) l :
  opt_map f l = None <-> exists x, In x l /\ f x = None.
Proof.
  induction l as [| x l IH]; cbn.
  - split; [discriminate | intros (? & [] & _)].
  - destruct (f x) eqn:Ex; destruct (opt_map f l) eqn:El.
    + split; [discriminate |]; intros (y & [<- | Hy] & Hf); [congruence |].
      assert (H : Some l0 = None) by (apply IH; eauto); discriminate.
    + split; [intros _ | reflexivity].
      destruct (proj1 IH eq_refl) as (y & Hy & Hf); eauto.
    + split; [intros _; eauto | reflexivity].
    + split; [intros _; eauto | reflexivity].
Qed.

Lemma fancy_index_None a L :
  fancy_index a L = None <-> exists v, In v (concat L) /\ np_index a v = None.
Proof.
  unfold fancy_index; split.
  - intro H; apply opt_map_None in H; destruct H as (row & Hr & Hn).
    apply opt_map_None in Hn; destruct Hn as (v & Hv & Hn).
    exists v; split; [apply in_concat; eauto | exact Hn].
  - intros (v & Hv & Hn); apply in_concat in Hv; destruct Hv as (row & Hr & Hv).
    apply (proj2 (opt_map_None _ _)).
    exists row; split; [exact Hr | apply opt_map_None; eauto].
Qed.

Lemma np_index_nonneg_None a v : 0 <= v -> (np_index a v = None <-> (length a <= Z.to_nat v)%nat).
Proof.
  intro Hv; unfold np_index; destruct (v <? 0) eqn:E; [apply Z.ltb_lt in E; lia |].
  apply nth_error_None.
Qed.

Lemma in_map_of_nat_seq s n y : In y (map Z.of_nat (seq s n)) <-> Z.of_nat s <= y < Z.of_nat (s + n).
Proof.
  rewrite in_map_iff; split.
  - intros (k & <- & Hk); apply in_seq in Hk; lia.
  - intro Hy; exists (Z.to_nat y); split; [lia | apply in_seq; lia].
Qed.

Lemma NoDup_map_of_nat_seq s n : NoDup (map Z.of_nat (seq s n)).
Proof.
  revert s; induction n as [| n IH]; intro s; cbn; [constructor |].
  constructor; [| apply IH].
  rewrite in_map_of_nat_seq; lia.
Qed.

(** [segment] raises exactly when the label image has pixels but no
    background: the size table then has one entry per label [1..n] at the
    positions [0..n-1], and label [n] indexes past its end. *)
Lemma segment_None avg thr cut :
  segment avg thr cut = None
  <-> concat (fst (ndimage_label (img_gt avg thr))) <> []
      /\ ~ In 0 (concat (fst (ndimage_label (img_gt avg thr)))).
Proof.
  unfold segment; cbv zeta.
  set (m := img_gt avg thr).
  set (Lf := Nat.iter (nrows m * ncols m) (label_round m) (label_init m)).
  set (R := fst (ndimage_label m)).
  assert (HR : R = renumber Lf) by reflexivity.
  set (k := length (first_seen (concat Lf))).
  assert (Hval : forall v, In v (concat R) <-> (v = 0 /\ In 0 (concat Lf)) \/ 1 <= v <= Z.of_nat k)
    by (intro v; rewrite HR; apply renumber_values).
  set (U := np_unique R).
  assert (HU : forall y, In y U <-> In y (concat R)) by (intro y; apply uniq_In).
  assert (HnU : NoDup U) by (apply sorted_NoDup, uniq_sorted).
  set (filt := map (fun s => Qlt_bool (inject_Z (Z.of_nat s)) cut) (map (np_sum_eq R) U)).
  assert (Hlen : length filt = length U) by (unfold filt; rewrite !length_map; reflexivity).
  assert (Hnn : forall v, In v (concat R) -> 0 <= v)
    by (intros v Hv; apply Hval in Hv; lia).
  assert (Hcore : fancy_index filt R = None <-> concat R <> [] /\ ~ In 0 (concat R)).
  { rewrite fancy_index_None; split.
    - intros (v & Hv & Hn); rewrite (np_index_nonneg_None _ _ (Hnn v Hv)), Hlen in Hn.
      split; [intro E; rewrite E in Hv; destruct Hv |].
      intro H0.
      assert (H0' : In 0 (concat Lf)) by (apply Hval in H0; destruct H0 as [[_ H0] | H0]; [exact H0 | lia]).
      assert (Hinc : incl (map Z.of_nat (seq 0 (S k))) U).
      { intros y Hy; apply in_map_of_nat_seq in Hy; apply HU, Hval.
        destruct (Z.eq_dec y 0) as [-> | Hy0]; [left; auto | right; lia]. }
      apply (NoDup_incl_length (NoDup_map_of_nat_seq 0 (S k))) in Hinc.
      rewrite length_map, length_seq in Hinc.
      apply Hval in Hv; lia.
    - intros [Hne H0].
      assert (Hex : exists v0, In v0 (concat R))
        by (destruct (concat R) as [| v0 ?]; [congruence | exists v0; left; reflexivity]).
      destruct Hex as [v0 Hv0].
      assert (Hk : 1 <= Z.of_nat k).
      { apply Hval in Hv0 as Hv0'; destruct Hv0' as [[-> _] | Hv0']; [| lia].
        exfalso; exact (H0 Hv0). }
      exists (Z.of_nat k); split; [apply Hval; right; lia |].
      rewrite (np_index_nonneg_None filt (Z.of_nat k) ltac:(lia)), Hlen, Nat2Z.id.
      assert (Hinc : incl U (map Z.of_nat (seq 1 k))).
      { intros y Hy; apply HU in Hy; apply in_map_of_nat_seq.
        assert (y <> 0) by (intro; subst y; contradiction).
        apply Hval in Hy; lia. }
      apply (NoDup_incl_length HnU) in Hinc; rewrite length_map, length_seq in Hinc; exact Hinc. }
  destruct (fancy_index filt R) eqn:E.
  - split; [discriminate | intro H; apply Hcore in H; discriminate].
  - split; [intros _; apply Hcore; reflexivity | reflexivity].
Qed.

Lemma Qlt_bool_iff a b : Qlt_bool a b = true <-> (a < b)%Q.
Proof.
  unfold Qlt_bool; rewrite negb_true_iff; split.
  - intro H; apply Qnot_le_lt; intro Hle; apply Qle_bool_iff in Hle; congruence.
  - intro H; apply not_true_iff_false; intro Hle; apply Qle_bool_iff in Hle.
    apply (Qlt_not_le _ _ H Hle).
Qed.

Lemma pxo_pixel w h (f : Img) i j :
  has_shape w h f -> (i < w)%nat -> (j < h)%nat -> pxo f i j = Some (pixel f i j).
Proof.
  intros [Hw Hh] Hi Hj; unfold pxo, pixel.
  rewrite (nth_error_nth' f []) by lia.
  apply nth_error_nth'.
  rewrite Forall_forall in Hh; rewrite Hh; [exact Hj |].
  apply nth_In; lia.
Qed.

Lemma img_gt_dims w h avg thr :
  has_shape w h avg -> nrows (img_gt avg thr) = w
  /\ ((0 < nrows (img_gt avg thr))%nat -> ncols (img_gt avg thr) = h).
Proof.
  intros [Hw Hh]; unfold img_gt, nrows, ncols; rewrite length_map; split; [exact Hw |].
  destruct avg as [| r0 rest]; cbn; [lia |]; intros _.
  rewrite length_map; inversion Hh; assumption.
Qed.

(** [Segmentation.make]'s body raises for a [w x h] average frame exactly
    when the frame has pixels and every one of them exceeds the threshold. *)
Lemma segment_None_shape avg thr cut w h :
  has_shape w h avg ->
  segment avg thr cut = None
  <-> (0 < w)%nat /\ (0 < h)%nat
      /\ forall i j, (i < w)%nat -> (j < h)%nat -> (thr < pixel avg i j)%Q.
Proof.
  intro Hs; rewrite segment_None.
  set (m := img_gt avg thr).
  destruct (img_gt_dims w h avg thr Hs) as [Hr Hc]; fold m in Hr, Hc.
  set (n := (nrows m * ncols m)%nat).
  destruct (label_iter_shape m n) as [g Hg].
  set (G := fun i j => if on_mask m i j then g i j else 0) in Hg.
  assert (HR : fst (ndimage_label m) = renumber (tabulate (nrows m) (ncols m) G))
    by (rewrite <- Hg; reflexivity).
  rewrite HR.
  assert (Hmask : forall i j, (i < w)%nat -> (j < h)%nat ->
            on_mask m i j = Qlt_bool thr (pixel avg i j)).
  { intros i j Hi Hj; unfold on_mask, m, img_gt; rewrite pxo_map, (pxo_pixel w h) by assumption.
    cbn; destruct (Qlt_bool thr (pixel avg i j)); reflexivity. }
  assert (Hpos : forall i j, (i < nrows m)%nat -> (j < ncols m)%nat ->
            if on_mask m i j then 0 < G i j else G i j = 0).
  { intros i j Hi Hj; apply (label_iter_pos m n); fold n; rewrite Hg.
    apply pxo_tabulate_in; assumption. }
  assert (Hne : concat (renumber (tabulate (nrows m) (ncols m) G)) <> []
                <-> (0 < nrows m)%nat /\ (0 < ncols m)%nat).
  { split.
    - intro H; destruct (concat (tabulate (nrows m) (ncols m) G)) as [| v rest] eqn:E.
      + exfalso; apply H; apply renumber_nil; exact E.
      + assert (Hv : In v (concat (tabulate (nrows m) (ncols m) G))) by (rewrite E; left; auto).
        apply in_concat_tabulate in Hv; destruct Hv as (i & j & Hi & Hj & _); lia.
    - intros [H1 H2] H; apply (proj1 (renumber_nil _)) in H.
      assert (Hv : In (G 0%nat 0%nat) (concat (tabulate (nrows m) (ncols m) G)))
        by (apply in_concat_tabulate; exists 0%nat, 0%nat; auto).
      rewrite H in Hv; destruct Hv. }
  assert (H0 : In 0 (concat (renumber (tabulate (nrows m) (ncols m) G)))
               <-> exists i j, (i < nrows m)%nat /\ (j < ncols m)%nat /\ on_mask m i j = false).
  { rewrite renumber_values, in_concat_tabulate; split.
    - intros [[_ (i & j & Hi & Hj & E)] | H]; [| lia].
      exists i, j; split; [exact Hi | split; [exact Hj |]].
      specialize (Hpos i j Hi Hj); destruct (on_mask m i j); [lia | reflexivity].
    - intros (i & j & Hi & Hj & E); left; split; [reflexivity |].
      exists i, j; split; [exact Hi | split; [exact Hj |]].
      specialize (Hpos i j Hi Hj); rewrite E in Hpos; auto. }
  rewrite Hne, H0; split.
  - intros [[Hn1 Hn2] Hn0]; specialize (Hc Hn1); rewrite Hr, Hc in *.
    split; [exact Hn1 | split; [exact Hn2 |]].
    intros i j Hi Hj; apply Qlt_bool_iff.
    destruct (Qlt_bool thr (pixel avg i j)) eqn:E; [reflexivity |].
    exfalso; apply Hn0; exists i, j; rewrite Hmask by assumption; auto.
  - intros (Hw & Hh & Hall); rewrite <- Hr in Hw; specialize (Hc Hw); rewrite Hr in Hw.
    rewrite Hr, Hc; split; [split; assumption |].
    intros (i & j & Hi & Hj & E); rewrite Hmask in E by assumption.
    specialize (Hall i j Hi Hj); apply Qlt_bool_iff in Hall; congruence.
Qed.

Lemma ins_all_err {S R} (ins : R -> S -> outcome S) (P : error -> Prop) :
  (forall r s e, ins r s = Err e -> P e) -> forall rs s e, ins_all ins rs s = Err e -> P e.
Proof.
  intros Hins rs; induction rs as [| r rs IH]; intros s e H; cbn in H; [discriminate |].
  destruct (ins r s) eqn:E; [exact (IH _ _ H) | injection H as <-; exact (Hins _ _ _ E)].
Qed.

Lemma guard_err b e k e' : guard b e k = Err e' -> e' = e \/ k = Err e'.
Proof. unfold guard; destruct b; intro H; [right; exact H | injection H as <-; left; reflexivity]. Qed.

Lemma ins_Roi_err_kind r s e : ins_Roi r s = Err e -> e = DuplicateError \/ e = IntegrityError.
Proof.
  unfold ins_Roi; intro H; apply guard_err in H; destruct H as [H | H]; [left; exact H |].
  apply guard_err in H; destruct H as [H | H]; [right; exact H | discriminate].
Qed.

Lemma ins_Segmentation_err_kind r s e :
  ins_Segmentation r s = Err e -> e = DuplicateError \/ e = IntegrityError.
Proof.
  unfold ins_Segmentation; intro H; apply guard_err in H; destruct H as [H | H]; [left; exact H |].
  apply guard_err in H; destruct H as [H | H]; [right; exact H | discriminate].
Qed.

Lemma Segmentation_make_fetched key d af sp :
  filter (fun r => ScanKey_eqb (af_key r) (sg_scan key)) (AverageFrame d) = [af] ->
  filter (fun r => Z.eqb (sp_id r) (seg_param_id key)) (SegmentationParam d) = [sp] ->
  Segmentation_make key d
  = match segment (average_frame af) (threshold sp) (size_cutoff sp) with
    | None => ([Out (MsgPopulatingSeg key)], Err IndexError)
    | Some (L, labels) =>
        match ins_Segmentation (mkSegmentationRow key L) d with
        | Err e => ([Out (MsgPopulatingSeg key)], Err e)
        | Ok d1 =>
            match ins_all ins_Roi (rois_of key L labels) d1 with
            | Err e => ([Out (MsgPopulatingSeg key); Step d1;
                         Out (MsgDetected (length (rois_of key L labels)))], Err e)
            | Ok d2 => ([Out (MsgPopulatingSeg key); Step d1;
                         Out (MsgDetected (length (rois_of key L labels))); Step d2], Ok (tt, d2))
            end
        end
    end.
Proof.
  intros H1 H2.
  unfold Segmentation_make at 1, fetch1, print, bind, raise, insert1, insert, update.
  cbn beta iota zeta; rewrite H1, H2; cbn beta iota zeta.
  destruct (segment (average_frame af) (threshold sp) (size_cutoff sp)) as [[L labels] |];
    [| reflexivity].
  destruct (ins_Segmentation (mkSegmentationRow key L) d) as [d1 |]; [| reflexivity].
  unfold rois_of; destruct (ins_all ins_Roi _ d1); reflexivity.
Qed.

(** X1. Let the key's AverageFrame and SegmentationParam rows be found, with
    an average frame of [w] rows of [h] values. Then [Segmentation.make]
    raises [IndexError] exactly when the frame is non-empty and exceeds the
    threshold at every pixel, and it then has only printed its first line:
    nothing is written. *)
Theorem Segmentation_make_IndexError key d af sp w h :
  filter (fun r => ScanKey_eqb (af_key r) (sg_scan key)) (AverageFrame d) = [af] ->
  filter (fun r => Z.eqb (sp_id r) (seg_param_id key)) (SegmentationParam d) = [sp] ->
  has_shape w h (average_frame af) ->
  (snd (Segmentation_make key d) = Err IndexError
   <-> (0 < w)%nat /\ (0 < h)%nat
       /\ forall i j, (i < w)%nat -> (j < h)%nat -> (threshold sp < pixel (average_frame af) i j)%Q)
  /\ (snd (Segmentation_make key d) = Err IndexError ->
      fst (Segmentation_make key d) = [Out (MsgPopulatingSeg key)]).
Proof.
  intros H1 H2 Hs; rewrite (Segmentation_make_fetched key d af sp H1 H2).
  rewrite <- (segment_None_shape _ (threshold sp) (size_cutoff sp) w h Hs).
  destruct (segment (average_frame af) (threshold sp) (size_cutoff sp)) as [[L labels] |];
    [| split; [split; reflexivity | reflexivity]].
  assert (Hne : forall e, (e = DuplicateError \/ e = IntegrityError) -> Err e <> @Err (unit * db) IndexError)
    by (intros e [-> | ->]; discriminate).
  destruct (ins_Segmentation (mkSegmentationRow key L) d) as [d1 |] eqn:E4.
  - destruct (ins_all ins_Roi (rois_of key L labels) d1) as [d2 |] eqn:E5; cbn [snd fst].
    + split; [split; discriminate | discriminate].
    + assert (He := ins_all_err ins_Roi _ ins_Roi_err_kind _ _ _ E5).
      split; [split; [intro H; exfalso; exact (Hne e He H) | discriminate] |].
      intro H; exfalso; exact (Hne e He H).
  - assert (He := ins_Segmentation_err_kind _ _ _ E4); cbn [snd fst].
    split; [split; [intro H; exfalso; exact (Hne e He H) | discriminate] |].
    intro H; exfalso; exact (Hne e He H).
Qed.

Lemma segment_all_below avg thr cut :
  (forall i j a, pxo avg i j = Some a -> (a <= thr)%Q) ->
  exists L labels, segment avg thr cut = Some (L, labels) /\ labels = []
                   /\ forall v, In v (concat L) -> v = 0.
Proof.
  intro Hle.
  set (m := img_gt avg thr).
  assert (Hoff : forall i j, on_mask m i j = false).
  { intros i j; unfold on_mask, m, img_gt; rewrite pxo_map.
    destruct (pxo avg i j) as [a |] eqn:E; cbn; [| reflexivity].
    destruct (Qlt_bool thr a) eqn:Ea; [| reflexivity].
    apply Qlt_bool_iff in Ea; specialize (Hle i j a E).
    exfalso; apply (Qlt_not_le _ _ Ea Hle). }
  assert (Hzero : forall v, In v (concat (fst (ndimage_label m))) -> v = 0).
  { unfold ndimage_label; cbn [fst].
    destruct (label_iter_shape m (nrows m * ncols m)) as [g Hg]; rewrite Hg.
    set (G := fun i j => if on_mask m i j then g i j else 0).
    assert (HG : forall v, In v (concat (tabulate (nrows m) (ncols m) G)) -> v = 0).
    { intros v Hv; apply in_concat_tabulate in Hv; destruct Hv as (i & j & _ & _ & ->).
      unfold G; rewrite Hoff; reflexivity. }
    assert (Hfs : first_seen (concat (tabulate (nrows m) (ncols m) G)) = []).
    { destruct (first_seen (concat (tabulate (nrows m) (ncols m) G))) as [| y rest] eqn:E;
        [reflexivity | exfalso].
      assert (Hy : In y (first_seen (concat (tabulate (nrows m) (ncols m) G))))
        by (rewrite E; left; reflexivity).
      apply first_seen_In in Hy; destruct Hy as [Hy Hy0]; exact (Hy0 (HG y Hy)). }
    intros v Hv; apply renumber_values in Hv; rewrite Hfs in Hv; cbn in Hv; lia. }
  destruct (segment avg thr cut) as [[L labels] |] eqn:E.
  - exists L, labels; split; [reflexivity |].
    assert (HL : forall v, In v (concat L) -> v = 0).
    { intros v Hv; apply in_concat_pxo in Hv; destruct Hv as (i & j & Hv).
      destruct (Z.eq_dec v 0) as [| Hv0]; [assumption | exfalso].
      destruct (segment_pixels _ _ _ _ _ E i j v Hv Hv0) as (a & Ha & Hlt).
      exact (Qlt_not_le _ _ Hlt (Hle i j a Ha)). }
    split; [| exact HL].
    destruct labels as [| i0 rest]; [reflexivity | exfalso].
    destruct (segment_spec _ _ _ _ _ E) as [Hlab _].
    destruct (proj1 (Hlab i0) (or_introl eq_refl)) as [Hi0 Hin].
    exact (Hi0 (HL i0 Hin)).
  - exfalso; apply segment_None in E; fold m in E; destruct E as [Hne H0].
    destruct (concat (fst (ndimage_label m))) as [| v rest] eqn:Ec; [exact (Hne eq_refl) |].
    apply H0; rewrite <- (Hzero v (or_introl eq_refl)); left; reflexivity.
Qed.

(** X2. When no pixel of the average frame exceeds the threshold and the key
    has no Segmentation row yet, [Segmentation.make] succeeds: it inserts one
    Segmentation row whose [segmented_masks] is all zeros, prints
    [Detected 0 ROIs!] and inserts no Roi row. *)
Theorem Segmentation_make_below_threshold key d af sp :
  filter (fun r => ScanKey_eqb (af_key r) (sg_scan key)) (AverageFrame d) = [af] ->
  filter (fun r => Z.eqb (sp_id r) (seg_param_id key)) (SegmentationParam d) = [sp] ->
  has_Segmentation d key = false ->
  (forall i j a, pxo (average_frame af) i j = Some a -> (a <= threshold sp)%Q) ->
  exists L,
    Segmentation_make key d
    = ([Out (MsgPopulatingSeg key);
        Step (set_Segmentation d (Segmentation d ++ [mkSegmentationRow key L]));
        Out (MsgDetected 0);
        Step (set_Segmentation d (Segmentation d ++ [mkSegmentationRow key L]))],
       Ok (tt, set_Segmentation d (Segmentation d ++ [mkSegmentationRow key L])))
    /\ forall v, In v (concat L) -> v = 0.
Proof.
  intros H1 H2 Hnew Hle.
  destruct (segment_all_below (average_frame af) (threshold sp) (size_cutoff sp) Hle)
    as (L & labels & Hseg & -> & HL).
  exists L; split; [| exact HL].
  rewrite (Segmentation_make_fetched key d af sp H1 H2), Hseg.
  assert (Haf : has_AverageFrame d (sg_scan key) = true).
  { apply existsb_exists; exists af; exact (in_filter_single _ _ _ H1). }
  assert (Hsp : has_SegmentationParam d (seg_param_id key) = true).
  { apply existsb_exists; exists sp; exact (in_filter_single _ _ _ H2). }
  unfold ins_Segmentation, guard; cbn [sg_key]; rewrite Hnew, Haf, Hsp; reflexivity.
Qed.

Lemma has_dims_map {A B} (f : A -> B) w h X : has_dims w h X -> has_dims w h (map (map f) X).
Proof.
  intros [Hl Hr]; split; [rewrite length_map; exact Hl |].
  rewrite Forall_map; eapply Forall_impl; [| exact Hr]; intros r H; rewrite length_map; exact H.
Qed.

Lemma has_dims_tabulate {A} h w (g : nat -> nat -> A) : has_dims h w (tabulate h w g).
Proof.
  unfold tabulate; split; [rewrite length_map, length_seq; reflexivity |].
  apply Forall_map, Forall_forall; intros i _; rewrite length_map, length_seq; reflexivity.
Qed.

Lemma segment_form avg thr cut L labels :
  segment avg thr cut = Some (L, labels) ->
  exists (f : Z -> Z) (G : nat -> nat -> Z),
    L = map (map f) (tabulate (nrows (img_gt avg thr)) (ncols (img_gt avg thr)) G).
Proof.
  unfold segment.
  set (label_im := fst (ndimage_label (img_gt avg thr))).
  set (filt := map _ (map (np_sum_eq label_im) (np_unique label_im))).
  destruct (fancy_index filt label_im) as [P |] eqn:E; [| discriminate].
  intro H; injection H as HL _.
  destruct (fancy_index_eq _ _ _ E) as [HP _]; subst P.
  rewrite assign_zero_eq in HL; subst L.
  unfold label_im, ndimage_label, renumber; cbn [fst].
  destruct (label_iter_shape (img_gt avg thr) (nrows (img_gt avg thr) * ncols (img_gt avg thr)))
    as [g Hg].
  rewrite Hg, map_map.
  eexists; eexists; apply map_ext; intro row; rewrite map_map; reflexivity.
Qed.

Lemma segment_dims avg thr cut L labels w h :
  has_shape w h avg -> segment avg thr cut = Some (L, labels) -> has_dims w h L.
Proof.
  intros Hs H; destruct (segment_form _ _ _ _ _ H) as (f & G & ->).
  apply has_dims_map.
  destruct (img_gt_dims w h avg thr Hs) as [Hr Hc].
  destruct (Nat.eq_dec w 0) as [-> | Hw].
  - rewrite Hr; split; [reflexivity | constructor].
  - rewrite Hc by lia; rewrite Hr; apply has_dims_tabulate.
Qed.

(** X3. On success, [segmented_masks] and every Roi [mask] have the shape of
    the average frame: [w] rows of [h] values. *)
Theorem Segmentation_make_shapes key d af w h u d' :
  filter (fun r => ScanKey_eqb (af_key r) (sg_scan key)) (AverageFrame d) = [af] ->
  has_shape w h (average_frame af) ->
  snd (Segmentation_make key d) = Ok (u, d') ->
  exists L rois,
    Segmentation d' = Segmentation d ++ [mkSegmentationRow key L]
    /\ Roi d' = Roi d ++ rois
    /\ has_dims w h L
    /\ forall r, In r rois -> has_dims w h (mask r).
Proof.
  intros H1 Hs H; destruct (Segmentation_make_run _ _ _ _ H)
    as (af' & sp & L & labels & d1 & E1 & E2 & E3 & E4 & E5 & _).
  rewrite H1 in E1; injection E1 as <-.
  apply ins_Segmentation_ok in E4; destruct E4 as (_ & _ & _ & ->).
  apply ins_all_Roi_ok in E5; subst d'.
  assert (HL := segment_dims _ _ _ _ _ w h Hs E3).
  exists L, (rois_of key L labels); split; [reflexivity |]; split; [reflexivity |].
  split; [exact HL |].
  intros r Hr; unfold rois_of in Hr; apply in_map_iff in Hr; destruct Hr as (i & <- & _).
  apply has_dims_map; exact HL.
Qed.

Lemma pxo_img_eq L i p q : pxo (img_eq L i) p q = Some true <-> pxo L p q = Some i.
Proof.
  unfold img_eq; rewrite pxo_map; destruct (pxo L p q) as [v |]; cbn; [| split; discriminate].
  split; intro H; injection H as H; [apply Z.eqb_eq in H; subst; reflexivity | subst; rewrite Z.eqb_refl; reflexivity].
Qed.

(** X4. On success, the Roi masks partition the nonzero pixels of the stored
    label image: a mask is [True] exactly where the label image holds the
    row's [roi_idx]; every mask has a [True] pixel; no pixel is [True] in two
    different Roi rows; and every nonzero pixel is [True] in some mask. *)
Theorem Segmentation_make_roi_masks key d u d' :
  snd (Segmentation_make key d) = Ok (u, d') ->
  exists L rois,
    Segmentation d' = Segmentation d ++ [mkSegmentationRow key L]
    /\ Roi d' = Roi d ++ rois
    /\ (forall r i j, In r rois ->
          pxo (mask r) i j = Some true <-> pxo L i j = Some (roi_idx (ro_key r)))
    /\ (forall r, In r rois -> exists i j, pxo (mask r) i j = Some true)
    /\ (forall r1 r2 i j, In r1 rois -> In r2 rois ->
          pxo (mask r1) i j = Some true -> pxo (mask r2) i j = Some true -> r1 = r2)
    /\ (forall i j v, pxo L i j = Some v -> v <> 0 ->
          exists r, In r rois /\ pxo (mask r) i j = Some true).
Proof.
  intro H; destruct (Segmentation_make_run _ _ _ _ H)
    as (af & sp & L & labels & d1 & E1 & E2 & E3 & E4 & E5 & _).
  destruct (segment_spec _ _ _ _ _ E3) as (S1 & _).
  apply ins_Segmentation_ok in E4; destruct E4 as (_ & _ & _ & ->).
  apply ins_all_Roi_ok in E5; subst d'.
  assert (Hrois : forall r, In r (rois_of key L labels) <->
                    exists i, r = mkRoiRow (mkRoiKey key i) (img_eq L i) /\ In i labels).
  { intro r; unfold rois_of; rewrite in_map_iff; split;
      intros (i & H1 & H2); exists i; auto. }
  exists L, (rois_of key L labels); split; [reflexivity |]; split; [reflexivity |].
  split; [| split; [| split]].
  - intros r i j Hr; apply Hrois in Hr; destruct Hr as (k & -> & _); apply pxo_img_eq.
  - intros r Hr; apply Hrois in Hr; destruct Hr as (k & -> & Hk).
    apply S1 in Hk; destruct Hk as [_ Hk]; apply in_concat_pxo in Hk.
    destruct Hk as (i & j & Hij); exists i, j; apply pxo_img_eq; exact Hij.
  - intros r1 r2 i j Hr1 Hr2 Hm1 Hm2.
    apply Hrois in Hr1, Hr2; destruct Hr1 as (k1 & -> & _), Hr2 as (k2 & -> & _).
    apply pxo_img_eq in Hm1, Hm2; rewrite Hm1 in Hm2; injection Hm2 as <-; reflexivity.
  - intros i j v Hv Hv0.
    assert (Hin : In v labels).
    { apply S1; split; [exact Hv0 | apply in_concat_pxo; exists i, j; exact Hv]. }
    exists (mkRoiRow (mkRoiKey key v) (img_eq L v)); split.
    + apply Hrois; exists v; auto.
    + apply pxo_img_eq; exact Hv.
Qed.

Lemma ins_Trace_ok r d d' :
  ins_Trace r d = Ok d' -> d' = set_Trace d (Trace d ++ [r]).
Proof.
  unfold ins_Trace, guard.
  destruct (has_Trace d (tr_key r)); cbn; [discriminate |].
  destruct (has_Fluorescence d _ && has_Roi d _); cbn; [| discriminate].
  intro H; injection H as <-; reflexivity.
Qed.

Lemma ins_all_Trace_ok ts d d' :
  ins_all ins_Trace ts d = Ok d' -> d' = set_Trace d (Trace d ++ ts).
Proof.
  revert d; induction ts as [| t ts IH]; intros d H; cbn in H.
  - injection H as <-; destruct d; cbn; rewrite app_nil_r; reflexivity.
  - destruct (ins_Trace t d) as [d1 |] eqn:E; [| discriminate].
    apply ins_Trace_ok in E; subst d1.
    rewrite (IH _ H); cbn; rewrite <- app_assoc; reflexivity.
Qed.

Lemma Forall2_map_r {A B} (P : A -> B -> Prop) (g : A -> B) l :
  (forall x, In x l -> P x (g x)) -> Forall2 P l (map g l).
Proof.
  induction l as [| x l IH]; intro H; cbn; constructor.
  - apply H; left; reflexivity.
  - apply IH; intros y Hy; apply H; right; exact Hy.
Qed.

(** X5. On success, [Fluorescence.make] adds one Fluorescence row whose
    [time] is [t / fps] for [t = 0 .. n-1] ([n] frames in the tif) and, for
    each Roi row of the key in table order, one Trace row with that Roi's
    key whose value at frame [t] is the mean of frame [t] over the mask;
    every mask has as many pixels as a frame. No other table changes. *)
Theorem Fluorescence_make_traces fs key d u d' :
  snd (Fluorescence_make fs key d) = Ok (u, d') ->
  exists se sc im traces,
    filter (session_of (sg_scan key)) (Session d) = [se]
    /\ filter (scan_of (sg_scan key)) (Scan d) = [sc]
    /\ fs (path_join (data_path se) (file_name sc)) = Some im
    /\ d' = set_Trace
              (set_Fluorescence d (Fluorescence d ++
                 [mkFluorescenceRow key
                    (map (fun t => (inject_Z (Z.of_nat t) / fps sc)%Q) (seq 0 (length im)))]))
              (Trace d ++ traces)
    /\ Forall2 (fun r tr =>
                  tr_key tr = ro_key r
                  /\ length (concat (mask r)) = (nrows (hd [] im) * ncols (hd [] im))%nat
                  /\ trace tr = map (fun frame => q_mean (select (concat frame) (concat (mask r)))) im)
               (filter (fun r => SegKey_eqb (ro_seg (ro_key r)) key) (Roi d)) traces.
Proof.
  unfold Fluorescence_make, fetch1, fetch, gets, load, insert1, insert, update, print, bind;
    intro H; simpl in H.
  destruct (filter (session_of (sg_scan key)) (Session d)) as [| se [| ? ?]] eqn:E1;
    simpl in H; try discriminate.
  destruct (filter (scan_of (sg_scan key)) (Scan d)) as [| sc [| ? ?]] eqn:E2;
    simpl in H; try discriminate.
  destruct (fs _) as [im |] eqn:E3; simpl in H; try discriminate.
  rewrite E2 in H; simpl in H.
  match type of H with context [ins_Fluorescence ?r d] =>
    destruct (ins_Fluorescence r d) as [d1 |] eqn:E4 end; simpl in H; try discriminate.
  apply ins_Fluorescence_ok in E4; destruct E4 as (_ & _ & ->).
  rewrite mapM_ret_raise in H.
  match type of H with context [forallb ?c ?l] => destruct (forallb c l) eqn:Ec end;
    simpl in H; try discriminate.
  match type of H with context [ins_all ins_Trace ?ts ?d1] =>
    destruct (ins_all ins_Trace ts d1) as [d2 |] eqn:E6 end; simpl in H; try discriminate.
  injection H as <- <-; apply ins_all_Trace_ok in E6; subst d2.
  do 4 eexists; split; [reflexivity |]; split; [reflexivity |]; split; [exact E3 |].
  split; [reflexivity |].
  cbn [Roi set_Fluorescence] in Ec |- *.
  apply Forall2_map_r; intros r Hr.
  rewrite forallb_forall in Ec; specialize (Ec r Hr); apply Nat.eqb_eq in Ec.
  cbn; split; [reflexivity | split; [exact Ec |]].
  rewrite map_map; reflexivity.
Qed.

(** X6. [AverageFrame.make] fails with [FetchError], before opening any
    file, when the key's Session or Scan row is missing; with
    [FileNotFoundError] after opening only the joined path when the tif is
    missing; and on a key already present in AverageFrame it fails without
    writing anything. *)
Theorem AverageFrame_make_errors fs key d :
  (has_Session d (sc_session key) = false \/ has_Scan d key = false ->
     AverageFrame_make fs key d = ([], Err FetchError))
  /\ (forall se sc,
        filter (session_of key) (Session d) = [se] -> filter (scan_of key) (Scan d) = [sc] ->
        fs (path_join (data_path se) (file_name sc)) = None ->
        AverageFrame_make fs key d
        = ([Read (path_join (data_path se) (file_name sc))],
           Err (FileNotFoundError (path_join (data_path se) (file_name sc)))))
  /\ (has_AverageFrame d key = true ->
        steps (fst (AverageFrame_make fs key d)) = [] /\ exists e, snd (AverageFrame_make fs key d) = Err e).
Proof.
  unfold AverageFrame_make, fetch1, load, insert1, update, print, bind; split; [| split].
  - intros [H | H].
    + assert (Hf : filter (session_of key) (Session d) = []) by (apply existsb_false_filter; exact H).
      simpl; rewrite Hf; reflexivity.
    + assert (Hf : filter (scan_of key) (Scan d) = []) by (apply existsb_false_filter; exact H).
      simpl; destruct (filter (session_of key) (Session d)) as [| se [|]]; simpl;
        [reflexivity | rewrite Hf; reflexivity | reflexivity].
  - intros se sc H1 H2 H3; simpl; rewrite H1; simpl; rewrite H2; simpl; rewrite H3; reflexivity.
  - intro H; simpl.
    destruct (filter (session_of key) (Session d)) as [| se [|]]; simpl;
      try (split; [reflexivity | eexists; reflexivity]).
    destruct (filter (scan_of key) (Scan d)) as [| sc [|]]; simpl;
      try (split; [reflexivity | eexists; reflexivity]).
    destruct (fs _); simpl; [| split; [reflexivity | eexists; reflexivity]].
    unfold ins_AverageFrame, guard; cbn [af_key]; rewrite H; simpl.
    split; [reflexivity | eexists; reflexivity].
Qed.

(** X7. [Segmentation.make] fails with [FetchError], after its first print
    only, when the key's AverageFrame or SegmentationParam row is missing;
    on a key already present in Segmentation it fails without writing
    anything. *)
Theorem Segmentation_make_errors key d :
  (has_AverageFrame d (sg_scan key) = false
   \/ has_SegmentationParam d (seg_param_id key) = false ->
     Segmentation_make key d = ([Out (MsgPopulatingSeg key)], Err FetchError))
  /\ (has_Segmentation d key = true ->
        steps (fst (Segmentation_make key d)) = [] /\ exists e, snd (Segmentation_make key d) = Err e).
Proof.
  split.
  - unfold Segmentation_make, fetch1, print, bind; intros [H | H].
    + assert (Hf : filter (fun r => ScanKey_eqb (af_key r) (sg_scan key)) (AverageFrame d) = [])
        by (apply existsb_false_filter; exact H).
      simpl; rewrite Hf; reflexivity.
    + assert (Hf : filter (fun r => Z.eqb (sp_id r) (seg_param_id key)) (SegmentationParam d) = [])
        by (apply existsb_false_filter; exact H).
      simpl; destruct (filter _ (AverageFrame d)) as [| af [|]]; simpl;
        [reflexivity | rewrite Hf; reflexivity | reflexivity].
  - intro H.
    destruct (filter (fun r => ScanKey_eqb (af_key r) (sg_scan key)) (AverageFrame d))
      as [| af [| af' rest]] eqn:E1.
    1, 3: unfold Segmentation_make, fetch1, print, bind; simpl; rewrite E1; simpl;
          split; [reflexivity | eexists; reflexivity].
    destruct (filter (fun r => Z.eqb (sp_id r) (seg_param_id key)) (SegmentationParam d))
      as [| sp [| sp' rest]] eqn:E2.
    1, 3: unfold Segmentation_make, fetch1, print, bind; simpl; rewrite E1; simpl; rewrite E2; simpl;
          split; [reflexivity | eexists; reflexivity].
    rewrite (Segmentation_make_fetched key d af sp E1 E2).
    destruct (segment _ _ _) as [[L labels] |]; [| split; [reflexivity | eexists; reflexivity]].
    unfold ins_Segmentation, guard; cbn [sg_key]; rewrite H; cbn.
    split; [reflexivity | eexists; reflexivity].
Qed.

Lemma Fluorescence_make_loaded fs key d se sc im :
  filter (session_of (sg_scan key)) (Session d) = [se] ->
  filter (scan_of (sg_scan key)) (Scan d) = [sc] ->
  fs (path_join (data_path se) (file_name sc)) = Some im ->
  Fluorescence_make fs key d
  = match ins_Fluorescence (mkFluorescenceRow key
            (map (fun t => (inject_Z (Z.of_nat t) / fps sc)%Q) (seq 0 (length im)))) d with
    | Err e => ([Out (MsgPopulatingFl key); Read (path_join (data_path se) (file_name sc))], Err e)
    | Ok d1 =>
        let rois := filter (fun r => SegKey_eqb (ro_seg (ro_key r)) key) (Roi d) in
        if forallb (fun r => Nat.eqb (length (concat (mask r))) (nrows (hd [] im) * ncols (hd [] im)))
             rois
        then match ins_all ins_Trace
                     (map (fun r => mkTraceRow (ro_key r)
                                      (map (fun row => q_mean (select row (concat (mask r))))
                                           (map (@concat Q) im))) rois) d1 with
             | Err e => ([Out (MsgPopulatingFl key); Read (path_join (data_path se) (file_name sc));
                          Step d1], Err e)
             | Ok d2 => ([Out (MsgPopulatingFl key); Read (path_join (data_path se) (file_name sc));
                          Step d1; Step d2], Ok (tt, d2))
             end
        else ([Out (MsgPopulatingFl key); Read (path_join (data_path se) (file_name sc)); Step d1],
              Err ValueError)
    end.
Proof.
  intros H1 H2 H3.
  unfold Fluorescence_make, fetch1, fetch, gets, load, insert1, insert, update, print, bind; simpl.
  rewrite H1; simpl; rewrite H2; simpl; rewrite H3; simpl; rewrite H2; simpl.
  match goal with |- context [ins_Fluorescence ?r d] =>
    destruct (ins_Fluorescence r d) as [d1 |] eqn:E4 end; simpl; [| reflexivity].
  apply ins_Fluorescence_ok in E4; destruct E4 as (_ & _ & ->); simpl.
  rewrite mapM_ret_raise.
  match goal with |- context [forallb ?c ?l] => destruct (forallb c l) end; simpl; [| reflexivity].
  match goal with |- context [ins_all ins_Trace ?ts ?d1] =>
    destruct (ins_all ins_Trace ts d1) end; reflexivity.
Qed.

(** X8. [Fluorescence.make] fails with [FetchError] after its first print
    when the key's Session or Scan row is missing; with [FileNotFoundError]
    when the tif is missing; and when the key is already in Fluorescence or
    has no Segmentation row, it fails without writing anything. *)
Theorem Fluorescence_make_errors fs key d :
  (has_Session d (sc_session (sg_scan key)) = false \/ has_Scan d (sg_scan key) = false ->
     Fluorescence_make fs key d = ([Out (MsgPopulatingFl key)], Err FetchError))
  /\ (forall se sc,
        filter (session_of (sg_scan key)) (Session d) = [se] ->
        filter (scan_of (sg_scan key)) (Scan d) = [sc] ->
        fs (path_join (data_path se) (file_name sc)) = None ->
        Fluorescence_make fs key d
        = ([Out (MsgPopulatingFl key); Read (path_join (data_path se) (file_name sc))],
           Err (FileNotFoundError (path_join (data_path se) (file_name sc)))))
  /\ (has_Fluorescence d key = true \/ has_Segmentation d key = false ->
        steps (fst (Fluorescence_make fs key d)) = []
        /\ exists e, snd (Fluorescence_make fs key d) = Err e).
Proof.
  split; [| split].
  - unfold Fluorescence_make, fetch1, print, bind; intros [H | H].
    + assert (Hf : filter (session_of (sg_scan key)) (Session d) = [])
        by (apply existsb_false_filter; exact H).
      simpl; rewrite Hf; reflexivity.
    + assert (Hf : filter (scan_of (sg_scan key)) (Scan d) = [])
        by (apply existsb_false_filter; exact H).
      simpl; destruct (filter (session_of (sg_scan key)) (Session d)) as [| se [|]]; simpl;
        [reflexivity | rewrite Hf; reflexivity | reflexivity].
  - intros se sc H1 H2 H3.
    unfold Fluorescence_make, fetch1, load, print, bind; simpl.
    rewrite H1; simpl; rewrite H2; simpl; rewrite H3; reflexivity.
  - intro H.
    destruct (filter (session_of (sg_scan key)) (Session d)) as [| se [| se' rest]] eqn:E1.
    1, 3: unfold Fluorescence_make, fetch1, print, bind; simpl; rewrite E1; simpl;
          split; [reflexivity | eexists; reflexivity].
    destruct (filter (scan_of (sg_scan key)) (Scan d)) as [| sc [| sc' rest]] eqn:E2.
    1, 3: unfold Fluorescence_make, fetch1, print, bind; simpl; rewrite E1; simpl; rewrite E2; simpl;
          split; [reflexivity | eexists; reflexivity].
    destruct (fs (path_join (data_path se) (file_name sc))) as [im |] eqn:E3.
    2: unfold Fluorescence_make, fetch1, load, print, bind; simpl; rewrite E1; simpl; rewrite E2;
       simpl; rewrite E3; simpl; split; [reflexivity | eexists; reflexivity].
    rewrite (Fluorescence_make_loaded fs key d se sc im E1 E2 E3).
    unfold ins_Fluorescence, guard; cbn [fl_key].
    destruct H as [H | H]; rewrite H; [| destruct (negb (has_Fluorescence d key))]; cbn;
      split; try reflexivity; eexists; reflexivity.
Qed.

Lemma forallb_false_ex {A} (c : A -> bool) l : forallb c l = false -> exists x, In x l /\ c x = false.
Proof.
  induction l as [| x l IH]; cbn; [discriminate |].
  destruct (c x) eqn:E; cbn; intro H.
  - destruct (IH H) as (y & Hy & Hc); exists y; auto.
  - exists x; auto.
Qed.

Lemma ins_Trace_err_kind r s e : ins_Trace r s = Err e -> e = DuplicateError \/ e = IntegrityError.
Proof.
  unfold ins_Trace; intro H; apply guard_err in H; destruct H as [H | H]; [left; exact H |].
  apply guard_err in H; destruct H as [H | H]; [right; exact H | discriminate].
Qed.

(** X9. Once the tif is loaded and the Fluorescence row can be inserted,
    [Fluorescence.make] raises [ValueError] (from
    [np.reshape(mask, [w*h])]) exactly when some Roi row of the key has a
    mask whose size differs from the frame size [w * h]. *)
Theorem Fluorescence_make_ValueError fs key d se sc im :
  filter (session_of (sg_scan key)) (Session d) = [se] ->
  filter (scan_of (sg_scan key)) (Scan d) = [sc] ->
  fs (path_join (data_path se) (file_name sc)) = Some im ->
  has_Fluorescence d key = false -> has_Segmentation d key = true ->
  (snd (Fluorescence_make fs key d) = Err ValueError
   <-> exists r, In r (Roi d) /\ ro_seg (ro_key r) = key
                 /\ length (concat (mask r)) <> (nrows (hd [] im) * ncols (hd [] im))%nat).
Proof.
  intros H1 H2 H3 H4 H5; rewrite (Fluorescence_make_loaded fs key d se sc im H1 H2 H3).
  unfold ins_Fluorescence at 1, guard; cbn [fl_key]; rewrite H4, H5; cbn [negb]; cbn zeta iota beta.
  set (c := fun r : RoiRow =>
              Nat.eqb (length (concat (mask r))) (nrows (hd [] im) * ncols (hd [] im))).
  set (rois := filter (fun r => SegKey_eqb (ro_seg (ro_key r)) key) (Roi d)).
  assert (Hex : forallb c rois = false <->
                exists r, In r (Roi d) /\ ro_seg (ro_key r) = key
                          /\ length (concat (mask r)) <> (nrows (hd [] im) * ncols (hd [] im))%nat).
  { split.
    - intro Hf; destruct (forallb_false_ex c rois Hf) as (r & Hr & Hc).
      unfold rois in Hr; apply filter_In in Hr; destruct Hr as [Hr Hk].
      apply SegKey_eqb_eq in Hk; exists r; split; [exact Hr | split; [exact Hk |]].
      unfold c in Hc; apply Nat.eqb_neq in Hc; exact Hc.
    - intros (r & Hr & Hk & Hn); apply Bool.not_true_iff_false; intro Hf.
      rewrite forallb_forall in Hf.
      assert (Hin : In r rois) by (apply filter_In; split; [exact Hr | apply SegKey_eqb_eq; exact Hk]).
      specialize (Hf r Hin); unfold c in Hf; apply Nat.eqb_eq in Hf; exact (Hn Hf). }
  rewrite <- Hex.
  destruct (forallb c rois); [| split; reflexivity].
  split; [| discriminate].
  match goal with |- context [ins_all ins_Trace ?ts ?d1] =>
    destruct (ins_all ins_Trace ts d1) as [d2 | e] eqn:E6 end; cbn; [discriminate |].
  intro He; injection He as ->.
  destruct (ins_all_err ins_Trace _ ins_Trace_err_kind _ _ _ E6); discriminate.
Qed.

Lemma forallb_ext_in {A} (f g : A -> bool) l :
  (forall x, In x l -> f x = g x) -> forallb f l = forallb g l.
Proof.
  induction l as [| x l IH]; intro H; cbn; [reflexivity |].
  rewrite (H x (or_introl eq_refl)), IH; [reflexivity |]; intros y Hy; apply H; right; exact Hy.
Qed.

Lemma Neuron_loop_dups key l s d :
  Ephys.has_Session d key = true ->
  snd (mapM_ (neuron_step key) (combine (seq s (length l)) l) d)
  = if forallb (fun i => negb (Ephys.has_Neuron d key (Z.of_nat i))) (seq s (length l))
    then Ok (tt, Ephys.mkedb (Ephys.Session d)
                   (Ephys.Neuron d ++ neuron_rows key (combine (seq s (length l)) l)))
    else Err DuplicateError.
Proof.
  revert s d; induction l as [| x l IH]; intros s d Hs.
  - cbn; rewrite app_nil_r; destruct d; reflexivity.
  - cbn [length seq combine mapM_ forallb]; rewrite snd_bind; unfold neuron_step at 1.
    rewrite snd_bind; unfold insert1, update, Ephys.ins_Neuron; cbn [fst snd Ephys.nu_key Ephys.neuron_id].
    destruct (Ephys.has_Neuron d key (Z.of_nat s)) eqn:Ed; cbn [negb andb]; [reflexivity |].
    rewrite Hs; cbn [snd print].
    rewrite IH by exact Hs.
    set (d1 := Ephys.mkedb (Ephys.Session d) (Ephys.Neuron d ++ [Ephys.mkNeuronRow key (Z.of_nat s) x])).
    assert (Hn : forall i, In i (seq (S s) (length l)) ->
              negb (Ephys.has_Neuron d1 key (Z.of_nat i)) = negb (Ephys.has_Neuron d key (Z.of_nat i))).
    { intros i Hi; apply in_seq in Hi; unfold d1, Ephys.has_Neuron; cbn [Ephys.Neuron].
      rewrite existsb_app; cbn; rewrite SessionKey_eqb_refl; cbn.
      assert (Hne : (Z.of_nat s =? Z.of_nat i) = false) by (apply Z.eqb_neq; lia).
      rewrite Hne, orb_false_r; reflexivity. }
    rewrite (forallb_ext_in _ _ _ Hn).
    destruct (forallb _ (seq (S s) (length l))); [| reflexivity].
    unfold d1, neuron_rows; cbn; rewrite <- app_assoc; reflexivity.
Qed.

(** X10. With the key's Session row present and an array with a first axis
    of length [n] in the file, [Neuron.make] succeeds and appends the [n]
    rows when no [neuron_id] in [0 .. n-1] is already taken for the key,
    and fails with [DuplicateError] when one is. *)
Theorem Neuron_make_duplicates data_dir fs key d l :
  Ephys.has_Session d key = true ->
  fs (neuron_data_file data_dir key) = Some (Ephys.Arr l) ->
  ((forall idx, (idx < length l)%nat -> Ephys.has_Neuron d key (Z.of_nat idx) = false) ->
     snd (Ephys.Neuron_make data_dir fs key d)
     = Ok (tt, Ephys.mkedb (Ephys.Session d) (Ephys.Neuron d ++ neuron_rows key (Ephys.enumerate l))))
  /\ ((exists idx, (idx < length l)%nat /\ Ephys.has_Neuron d key (Z.of_nat idx) = true) ->
      snd (Ephys.Neuron_make data_dir fs key d) = Err DuplicateError).
Proof.
  intros Hs Hf.
  assert (Hrun : snd (Ephys.Neuron_make data_dir fs key d)
                 = snd (mapM_ (neuron_step key) (combine (seq 0 (length l)) l) d)).
  { unfold Ephys.Neuron_make; rewrite snd_bind; unfold load.
    unfold neuron_data_file in Hf; cbn [snd]; rewrite Hf; reflexivity. }
  rewrite Hrun, Neuron_loop_dups by exact Hs; split.
  - intro H; replace (forallb _ _) with true; [reflexivity |].
    symmetry; apply forallb_forall; intros i Hi; apply in_seq in Hi.
    rewrite H by lia; reflexivity.
  - intros (idx & Hi & Hd); replace (forallb _ _) with false; [reflexivity |].
    symmetry; apply Bool.not_true_iff_false; intro H; rewrite forallb_forall in H.
    assert (Hin : In idx (seq 0 (length l))) by (apply in_seq; lia).
    specialize (H idx Hin); rewrite Hd in H; discriminate.
Qed.

(** X11. [Neuron.make] fails with [FileNotFoundError] when the file is
    missing and with [TypeError] on a 0-d array, writing nothing; an empty
    array adds no row and succeeds; a non-empty array for a key without a
    Session row fails at the first insert ([IntegrityError], or
    [DuplicateError] if neuron 0 exists) without writing. *)
Theorem Neuron_make_errors data_dir fs key d :
  (fs (neuron_data_file data_dir key) = None ->
     Ephys.Neuron_make data_dir fs key d
     = ([Read (neuron_data_file data_dir key)],
        Err (FileNotFoundError (neuron_data_file data_dir key))))
  /\ (forall v, fs (neuron_data_file data_dir key) = Some (Ephys.Scalar v) ->
        Ephys.Neuron_make data_dir fs key d = ([Read (neuron_data_file data_dir key)], Err TypeError))
  /\ (fs (neuron_data_file data_dir key) = Some (Ephys.Arr []) ->
        Ephys.Neuron_make data_dir fs key d = ([Read (neuron_data_file data_dir key)], Ok (tt, d)))
  /\ (forall x l, fs (neuron_data_file data_dir key) = Some (Ephys.Arr (x :: l)) ->
        Ephys.has_Session d key = false ->
        Ephys.Neuron_make data_dir fs key d
        = ([Read (neuron_data_file data_dir key)],
           Err (if Ephys.has_Neuron d key 0 then DuplicateError else IntegrityError))).
Proof.
  unfold Ephys.Neuron_make, neuron_data_file, load, bind, raise; split; [| split; [| split]].
  - intro H; cbn beta; rewrite H; reflexivity.
  - intros v H; cbn beta; rewrite H; reflexivity.
  - intro H; cbn beta; rewrite H; reflexivity.
  - intros x l H Hs; cbn beta; rewrite H; unfold insert1, update, Ephys.ins_Neuron; cbn.
    unfold bind; cbn.
    destruct (Ephys.has_Neuron d key 0); [reflexivity |].
    rewrite Hs; reflexivity.
Qed.

Lemma preserves_at {S A} (I : S -> Prop) (m : M S A) s :
  preserves I m -> I s ->
  Forall I (steps (fst (m s))) /\ match snd (m s) with Ok (_, s') => I s' | Err _ => True end.
Proof. intros H Hs; exact (H s Hs). Qed.

Lemma noread_ret {S A} (a : A) : noread (@ret S A a).
Proof. intro; reflexivity. Qed.
Lemma noread_raise {S A} e : noread (@raise S A e).
Proof. intro; reflexivity. Qed.
Lemma noread_fetch1 {S R} (tbl : S -> list R) p : noread (fetch1 tbl p).
Proof. intro s; unfold fetch1; destruct (filter p (tbl s)) as [| ? [|]]; reflexivity. Qed.

(** X12. Every state a [make] method writes, and its final state, differs
    from the start state only by rows appended to its own table and part
    table: AverageFrame; Segmentation and Roi; Fluorescence and Trace;
    Neuron. [Segmentation.make] opens no file. *)
Theorem make_writes_own_tables :
  (forall fs k d,
     Forall (appends_AverageFrame d) (steps (fst (AverageFrame_make fs k d)))
     /\ match snd (AverageFrame_make fs k d) with
        | Ok (_, d') => appends_AverageFrame d d' | Err _ => True end)
  /\ (forall k d,
        Forall (appends_Segmentation d) (steps (fst (Segmentation_make k d)))
        /\ match snd (Segmentation_make k d) with
           | Ok (_, d') => appends_Segmentation d d' | Err _ => True end
        /\ reads (fst (Segmentation_make k d)) = [])
  /\ (forall fs k d,
        Forall (appends_Fluorescence d) (steps (fst (Fluorescence_make fs k d)))
        /\ match snd (Fluorescence_make fs k d) with
           | Ok (_, d') => appends_Fluorescence d d' | Err _ => True end)
  /\ (forall data_dir fs k d,
        Forall (appends_Neuron d) (steps (fst (Ephys.Neuron_make data_dir fs k d)))
        /\ match snd (Ephys.Neuron_make data_dir fs k d) with
           | Ok (_, d') => appends_Neuron d d' | Err _ => True end).
Proof.
  split; [| split; [| split]].
  - intros fs k d; apply preserves_at.
    + unfold AverageFrame_make; pres_tac; apply pres_insert1.
      intros s s' [rs ->] H; unfold ins_AverageFrame, guard in H.
      repeat match type of H with context [if ?b then _ else _] => destruct b end;
        try discriminate; injection H as <-.
      exists (rs ++ [mkAverageFrameRow k (np_mean_axis0 a1)]); destruct d; cbn; rewrite app_assoc; reflexivity.
    + exists []; destruct d; cbn; rewrite app_nil_r; reflexivity.
  - intros k d.
    assert (Hp : Forall (appends_Segmentation d) (steps (fst (Segmentation_make k d)))
                 /\ match snd (Segmentation_make k d) with
                    | Ok (_, d') => appends_Segmentation d d' | Err _ => True end).
    { apply preserves_at.
      - unfold Segmentation_make; pres_tac; [apply pres_insert1 | apply pres_insert].
        + intros s s' (rs & qs & ->) H; apply ins_Segmentation_ok in H; destruct H as (_ & _ & _ & ->).
          exists (rs ++ [mkSegmentationRow k l]), qs; destruct d; cbn; rewrite app_assoc; reflexivity.
        + intros r s s' (rs & qs & ->) H; apply ins_Roi_ok in H; destruct H as (_ & _ & ->).
          exists rs, (qs ++ [r]); destruct d; cbn; rewrite app_assoc; reflexivity.
      - exists [], []; destruct d; cbn; rewrite !app_nil_r; reflexivity. }
    split; [exact (proj1 Hp) | split; [exact (proj2 Hp) |]].
    clear Hp; revert d; change (noread (Segmentation_make k)); unfold Segmentation_make, insert1, insert.
    apply noread_bind; [apply noread_print | intro].
    apply noread_bind; [apply noread_fetch1 | intro af].
    apply noread_bind; [apply noread_fetch1 | intro sp].
    destruct (segment _ _ _) as [[L labels] |]; [| apply noread_raise].
    apply noread_bind; [apply noread_update | intro].
    apply noread_bind; [apply noread_print | intro; apply noread_update].
  - intros fs k d; apply preserves_at.
    + unfold Fluorescence_make; pres_tac; [apply pres_insert1 | apply pres_insert].
      * intros s s' (rs & qs & ->) H; apply ins_Fluorescence_ok in H; destruct H as (_ & _ & ->).
        eexists (rs ++ [_]), qs; destruct d; cbn; rewrite app_assoc; reflexivity.
      * intros r s s' (rs & qs & ->) H; apply ins_Trace_ok in H; subst s'.
        exists rs, (qs ++ [r]); destruct d; cbn; rewrite app_assoc; reflexivity.
    + exists [], []; destruct d; cbn; rewrite !app_nil_r; reflexivity.
  - intros data_dir fs k d; apply preserves_at.
    + unfold Ephys.Neuron_make; pres_tac; apply pres_insert1.
      intros s s' [rs ->] Hi; unfold Ephys.ins_Neuron in Hi.
      repeat match type of Hi with context [if ?b then _ else _] => destruct b end;
        try discriminate; injection Hi as <-.
      eexists (rs ++ [_]); cbn; rewrite app_assoc; reflexivity.
    + exists []; destruct d; cbn; rewrite app_nil_r; reflexivity.
Qed.

Lemma ins_all_Trace_succeeds ts s :
  NoDup (map tr_key ts) ->
  (forall t, In t ts -> has_Trace s (tr_key t) = false
                        /\ has_Fluorescence s (ro_seg (tr_key t)) = true
                        /\ has_Roi s (tr_key t) = true) ->
  ins_all ins_Trace ts s = Ok (set_Trace s (Trace s ++ ts)).
Proof.
  revert s; induction ts as [| t ts IH]; intros s Hnd Hall; cbn.
  - destruct s; cbn; rewrite app_nil_r; reflexivity.
  - destruct (Hall t (or_introl eq_refl)) as (H1 & H2 & H3).
    unfold ins_Trace at 1, guard; rewrite H1, H2, H3; cbn [negb andb].
    inversion Hnd as [| ? ? Hnin Hnd']; subst.
    rewrite IH; [cbn; rewrite <- app_assoc; reflexivity | exact Hnd' |].
    intros t' Ht'; destruct (Hall t' (or_intror Ht')) as (G1 & G2 & G3).
    split; [| split; [exact G2 | exact G3]].
    unfold has_Trace; cbn [Trace set_Trace]; rewrite existsb_app; fold (has_Trace s (tr_key t')).
    rewrite G1; cbn.
    destruct (RoiKey_eqb (tr_key t) (tr_key t')) eqn:E; [| reflexivity].
    apply RoiKey_eqb_eq in E; exfalso; apply Hnin; rewrite E; apply in_map; exact Ht'.
Qed.

Lemma has_dims_concat_length {A} w h (X : list (list A)) :
  has_dims w h X -> length (concat X) = (w * h)%nat.
Proof.
  intros [Hl Hr]; subst w; induction X as [| r X IH]; cbn; [reflexivity |].
  inversion Hr as [| ? ? Hr1 Hr2]; subst; rewrite length_app, IH by exact Hr2; lia.
Qed.

Lemma NoDup_map_inj {A B} (f : A -> B) l :
  (forall x y, f x = f y -> x = y) -> NoDup l -> NoDup (map f l).
Proof.
  intros Hf Hl; induction Hl as [| x l Hx Hl IH]; cbn; constructor; [| exact IH].
  intro Hin; apply in_map_iff in Hin; destruct Hin as (y & Hy & Hin).
  apply Hf in Hy; subst y; exact (Hx Hin).
Qed.

(** X13. [Segmentation.make] followed by [Fluorescence.make] on the same key:
    when [Segmentation.make] succeeds on a key whose average frame has
    [w > 0] rows of [h] values, the key's tif is found and its first frame
    has that shape, and the key had no Roi, Trace or Fluorescence rows
    before, the following [Fluorescence.make] also succeeds and adds exactly
    one Trace row per Roi row that [Segmentation.make] added, with the same
    keys in the same order. *)
Theorem Segmentation_then_Fluorescence fs key d af w h u d1 se sc im :
  filter (fun r => ScanKey_eqb (af_key r) (sg_scan key)) (AverageFrame d) = [af] ->
  has_shape w h (average_frame af) ->
  (forall r, In r (Roi d) -> ro_seg (ro_key r) <> key) ->
  (forall t, In t (Trace d) -> ro_seg (tr_key t) <> key) ->
  has_Fluorescence d key = false ->
  filter (session_of (sg_scan key)) (Session d) = [se] ->
  filter (scan_of (sg_scan key)) (Scan d) = [sc] ->
  fs (path_join (data_path se) (file_name sc)) = Some im ->
  has_dims w h (hd [] im) -> (0 < w)%nat ->
  snd (Segmentation_make key d) = Ok (u, d1) ->
  exists rois traces d2,
    Roi d1 = Roi d ++ rois
    /\ snd (Fluorescence_make fs key d1) = Ok (tt, d2)
    /\ Trace d2 = Trace d ++ traces
    /\ map tr_key traces = map ro_key rois.
Proof.
  intros H1 Hs HnoRoi HnoTr HnoFl Hse Hsc Hfs Him Hw H.
  destruct (Segmentation_make_run _ _ _ _ H)
    as (af' & sp & L & labels & d0 & E1 & E2 & E3 & E4 & E5 & _).
  rewrite H1 in E1; injection E1 as <-.
  destruct (segment_spec _ _ _ _ _ E3) as (S1 & S2 & _).
  assert (HL := segment_dims _ _ _ _ _ w h Hs E3).
  assert (Hpres := Segmentation_make_present _ _ _ _ H).
  apply ins_Segmentation_ok in E4; destruct E4 as (_ & _ & _ & ->).
  apply ins_all_Roi_ok in E5; subst d1.
  set (d1 := set_Roi (set_Segmentation d (Segmentation d ++ [mkSegmentationRow key L]))
               (Roi (set_Segmentation d (Segmentation d ++ [mkSegmentationRow key L]))
                ++ rois_of key L labels)) in *.
  rewrite (Fluorescence_make_loaded fs key d1 se sc im Hse Hsc Hfs).
  unfold ins_Fluorescence at 1, guard; cbn [fl_key].
  replace (has_Fluorescence d1 key) with false by (symmetry; exact HnoFl).
  rewrite Hpres; cbn [negb]; cbn zeta iota beta.
  assert (Hrois : filter (fun r => SegKey_eqb (ro_seg (ro_key r)) key) (Roi d1) = rois_of key L labels).
  { unfold d1; cbn [Roi set_Roi set_Segmentation]; rewrite filter_app.
    rewrite filter_all_false.
    - cbn; apply forallb_filter_id; apply forallb_forall; intros r Hr.
      unfold rois_of in Hr; apply in_map_iff in Hr; destruct Hr as (i & <- & _).
      apply SegKey_eqb_refl.
    - intros r Hr; apply Bool.not_true_iff_false; intro Hk; apply SegKey_eqb_eq in Hk.
      exact (HnoRoi r Hr Hk). }
  rewrite Hrois.
  assert (Hdim : (nrows (hd [] im) * ncols (hd [] im) = w * h)%nat).
  { destruct Him as [Hl Hr]; unfold nrows, ncols; rewrite Hl.
    destruct (hd [] im) as [| row rest]; [cbn in Hl; lia |].
    inversion Hr; subst; reflexivity. }
  rewrite Hdim.
  replace (forallb _ (rois_of key L labels)) with true.
  2: { symmetry; apply forallb_forall; intros r Hr.
       unfold rois_of in Hr; apply in_map_iff in Hr; destruct Hr as (i & <- & _).
       apply Nat.eqb_eq; cbn [mask]; apply has_dims_concat_length; apply has_dims_map; exact HL. }
  set (traces := map (fun r => mkTraceRow (ro_key r)
                                 (map (fun row => q_mean (select row (concat (mask r))))
                                      (map (@concat Q) im))) (rois_of key L labels)).
  assert (Hkeys : map tr_key traces = map ro_key (rois_of key L labels))
    by (unfold traces; rewrite map_map; reflexivity).
  rewrite (ins_all_Trace_succeeds traces _).
  - eexists (rois_of key L labels), traces, _.
    split; [reflexivity | split; [reflexivity | split; [reflexivity | exact Hkeys]]].
  - rewrite Hkeys; unfold rois_of; rewrite map_map; cbn.
    apply NoDup_map_inj; [intros x y Hxy; injection Hxy as ->; reflexivity | exact S2].
  - intros t Ht.
    assert (Hk : In (tr_key t) (map ro_key (rois_of key L labels)))
      by (rewrite <- Hkeys; apply in_map; exact Ht).
    apply in_map_iff in Hk; destruct Hk as (r & Hrk & Hr).
    assert (Hseg : ro_seg (ro_key r) = key).
    { unfold rois_of in Hr; apply in_map_iff in Hr; destruct Hr as (i & <- & _); reflexivity. }
    rewrite <- Hrk; split; [| split].
    + unfold has_Trace; apply Bool.not_true_iff_false; intro He.
      apply existsb_exists in He; destruct He as (t' & Ht' & Heq); apply RoiKey_eqb_eq in Heq.
      apply (HnoTr t' Ht'); rewrite Heq; exact Hseg.
    + unfold has_Fluorescence; cbn [Fluorescence set_Fluorescence]; rewrite existsb_app; cbn.
      rewrite Hseg, SegKey_eqb_refl, orb_true_r; reflexivity.
    + unfold has_Roi; apply existsb_exists; exists r; split; [| apply RoiKey_eqb_refl].
      cbn; apply in_or_app; right; exact Hr.
Qed.

(** ** [Segmentation.populate] *)

Lemma filter_key_single {R K} (eqb : K -> K -> bool) (key : R -> K)
    (eqb_eq : forall a b, eqb a b = true <-> a = b) l x :
  NoDup (map key l) -> In x l -> filter (fun r => eqb (key r) (key x)) l = [x].
Proof.
  induction l as [| y l IH]; intros Hnd Hx; [destruct Hx |].
  cbn in Hnd; apply NoDup_cons_iff in Hnd; destruct Hnd as [Hy Hnd]; cbn.
  destruct (eqb (key y) (key x)) eqn:E.
  - apply eqb_eq in E.
    assert (Hxy : y = x).
    { destruct Hx as [Hx | Hx]; [exact Hx |].
      exfalso; apply Hy; rewrite E; apply in_map; exact Hx. }
    subst y; f_equal; apply filter_all_false; intros r Hr.
    destruct (eqb (key r) (key x)) eqn:E'; [| reflexivity].
    apply eqb_eq in E'; exfalso; apply Hy; rewrite <- E'; apply in_map; exact Hr.
  - destruct Hx as [Hx | Hx]; [subst y; rewrite (proj2 (eqb_eq _ _) eq_refl) in E; discriminate |].
    exact (IH Hnd Hx).
Qed.

Lemma ins_all_Roi_fresh rs d :
  (forall r, In r rs -> has_Segmentation d (ro_seg (ro_key r)) = true) ->
  (forall r, In r rs -> has_Roi d (ro_key r) = false) ->
  NoDup (map ro_key rs) ->
  ins_all ins_Roi rs d = Ok (set_Roi d (Roi d ++ rs)).
Proof.
  revert d; induction rs as [| r rs IH]; intros d Hs Hr Hnd; cbn.
  - destruct d; cbn; rewrite app_nil_r; reflexivity.
  - cbn in Hnd; apply NoDup_cons_iff in Hnd; destruct Hnd as [Hn Hnd].
    unfold ins_Roi at 1, guard.
    rewrite (Hr r (or_introl eq_refl)), (Hs r (or_introl eq_refl)); cbn [negb].
    rewrite IH.
    + cbn; rewrite <- app_assoc; reflexivity.
    + intros r' Hr'; exact (Hs r' (or_intror Hr')).
    + intros r' Hr'; unfold has_Roi; cbn [set_Roi Roi]; rewrite existsb_app.
      change (existsb (fun r0 => RoiKey_eqb (ro_key r0) (ro_key r')) (Roi d)) with (has_Roi d (ro_key r')).
      rewrite (Hr r' (or_intror Hr')); cbn.
      destruct (RoiKey_eqb (ro_key r) (ro_key r')) eqn:E; [| reflexivity].
      apply RoiKey_eqb_eq in E; exfalso; apply Hn; rewrite E; apply in_map; exact Hr'.
    + exact Hnd.
Qed.

(** On a missing key of the join, in a database satisfying [seg_wf],
    [Segmentation.make] can raise only the [IndexError] of an average frame
    on which [segment] fails. *)
Lemma Segmentation_make_err_wf k d e :
  seg_wf d -> In k (Segmentation_key_source d) -> has_Segmentation d k = false ->
  snd (Segmentation_make k d) = Err e ->
  e = IndexError
  /\ exists af sp, In af (AverageFrame d) /\ In sp (SegmentationParam d)
      /\ k = mkSegKey (af_key af) (sp_id sp)
      /\ segment (average_frame af) (threshold sp) (size_cutoff sp) = None.
Proof.
  intros (Hpm & Haf & Hsp) Hk Hn He.
  unfold Segmentation_key_source in Hk; apply in_flat_map in Hk; destruct Hk as (af & Ha & Hk).
  apply in_map_iff in Hk; destruct Hk as (sp & <- & Hs).
  assert (E1 : filter (fun r => ScanKey_eqb (af_key r) (af_key af)) (AverageFrame d) = [af])
    by exact (filter_key_single _ af_key ScanKey_eqb_eq _ _ Haf Ha).
  assert (E2 : filter (fun r => Z.eqb (sp_id r) (sp_id sp)) (SegmentationParam d) = [sp])
    by exact (filter_key_single _ sp_id Z.eqb_eq _ _ Hsp Hs).
  rewrite (Segmentation_make_fetched (mkSegKey (af_key af) (sp_id sp)) d af sp E1 E2) in He.
  destruct (segment (average_frame af) (threshold sp) (size_cutoff sp)) as [[L labels] |] eqn:Eseg.
  2: { injection He as <-; split; [reflexivity |]; exists af, sp; auto. }
  exfalso.
  assert (Ha' : has_AverageFrame d (af_key af) = true)
    by (apply existsb_exists; exists af; split; [exact Ha | apply ScanKey_eqb_refl]).
  assert (Hs' : has_SegmentationParam d (sp_id sp) = true)
    by (apply existsb_exists; exists sp; split; [exact Hs | apply Z.eqb_refl]).
  unfold ins_Segmentation at 1, guard in He; cbn [sg_key sg_scan seg_param_id] in He.
  rewrite Hn, Ha', Hs' in He; cbn [negb andb] in He.
  set (k := mkSegKey (af_key af) (sp_id sp)) in *.
  set (d1 := set_Segmentation d (Segmentation d ++ [mkSegmentationRow k L])) in He.
  destruct (segment_spec _ _ _ _ _ Eseg) as (_ & Hlab & _).
  rewrite (ins_all_Roi_fresh (rois_of k L labels) d1) in He; [discriminate He | ..].
  - intros r Hr; unfold rois_of in Hr; apply in_map_iff in Hr; destruct Hr as (i & <- & _).
    unfold has_Segmentation, d1; cbn; rewrite existsb_app; cbn; rewrite SegKey_eqb_refl.
    apply orb_true_r.
  - intros r Hr; unfold rois_of in Hr; apply in_map_iff in Hr; destruct Hr as (i & <- & _).
    cbn [ro_key]; apply Bool.not_true_iff_false; intro Hx.
    apply existsb_exists in Hx; destruct Hx as (r0 & Hr0 & Hq); apply RoiKey_eqb_eq in Hq.
    unfold part_master, part_master_b in Hpm; apply andb_true_iff in Hpm.
    destruct Hpm as [Hpm _]; rewrite forallb_forall in Hpm.
    specialize (Hpm r0 Hr0); unfold fk_Roi in Hpm; rewrite Hq in Hpm; cbn in Hpm.
    change (has_Segmentation d k = true) in Hpm; congruence.
  - unfold rois_of; rewrite map_map; cbn.
    apply NoDup_map_inj; [intros x y Hxy; injection Hxy; auto | exact Hlab].
Qed.

Lemma Segmentation_make_frame k d u d' :
  snd (Segmentation_make k d) = Ok (u, d') ->
  forall k', k' <> k -> has_Segmentation d' k' = has_Segmentation d k'.
Proof.
  intros H k' Hne; destruct (Segmentation_make_state _ _ _ _ H) as (L & rs & ->).
  unfold has_Segmentation; cbn; rewrite existsb_app; cbn.
  destruct (SegKey_eqb k k') eqn:E; [apply SegKey_eqb_eq in E; congruence |].
  rewrite orb_false_r; reflexivity.
Qed.

Lemma Segmentation_make_keeps k d u d' :
  snd (Segmentation_make k d) = Ok (u, d') ->
  part_master d -> part_master d' /\ AverageFrame d' = AverageFrame d
                   /\ SegmentationParam d' = SegmentationParam d.
Proof.
  intros H Hd; destruct ins_part_master as (p1 & p2 & p3 & p4 & p5).
  assert (P : preserves part_master (Segmentation_make k)) by (apply Segmentation_make_pres; auto).
  destruct (P d Hd) as [_ Hp]; rewrite H in Hp.
  destruct (Segmentation_make_state _ _ _ _ H) as (L & rs & ->).
  split; [exact Hp | split; reflexivity].
Qed.

(** C2. [Segmentation.populate] invokes [make] on the keys of the join of
    [AverageFrame]'s and [SegmentationParam]'s primary keys missing from
    [Segmentation], in order, at most once each and never on a key already
    present, until a call raises; that call is the last one, it is rolled
    back (the final state is the one the calls before it reached), and with
    no raising call [make] is invoked exactly once per missing key and a
    second populate invokes nothing. On a database where every Roi and Trace
    row has its master row and the primary keys of the parents are distinct,
    the only error a call can raise is the [IndexError] of [Segmentation.make]
    on an average frame where [segment] fails (the defect of C7): when no
    missing key has such a frame, no call raises. When [SegmentationParam]
    is empty, [populate] invokes [make] zero times and leaves every table
    unchanged. *)
Theorem Segmentation_populate_calls d :
  (NoDup (Segmentation_key_source d) ->
   let '(d', calls, err) := Segmentation_populate (Some Segmentation_make) d in
   NoDup calls
   /\ (forall k, In k calls -> has_Segmentation d k = false)
   /\ (exists rest, missing Segmentation_key_source has_Segmentation d = calls ++ rest)
   /\ (err = None ->
       calls = missing Segmentation_key_source has_Segmentation d
       /\ Segmentation_populate (Some Segmentation_make) d' = (d', [], None))
   /\ (forall e, err = Some e ->
       exists done k, calls = done ++ [k]
         /\ populate_loop (Some Segmentation_make) done d = (d', done, None)
         /\ snd (Segmentation_make k d') = Err e
         /\ (seg_wf d ->
             e = IndexError
             /\ exists af sp, In af (AverageFrame d) /\ In sp (SegmentationParam d)
                 /\ k = mkSegKey (af_key af) (sp_id sp)
                 /\ segment (average_frame af) (threshold sp) (size_cutoff sp) = None))
   /\ (seg_wf d ->
       (forall af sp, In af (AverageFrame d) -> In sp (SegmentationParam d) ->
          has_Segmentation d (mkSegKey (af_key af) (sp_id sp)) = false ->
          segment (average_frame af) (threshold sp) (size_cutoff sp) <> None) ->
       err = None))
  /\ (SegmentationParam d = [] ->
      Segmentation_populate (Some Segmentation_make) d = (d, [], None)).
Proof.
  split.
  2: { intro He; unfold Segmentation_populate, populate, missing, Segmentation_key_source.
       rewrite He; cbn.
       induction (AverageFrame d) as [| a l IH]; cbn; [reflexivity | exact IH]. }
  intro Hnd.
  pose proof (populate_calls Segmentation_key_source has_Segmentation Segmentation_make
                Segmentation_make_present Segmentation_make_source Segmentation_make_mono d Hnd)
    as Hc.
  unfold Segmentation_populate; revert Hc.
  destruct (populate Segmentation_key_source has_Segmentation (Some Segmentation_make) d)
    as [[d' calls] err] eqn:Hpop.
  intros (H1 & H2 & H3 & H4 & _).
  assert (Herr : forall e, err = Some e ->
       exists done k, calls = done ++ [k]
         /\ populate_loop (Some Segmentation_make) done d = (d', done, None)
         /\ snd (Segmentation_make k d') = Err e
         /\ (seg_wf d ->
             e = IndexError
             /\ exists af sp, In af (AverageFrame d) /\ In sp (SegmentationParam d)
                 /\ k = mkSegKey (af_key af) (sp_id sp)
                 /\ segment (average_frame af) (threshold sp) (size_cutoff sp) = None)).
  { intros e ->; unfold populate in Hpop.
    destruct (populate_loop_error _ _ _ _ _ _ Hpop) as (done & k & rest & Hks & Hcs & Hd & Hk).
    exists done, k; split; [exact Hcs |]; split; [exact Hd |]; split; [exact Hk |].
    intros (Hpm & Haf & Hsp).
    destruct (populate_loop_inv Segmentation_make
                (fun s => part_master s /\ AverageFrame s = AverageFrame d
                          /\ SegmentationParam s = SegmentationParam d))
      with (ks := done) (d := d) (d' := d') (cs := done) as (Hpm' & HA & HS).
    { intros k0 s u s' (Hs1 & Hs2 & Hs3) Hok.
      destruct (Segmentation_make_keeps _ _ _ _ Hok Hs1) as (Ht1 & Ht2 & Ht3).
      split; [exact Ht1 | split; congruence]. }
    { split; [exact Hpm | split; reflexivity]. }
    { exact Hd. }
    assert (Hkm : In k (missing Segmentation_key_source has_Segmentation d))
      by (rewrite Hks; apply in_or_app; right; left; reflexivity).
    assert (Hndm : NoDup (missing Segmentation_key_source has_Segmentation d))
      by (apply NoDup_filter; exact Hnd).
    rewrite Hks in Hndm; apply NoDup_remove_2 in Hndm.
    unfold missing in Hkm; apply filter_In in Hkm; destruct Hkm as [Hks0 Hpk].
    apply negb_true_iff in Hpk.
    destruct (Segmentation_make_err_wf k d' e) as (He & af & sp & Ha & Hs & Hkey & Hseg).
    - split; [exact Hpm' | rewrite HA, HS; split; assumption].
    - unfold Segmentation_key_source; rewrite HA, HS; exact Hks0.
    - rewrite (populate_loop_frame has_Segmentation Segmentation_make Segmentation_make_frame
                 done d d' done Hd k (fun Hi => Hndm (in_or_app _ _ _ (or_introl Hi)))).
      exact Hpk.
    - exact Hk.
    - split; [exact He |]; exists af, sp; rewrite <- HA, <- HS; auto. }
  cbv beta iota.
  split; [exact H1 |]; split; [exact H2 |]; split; [exact H3 |]; split; [exact H4 |].
  split; [exact Herr |].
  intros Hwf Hall; destruct err as [e |]; [exfalso | reflexivity].
  destruct (Herr e eq_refl) as (done & k & Hcs & _ & _ & Hw).
  destruct (Hw Hwf) as (_ & af & sp & Ha & Hs & Hk & Hseg).
  apply (Hall af sp Ha Hs); [| exact Hseg].
  rewrite <- Hk; apply H2; rewrite Hcs; apply in_or_app; right; left; reflexivity.
Qed.

(** Failing input of C2: [make] raises the [IndexError] of C7 on the first
    key of the join (its average frame lies above the threshold everywhere)
    and [populate] stops; the second missing key is never passed to [make]. *)
Lemma Segmentation_populate_stops_at_error :
  In (mkSegKey key_b 0) (missing Segmentation_key_source has_Segmentation db_frames)
  /\ ~ In (mkSegKey key_b 0)
         (snd (fst (Segmentation_populate (Some Segmentation_make) db_frames))).
Proof.
  vm_compute. split; [right; left; reflexivity |].
  intros [H | []]; discriminate H.
Qed.

(** Witness of C2: on [db_frames] the call on the first key raises
    [IndexError] from the starting state; with [SegmentationParam] emptied,
    [populate] does nothing. *)
Lemma Segmentation_populate_calls_witness :
  NoDup (Segmentation_key_source db_frames)
  /\ seg_wf db_frames
  /\ Segmentation_populate (Some Segmentation_make) db_frames
     = (db_frames, [mkSegKey key_a 0], Some IndexError)
  /\ (let '(d', calls, err) := Segmentation_populate (Some Segmentation_make) db_frames in
      forall e, err = Some e ->
      exists done k, calls = done ++ [k]
        /\ populate_loop (Some Segmentation_make) done db_frames = (d', done, None)
        /\ snd (Segmentation_make k d') = Err e
        /\ (seg_wf db_frames ->
            e = IndexError
            /\ exists af sp, In af (AverageFrame db_frames) /\ In sp (SegmentationParam db_frames)
                /\ k = mkSegKey (af_key af) (sp_id sp)
                /\ segment (average_frame af) (threshold sp) (size_cutoff sp) = None))
  /\ SegmentationParam (set_SegmentationParam db_frames []) = []
  /\ Segmentation_populate (Some Segmentation_make) (set_SegmentationParam db_frames [])
     = (set_SegmentationParam db_frames [], [], None).
Proof.
  assert (H : NoDup (Segmentation_key_source db_frames)).
  { vm_compute. constructor; [intros [H | []]; discriminate H | constructor; [intros [] | constructor]]. }
  assert (Hw : seg_wf db_frames).
  { split; [vm_compute; reflexivity |]; vm_compute; split.
    - constructor; [intros [H0 | []]; discriminate H0 | constructor; [intros [] | constructor]].
    - constructor; [intros [] | constructor]. }
  split; [exact H |]; split; [exact Hw |]; split; [vm_compute; reflexivity |]; split.
  { pose proof (proj1 (Segmentation_populate_calls db_frames) H) as Hc; revert Hc.
    destruct (Segmentation_populate (Some Segmentation_make) db_frames) as [[d' calls] err].
    intro Hc; exact (proj1 (proj2 (proj2 (proj2 (proj2 Hc))))). }
  split; [reflexivity |].
  exact (proj2 (Segmentation_populate_calls (set_SegmentationParam db_frames [])) eq_refl).
Defined.

(** Witness of X1: [Segmentation_make_IndexError] applied at concrete inputs. *)
Lemma Segmentation_make_IndexError_witness :
  (snd (Segmentation_make (mkSegKey key_a 0) db_frames) = Err IndexError
   <-> (0 < 1)%nat /\ (0 < 1)%nat
       /\ forall i j, (i < 1)%nat -> (j < 1)%nat -> ((50#1) < pixel [[100#1]] i j)%Q)
  /\ (snd (Segmentation_make (mkSegKey key_a 0) db_frames) = Err IndexError ->
      fst (Segmentation_make (mkSegKey key_a 0) db_frames)
      = [Out (MsgPopulatingSeg (mkSegKey key_a 0))]).
Proof.
  apply (Segmentation_make_IndexError (mkSegKey key_a 0) db_frames
           (mkAverageFrameRow key_a [[100#1]]) (mkSegmentationParamRow 0 (50#1) (50#1)) 1 1);
    [reflexivity | reflexivity | split; [reflexivity | repeat constructor]].
Defined.

(** Witness of X2: [Segmentation_make_below_threshold] applied at concrete inputs. *)
Lemma Segmentation_make_below_threshold_witness :
  exists L,
    Segmentation_make (mkSegKey key_a 0) db_dark
    = ([Out (MsgPopulatingSeg (mkSegKey key_a 0));
        Step (set_Segmentation db_dark (Segmentation db_dark ++ [mkSegmentationRow (mkSegKey key_a 0) L]));
        Out (MsgDetected 0);
        Step (set_Segmentation db_dark (Segmentation db_dark ++ [mkSegmentationRow (mkSegKey key_a 0) L]))],
       Ok (tt, set_Segmentation db_dark (Segmentation db_dark ++ [mkSegmentationRow (mkSegKey key_a 0) L])))
    /\ forall v, In v (concat L) -> v = 0.
Proof.
  apply (Segmentation_make_below_threshold (mkSegKey key_a 0) db_dark
           (mkAverageFrameRow key_a [[0#1; 10#1]]) (mkSegmentationParamRow 0 (50#1) (2#1)));
    [reflexivity | reflexivity | reflexivity |].
  intros i j a H; destruct i as [| [| i]]; [| destruct j; discriminate | destruct j; discriminate].
  destruct j as [| [| [| j]]]; cbn in H; try discriminate; injection H as <-;
    apply Qle_bool_iff; reflexivity.
Defined.

(** Witness of X3: [Segmentation_make_shapes] applied at concrete inputs. *)
Lemma Segmentation_make_shapes_witness :
  exists u d', snd (Segmentation_make (mkSegKey key_a 0) db_rois) = Ok (u, d')
  /\ exists L rois,
    Segmentation d' = Segmentation db_rois ++ [mkSegmentationRow (mkSegKey key_a 0) L]
    /\ Roi d' = Roi db_rois ++ rois
    /\ has_dims 1 4 L
    /\ forall r, In r rois -> has_dims 1 4 (mask r).
Proof.
  eexists; eexists; split; [reflexivity |].
  eapply (Segmentation_make_shapes _ _ (mkAverageFrameRow key_a [[100#1; 100#1; 0#1; 100#1]]));
    [reflexivity | split; [reflexivity | repeat constructor] | reflexivity].
Defined.

(** Witness of X4: [Segmentation_make_roi_masks] applied at concrete inputs. *)
Lemma Segmentation_make_roi_masks_witness :
  exists u d', snd (Segmentation_make (mkSegKey key_a 0) db_rois) = Ok (u, d')
  /\ exists L rois,
    Segmentation d' = Segmentation db_rois ++ [mkSegmentationRow (mkSegKey key_a 0) L]
    /\ Roi d' = Roi db_rois ++ rois
    /\ (forall r i j, In r rois ->
          pxo (mask r) i j = Some true <-> pxo L i j = Some (roi_idx (ro_key r)))
    /\ (forall r, In r rois -> exists i j, pxo (mask r) i j = Some true)
    /\ (forall r1 r2 i j, In r1 rois -> In r2 rois ->
          pxo (mask r1) i j = Some true -> pxo (mask r2) i j = Some true -> r1 = r2)
    /\ (forall i j v, pxo L i j = Some v -> v <> 0 ->
          exists r, In r rois /\ pxo (mask r) i j = Some true).
Proof.
  eexists; eexists; split; [reflexivity |].
  eapply Segmentation_make_roi_masks; reflexivity.
Defined.

(** Witness of X5: [Fluorescence_make_traces] applied at concrete inputs. *)
Lemma Fluorescence_make_traces_witness :
  exists u d', snd (Fluorescence_make fs_rois (mkSegKey key_a 0) db_segmented) = Ok (u, d')
  /\ exists se sc im traces,
    filter (session_of (sg_scan (mkSegKey key_a 0))) (Session db_segmented) = [se]
    /\ filter (scan_of (sg_scan (mkSegKey key_a 0))) (Scan db_segmented) = [sc]
    /\ fs_rois (path_join (data_path se) (file_name sc)) = Some im
    /\ d' = set_Trace
              (set_Fluorescence db_segmented (Fluorescence db_segmented ++
                 [mkFluorescenceRow (mkSegKey key_a 0)
                    (map (fun t => (inject_Z (Z.of_nat t) / fps sc)%Q) (seq 0 (length im)))]))
              (Trace db_segmented ++ traces)
    /\ Forall2 (fun r tr =>
                  tr_key tr = ro_key r
                  /\ length (concat (mask r)) = (nrows (hd [] im) * ncols (hd [] im))%nat
                  /\ trace tr = map (fun frame => q_mean (select (concat frame) (concat (mask r)))) im)
               (filter (fun r => SegKey_eqb (ro_seg (ro_key r)) (mkSegKey key_a 0)) (Roi db_segmented))
               traces.
Proof.
  eexists; eexists; split; [vm_compute; reflexivity |].
  eapply Fluorescence_make_traces; vm_compute; reflexivity.
Defined.

(** Witness of X9: [Fluorescence_make_ValueError] applied at concrete inputs:
    1 x 2 frames against a 1 x 4 Roi mask. *)
Lemma Fluorescence_make_ValueError_witness :
  snd (Fluorescence_make fs_both (mkSegKey key_a 0) db_segmented) = Err ValueError.
Proof.
  apply (proj2 (Fluorescence_make_ValueError fs_both (mkSegKey key_a 0) db_segmented
                  (mkSessionRow (mkSessionKey 0 "2017-05-15") "/data")
                  (nth 0 notebook_scans scan_other_name) [ [[1#1; 3#1]]; [[3#1; 5#1]] ]
                  ltac:(vm_compute; reflexivity) ltac:(vm_compute; reflexivity)
                  ltac:(vm_compute; reflexivity) ltac:(vm_compute; reflexivity)
                  ltac:(vm_compute; reflexivity))).
  exists (nth 0 (Roi db_segmented) (mkRoiRow (mkRoiKey (mkSegKey key_a 0) 0) [])).
  vm_compute; split; [left; reflexivity | split; [reflexivity | discriminate]].
Defined.

(** Witness of X13: [Segmentation_then_Fluorescence] applied at concrete inputs. *)
Lemma Segmentation_then_Fluorescence_witness :
  exists u d1, snd (Segmentation_make (mkSegKey key_a 0) db_rois) = Ok (u, d1)
  /\ exists rois traces d2,
    Roi d1 = Roi db_rois ++ rois
    /\ snd (Fluorescence_make fs_rois (mkSegKey key_a 0) d1) = Ok (tt, d2)
    /\ Trace d2 = Trace db_rois ++ traces
    /\ map tr_key traces = map ro_key rois.
Proof.
  eexists; eexists; split; [reflexivity |].
  eapply (Segmentation_then_Fluorescence fs_rois (mkSegKey key_a 0) db_rois
            (mkAverageFrameRow key_a [[100#1; 100#1; 0#1; 100#1]]) 1 4 _ _
            (mkSessionRow (mkSessionKey 0 "2017-05-15") "/data")
            (nth 0 notebook_scans scan_other_name)
            [ [[100#1; 100#1; 0#1; 100#1]]; [[50#1; 150#1; 0#1; 100#1]] ]);
    try reflexivity.
  - split; [reflexivity | repeat constructor].
  - intros r [].
  - intros t [].
  - split; [reflexivity | repeat constructor].
  - lia.
Defined.

(** Witness of X6: [AverageFrame_make_errors] applied at concrete inputs. *)
Lemma AverageFrame_make_errors_witness :
  AverageFrame_make fs_both (mkScanKey (mkSessionKey 0 "2017-05-15") 9) db_scans = ([], Err FetchError)
  /\ AverageFrame_make fs_only_02 key_a db_scans
     = ([Read "/data/example_scan_01.tif"%string],
        Err (FileNotFoundError "/data/example_scan_01.tif"%string))
  /\ (steps (fst (AverageFrame_make fs_both key_a db_frames)) = []
      /\ exists e, snd (AverageFrame_make fs_both key_a db_frames) = Err e).
Proof.
  split; [| split].
  - apply (proj1 (AverageFrame_make_errors fs_both _ db_scans)); right; reflexivity.
  - exact (proj1 (proj2 (AverageFrame_make_errors fs_only_02 key_a db_scans))
             (mkSessionRow (mkSessionKey 0 "2017-05-15") "/data") (nth 0 notebook_scans scan_other_name)
             eq_refl eq_refl eq_refl).
  - apply (proj2 (proj2 (AverageFrame_make_errors fs_both key_a db_frames))); reflexivity.
Defined.

(** Witness of X7: [Segmentation_make_errors] applied at concrete inputs. *)
Lemma Segmentation_make_errors_witness :
  Segmentation_make (mkSegKey key_a 0) db_scans
  = ([Out (MsgPopulatingSeg (mkSegKey key_a 0))], Err FetchError)
  /\ (steps (fst (Segmentation_make (mkSegKey key_a 0) db_segmented)) = []
      /\ exists e, snd (Segmentation_make (mkSegKey key_a 0) db_segmented) = Err e).
Proof.
  split.
  - apply (proj1 (Segmentation_make_errors (mkSegKey key_a 0) db_scans)); left; reflexivity.
  - apply (proj2 (Segmentation_make_errors (mkSegKey key_a 0) db_segmented)); vm_compute; reflexivity.
Defined.

(** Witness of X8: [Fluorescence_make_errors] applied at concrete inputs. *)
Lemma Fluorescence_make_errors_witness :
  Fluorescence_make fs_both (mkSegKey (mkScanKey (mkSessionKey 0 "2017-05-15") 9) 0) db_frames
  = ([Out (MsgPopulatingFl (mkSegKey (mkScanKey (mkSessionKey 0 "2017-05-15") 9) 0))], Err FetchError)
  /\ Fluorescence_make fs_only_02 (mkSegKey key_a 0) db_segmented
     = ([Out (MsgPopulatingFl (mkSegKey key_a 0)); Read "/data/example_scan_01.tif"%string],
        Err (FileNotFoundError "/data/example_scan_01.tif"%string))
  /\ (steps (fst (Fluorescence_make fs_rois (mkSegKey key_a 0) db_rois)) = []
      /\ exists e, snd (Fluorescence_make fs_rois (mkSegKey key_a 0) db_rois) = Err e).
Proof.
  split; [| split].
  - apply (proj1 (Fluorescence_make_errors fs_both _ db_frames)); right; reflexivity.
  - exact (proj1 (proj2 (Fluorescence_make_errors fs_only_02 (mkSegKey key_a 0) db_segmented))
             (mkSessionRow (mkSessionKey 0 "2017-05-15") "/data") (nth 0 notebook_scans scan_other_name)
             ltac:(vm_compute; reflexivity) ltac:(vm_compute; reflexivity) ltac:(vm_compute; reflexivity)).
  - apply (proj2 (proj2 (Fluorescence_make_errors fs_rois (mkSegKey key_a 0) db_rois))); right;
      reflexivity.
Defined.

(** Witness of X10: [Neuron_make_duplicates] applied at concrete inputs. *)
Lemma Neuron_make_duplicates_witness :
  snd (Ephys.Neuron_make "/data" fs_1x1000 (mkSessionKey 0 "2017-05-15") edb_dup) = Err DuplicateError
  /\ snd (Ephys.Neuron_make "/data" fs_1x1000 (mkSessionKey 0 "2017-05-15") edb_other)
     = Ok (tt, Ephys.mkedb (Ephys.Session edb_other)
                 (Ephys.Neuron edb_other
                  ++ neuron_rows (mkSessionKey 0 "2017-05-15")
                       (Ephys.enumerate [Ephys.Arr (repeat (Ephys.Scalar 0) 1000)]))).
Proof.
  split.
  - apply (proj2 (Neuron_make_duplicates "/data" fs_1x1000 (mkSessionKey 0 "2017-05-15") edb_dup
                    [Ephys.Arr (repeat (Ephys.Scalar 0) 1000)] eq_refl eq_refl)).
    exists 0%nat; split; [cbn; lia | reflexivity].
  - apply (proj1 (Neuron_make_duplicates "/data" fs_1x1000 (mkSessionKey 0 "2017-05-15") edb_other
                    [Ephys.Arr (repeat (Ephys.Scalar 0) 1000)] eq_refl eq_refl)).
    intros idx Hi; cbn in Hi; destruct idx as [| idx]; [reflexivity | lia].
Defined.

(** Witness of X11: [Neuron_make_errors] applied at concrete inputs. *)
Lemma Neuron_make_errors_witness :
  Ephys.Neuron_make "/data" fs_1x1000 (mkSessionKey 1 "2017-05-15") edb_one
  = ([Read "/data/data_1_2017-05-15.npy"%string],
     Err (FileNotFoundError "/data/data_1_2017-05-15.npy"%string))
  /\ Ephys.Neuron_make "/data" (fun _ => Some (Ephys.Scalar 0)) (mkSessionKey 0 "2017-05-15") edb_one
     = ([Read "/data/data_0_2017-05-15.npy"%string], Err TypeError)
  /\ Ephys.Neuron_make "/data" (fun _ => Some (Ephys.Arr [])) (mkSessionKey 0 "2017-05-15") edb_one
     = ([Read "/data/data_0_2017-05-15.npy"%string], Ok (tt, edb_one))
  /\ Ephys.Neuron_make "/data" fs_1x1000 (mkSessionKey 0 "2017-05-15") (Ephys.mkedb [] [])
     = ([Read "/data/data_0_2017-05-15.npy"%string], Err IntegrityError).
Proof.
  split; [| split; [| split]].
  - exact (proj1 (Neuron_make_errors "/data" fs_1x1000 (mkSessionKey 1 "2017-05-15") edb_one) eq_refl).
  - exact (proj1 (proj2 (Neuron_make_errors "/data" (fun _ => Some (Ephys.Scalar 0))
                            (mkSessionKey 0 "2017-05-15") edb_one)) 0%Q eq_refl).
  - exact (proj1 (proj2 (proj2 (Neuron_make_errors "/data" (fun _ => Some (Ephys.Arr []))
                                   (mkSessionKey 0 "2017-05-15") edb_one))) eq_refl).
  - exact (proj2 (proj2 (proj2 (Neuron_make_errors "/data" fs_1x1000
                                   (mkSessionKey 0 "2017-05-15") (Ephys.mkedb [] []))))
             (Ephys.Arr (repeat (Ephys.Scalar 0) 1000)) [] eq_refl eq_refl).
Defined.
